(** * Auto Maple routines: the compiled "machine code" and its interpreter

    A shallow embedding of [routine.py]: the [Routine] program (compile,
    link, load, save) and its components [Point], [Label], [Jump],
    [Setting] and the externally supplied [Command]s.

    Python objects live in a heap and are named by their address, because
    the program shares them: [Routine.labels] and [Jump.link] name the
    same [Label] object that sits in [Routine.sequence].  Every method is
    a computation over the [world] that either returns or raises, and the
    world it leaves behind is kept in both cases, as in Python. *)

From Stdlib Require Import ZArith Ascii String DecimalString SpecFloat.
From stdpp Require Import base option list gmap strings.

Local Open Scope Z_scope.
Local Open Scope string_scope.
Local Open Scope list_scope.

(** ** Python values *)

(** A Python float is an IEEE 754 double. *)
Definition pyfloat := spec_float.

(** The values a constructor argument can hold.  [int], [str], [bool] and
    [float] are the types listed in [Component.PRIMITIVES]. *)
Inductive pyval :=
| VNone
| VBool (b : bool)
| VInt (n : Z)
| VFloat (f : pyfloat)
| VStr (s : string).

Inductive exn :=
| ValueError
| TypeError
| AttributeError
| ZeroDivisionError
| OSError.

Inductive result (A : Type) :=
| Ok (a : A)
| Raise (e : exn).
Arguments Ok {A} a.
Arguments Raise {A} e.

Definition result_bind {A B} (r : result A) (k : A -> result B) : result B :=
  match r with
  | Ok a => k a
  | Raise e => Raise e
  end.

#[global] Instance spec_float_eq_dec : EqDecision spec_float.
Proof. solve_decision. Defined.
#[global] Instance pyval_eq_dec : EqDecision pyval.
Proof. solve_decision. Defined.
#[global] Instance exn_eq_dec : EqDecision exn.
Proof. solve_decision. Defined.

(** [type(v) in Component.PRIMITIVES] *)
Definition is_primitive (v : pyval) : bool :=
  match v with
  | VNone => false
  | _ => true
  end.

(** Truthiness, as [if not file] uses it. *)
Definition truthy (v : pyval) : bool :=
  match v with
  | VNone => false
  | VBool b => b
  | VInt n => negb (Z.eqb n 0)
  | VFloat f => match f with S754_zero _ => false | _ => true end
  | VStr s => negb (String.eqb s EmptyString)
  end.

(** ** Strings *)

(** The characters [str.strip] removes, among the ASCII ones. *)
Definition is_space (c : ascii) : bool :=
  let n := nat_of_ascii c in
  ((9 <=? n) && (n <=? 13) || (28 <=? n) && (n <=? 32))%nat.

Fixpoint lstrip (s : string) : string :=
  match s with
  | String c s' => if is_space c then lstrip s' else s
  | EmptyString => EmptyString
  end.

Fixpoint rstrip (s : string) : string :=
  match s with
  | String c s' =>
      match rstrip s' with
      | EmptyString => if is_space c then EmptyString else String c EmptyString
      | r => String c r
      end
  | EmptyString => EmptyString
  end.

Definition strip (s : string) : string := rstrip (lstrip s).

Definition lower_ascii (c : ascii) : ascii :=
  let n := nat_of_ascii c in
  if ((65 <=? n) && (n <=? 90))%nat then ascii_of_nat (n + 32) else c.

Fixpoint lower (s : string) : string :=
  match s with
  | String c s' => String (lower_ascii c) (lower s')
  | EmptyString => EmptyString
  end.

(** [s.find(c)] as a split: the text before the first [c] and the text
    after it, or [None] when [c] does not occur. *)
Fixpoint split_at (c : ascii) (s : string) : option (string * string) :=
  match s with
  | EmptyString => None
  | String d s' =>
      if Ascii.eqb d c then Some (EmptyString, s')
      else match split_at c s' with
           | Some (k, v) => Some (String d k, v)
           | None => None
           end
  end.

Definition LF : ascii := "010".
Definition CR : ascii := "013".
Definition QUOTE : ascii := "034".

(** [sep.join(l)] *)
Fixpoint join (sep : string) (l : list string) : string :=
  match l with
  | [] => EmptyString
  | [x] => x
  | x :: l' => x +:+ sep +:+ join sep l'
  end.

Definition str_of_Z (n : Z) : string := NilZero.string_of_int (Z.to_int n).

(** ** The collaborators outside [routine.py]

    [utils], [config], [settings] and the Python builtins are not part of
    the file; the embedding takes them as an interface. *)

(** A class of [config.command_book]: its [__name__], the parameters of
    its [__init__] after [self] with their defaults, and whether the body
    of [__init__] accepts the bound arguments. *)
Record command_class := {
  cls_name : string;
  cls_params : list (string * option pyval);
  cls_init : list (string * pyval) -> result unit;
}.

Class Externals := {
  (** the builtin [float] *)
  py_float : pyval -> result pyfloat;
  (** [str] of a float *)
  float_str : pyfloat -> string;
  (** [utils.validate_nonzero_int] *)
  validate_nonzero_int : pyval -> result Z;
  (** [utils.validate_boolean] *)
  validate_boolean : pyval -> result bool;
  (** [config.command_book] *)
  command_book : gmap string command_class;
  (** [settings.SETTING_VALIDATORS] *)
  SETTING_VALIDATORS : gmap string (pyval -> result pyval);
  (** the text of the files [open] can read *)
  files : gmap string string;
  (** [os.path.basename] and [os.path.splitext] on a path given as text *)
  path_basename : string -> string;
  path_splitext : string -> string * string;
}.

(** Modelled from the spec: what [utils.validate_nonzero_int], which is
    not in [routine.py], promises.  The frequency it returns is a
    positive integer, and the default frequency, the number 1, is read
    like the text it is saved as. *)
Class ExternalsOk (E : Externals) : Prop := {
  validate_nonzero_int_pos :
    forall v n, validate_nonzero_int v = Ok n -> 1 <= n;
  validate_nonzero_int_default :
    validate_nonzero_int (VStr "1") = validate_nonzero_int (VInt 1);
}.

(** ** Objects and the world *)

(** Addresses of the heap. *)
Abbreviation addr := nat (only parsing).

(** A [Command] built from a class of the command book: its [id] (the
    class name) and the arguments captured by [Component.__init__]. *)
Record command := {
  c_id : string;
  c_args : list (string * pyval);
}.

Record point := {
  p_args : list (string * pyval);
  p_x : pyfloat;
  p_y : pyfloat;
  p_frequency : Z;
  p_counter : Z;
  p_adjust : bool;
  p_commands : list command;
}.

Record label := {
  l_args : list (string * pyval);
  l_label : string;
  l_links : gset addr;
  l_index : option Z;
}.

Record jump := {
  j_args : list (string * pyval);
  j_label : string;
  j_frequency : Z;
  j_counter : Z;
  j_link : option addr;
}.

Record setting := {
  s_args : list (string * pyval);
  s_key : string;
  s_value : pyval;
}.

(** Assignments to one attribute. *)
Definition p_set_counter (c : Z) (p : point) : point :=
  {| p_args := p_args p; p_x := p_x p; p_y := p_y p;
     p_frequency := p_frequency p; p_counter := c;
     p_adjust := p_adjust p; p_commands := p_commands p |}.
Definition p_set_commands (cs : list command) (p : point) : point :=
  {| p_args := p_args p; p_x := p_x p; p_y := p_y p;
     p_frequency := p_frequency p; p_counter := p_counter p;
     p_adjust := p_adjust p; p_commands := cs |}.
Definition l_set_index (i : option Z) (l : label) : label :=
  {| l_args := l_args l; l_label := l_label l;
     l_links := l_links l; l_index := i |}.
Definition l_set_links (s : gset addr) (l : label) : label :=
  {| l_args := l_args l; l_label := l_label l;
     l_links := s; l_index := l_index l |}.
Definition j_set_counter (c : Z) (j : jump) : jump :=
  {| j_args := j_args j; j_label := j_label j;
     j_frequency := j_frequency j; j_counter := c; j_link := j_link j |}.
Definition j_set_link (l : option addr) (j : jump) : jump :=
  {| j_args := j_args j; j_label := j_label j;
     j_frequency := j_frequency j; j_counter := j_counter j; j_link := l |}.

Inductive obj :=
| OPoint (p : point)
| OLabel (l : label)
| OJump (j : jump)
| OSetting (s : setting).

(** What the program does to the world outside it, in order. *)
Inductive event :=
| Print (s : string)
| PrintExn (e : exn)                      (* the text of a caught exception *)
| PrintSeparator                          (* utils.print_separator() *)
| SetRoutine (seq : list addr)            (* config.gui.set_routine(...) *)
| Execute (c : command)                   (* main() of an external Command *)
| SetAttr (key : string) (v : pyval)      (* setattr(settings, key, value) *)
| ResetSettings                           (* utils.reset_settings() *)
| ClearInfo                               (* config.gui.view.details.clear_info() *)
| UpdateRoutine (name : string)           (* config.gui.view.status.update_routine *)
| LayoutLoad (file : string)              (* config.layout = Layout.load(file) *)
| WriteFile (file : string) (text : string).

Record world := {
  heap : list obj;
  sequence : list addr;        (* self.sequence *)
  path : string;               (* self.path *)
  labels : gmap string addr;   (* Routine.labels *)
  index : option Z;            (* Routine.index; None is Python's None *)
  enabled : bool;              (* config.enabled *)
  out : list event;
}.

Definition set_heap (h : list obj) (w : world) : world :=
  {| heap := h; sequence := sequence w; path := path w; labels := labels w;
     index := index w; enabled := enabled w; out := out w |}.
Definition set_sequence (s : list addr) (w : world) : world :=
  {| heap := heap w; sequence := s; path := path w; labels := labels w;
     index := index w; enabled := enabled w; out := out w |}.
Definition set_path (p : string) (w : world) : world :=
  {| heap := heap w; sequence := sequence w; path := p; labels := labels w;
     index := index w; enabled := enabled w; out := out w |}.
Definition set_labels (l : gmap string addr) (w : world) : world :=
  {| heap := heap w; sequence := sequence w; path := path w; labels := l;
     index := index w; enabled := enabled w; out := out w |}.
Definition set_index (i : option Z) (w : world) : world :=
  {| heap := heap w; sequence := sequence w; path := path w; labels := labels w;
     index := i; enabled := enabled w; out := out w |}.
Definition set_enabled (b : bool) (w : world) : world :=
  {| heap := heap w; sequence := sequence w; path := path w; labels := labels w;
     index := index w; enabled := b; out := out w |}.
Definition set_out (o : list event) (w : world) : world :=
  {| heap := heap w; sequence := sequence w; path := path w; labels := labels w;
     index := index w; enabled := enabled w; out := o |}.

(** The program state proper: everything but the log of effects. *)
Definition same_state (w w' : world) : Prop :=
  heap w' = heap w /\ sequence w' = sequence w /\ path w' = path w /\
  labels w' = labels w /\ index w' = index w /\ enabled w' = enabled w.

(** ** Computations: state, effects and exceptions *)

Definition M (A : Type) : Type := world -> result A * world.

Definition ret {A} (a : A) : M A := fun w => (Ok a, w).
Definition raise {A} (e : exn) : M A := fun w => (Raise e, w).
Definition bind {A B} (m : M A) (k : A -> M B) : M B :=
  fun w => match m w with
           | (Ok a, w') => k a w'
           | (Raise e, w') => (Raise e, w')
           end.
Definition lift {A} (r : result A) : M A := fun w => (r, w).
Definition get : M world := fun w => (Ok w, w).
Definition modify (f : world -> world) : M unit := fun w => (Ok tt, f w).
Definition emit (e : event) : M unit := modify (fun w => set_out (out w ++ [e]) w).

(** [try: m except (ValueError, TypeError) as e: h e] *)
Definition try_except {A} (m : M A) (h : exn -> M A) : M A :=
  fun w => match m w with
           | (Raise ValueError, w') => h ValueError w'
           | (Raise TypeError, w') => h TypeError w'
           | r => r
           end.

Declare Scope py_scope.
Delimit Scope py_scope with py.
Notation "x <- m ;; k" := (bind m (fun x => k))
  (at level 100, m at next level, right associativity) : py_scope.
Notation "m ;; k" := (bind m (fun _ => k))
  (at level 100, right associativity) : py_scope.
Local Open Scope py_scope.

(** [for x in l: f x] *)
Fixpoint for_each {A} (l : list A) (f : A -> M unit) : M unit :=
  match l with
  | [] => ret tt
  | x :: l' => f x ;; for_each l' f
  end.

(** Allocation of a fresh object. *)
Definition alloc (o : obj) : M addr :=
  fun w => (Ok (length (heap w)), set_heap (heap w ++ [o]) w).

(** Attribute access on [self]: the object at an address. *)
Definition read (a : addr) : M obj :=
  fun w => match heap w !! a with
           | Some o => (Ok o, w)
           | None => (Raise AttributeError, w)
           end.
Definition write (a : addr) (o : obj) : M unit :=
  modify (fun w => set_heap (<[a := o]> (heap w)) w).

(** ** utils *)

(** Modelled from the spec: [utils.run_if_enabled], the decorator that
    gates a call on the process-wide enabled flag; when the flag is off
    the call is suppressed and nothing is returned. *)
Definition run_if_enabled {A} (f : M A) : M (option A) :=
  w <- get ;;
  if enabled w then (a <- f ;; ret (Some a)) else ret None.

(** Modelled from the spec: [utils.separate_args], which splits the
    fields after the first into positional arguments and [key=value]
    keyword arguments; the first "=" splits key from value, and
    surrounding whitespace is trimmed. *)
Fixpoint separate_args (arguments : list string)
  : list pyval * gmap string pyval :=
  match arguments with
  | [] => ([], ∅)
  | a :: rest =>
      let '(args, kwargs) := separate_args rest in
      match split_at "=" (strip a) with
      | Some (k, v) =>
          (args, match kwargs !! strip k with
                 | Some _ => kwargs                (* a later field wins *)
                 | None => <[strip k := VStr (strip v)]> kwargs
                 end)
      | None => (VStr (strip a) :: args, kwargs)
      end
  end.

(** ** Calling a constructor with positional and keyword arguments *)

Definition signature := list (string * option pyval).

(** The parameters are filled in order: from the positional arguments
    first, then by keyword, then from the default.  A parameter given
    both ways, or not at all, is a [TypeError]. *)
Fixpoint bind_params (params : signature) (args : list pyval)
    (kwargs : gmap string pyval) : result (list (string * pyval)) :=
  match params with
  | [] => Ok []
  | (k, d) :: ps =>
      match args with
      | a :: args' =>
          match kwargs !! k with
          | Some _ => Raise TypeError
          | None => result_bind (bind_params ps args' kwargs)
                      (fun r => Ok ((k, a) :: r))
          end
      | [] =>
          match kwargs !! k, d with
          | Some v, _ | None, Some v =>
              result_bind (bind_params ps [] kwargs) (fun r => Ok ((k, v) :: r))
          | None, None => Raise TypeError
          end
      end
  end.

(** Too many positional arguments, or a keyword that names no
    parameter, is a [TypeError] as well. *)
Definition bind_args (params : signature) (args : list pyval)
    (kwargs : gmap string pyval) : result (list (string * pyval)) :=
  if (length params <? length args)%nat then Raise TypeError
  else if bool_decide (dom kwargs ⊆ list_to_set (params.*1)) then
    bind_params params args kwargs
  else Raise TypeError.

Module Component.
Section Component.
Context `{E : Externals}.

(** [str(v)], which is also how an f-string renders [v]. *)
Definition py_str (v : pyval) : string :=
  match v with
  | VNone => "None"
  | VBool true => "True"
  | VBool false => "False"
  | VInt n => str_of_Z n
  | VFloat f => float_str f
  | VStr s => s
  end.

Definition encode_arg (kv : string * pyval) : option string :=
  let '(key, value) := kv in
  if negb (String.eqb key "id") && is_primitive value
  then Some (key +:+ "=" +:+ py_str value)
  else None.

(** Encodes an object using its ID and its [__init__] arguments. *)
Definition encode (id : string) (_args : list (string * pyval)) : string :=
  join ", " (id :: omap encode_arg _args).
End Component.
End Component.

Module Command.
Section Command.
Context `{E : Externals}.

(** Calling a class of the command book: the arguments are bound, the
    body of [__init__] checks them, and [Command.__init__] sets [id]
    to the name of the class. *)
Definition build (cls : command_class) (args : list pyval)
    (kwargs : gmap string pyval) : result command :=
  result_bind (bind_args (cls_params cls) args kwargs) (fun bound =>
  result_bind (cls_init cls bound) (fun _ =>
  Ok {| c_id := cls_name cls; c_args := bound |})).

Definition new (cls : command_class) (args : list pyval)
    (kwargs : gmap string pyval) : M command :=
  lift (build cls args kwargs).

(** [Component.execute] of a [Command]: its [main] is outside the
    program, and shows as one effect. *)
Definition execute (c : command) : M (option unit) :=
  run_if_enabled (emit (Execute c)).

Definition encode (c : command) : string :=
  Component.encode (c_id c) (c_args c).
End Command.
End Command.

Module Point.
Section Point.
Context `{E : Externals}.

Definition id : string := "*".

Definition params : signature :=
  [("x", None); ("y", None); ("frequency", Some (VInt 1));
   ("skip", Some (VStr "False")); ("adjust", Some (VStr "False"))].

Definition __init__ (bound : list (string * pyval)) : M addr :=
  match bound with
  | [(_, x); (_, y); (_, frequency); (_, skip); (_, adjust)] =>
      fx <- lift (py_float x) ;;
      fy <- lift (py_float y) ;;
      freq <- lift (validate_nonzero_int frequency) ;;
      sk <- lift (validate_boolean skip) ;;
      adj <- lift (validate_boolean adjust) ;;
      alloc (OPoint {| p_args := bound; p_x := fx; p_y := fy;
                       p_frequency := freq; p_counter := Z.b2z sk;
                       p_adjust := adj; p_commands := [] |})
  | _ => raise TypeError
  end.

Definition new (args : list pyval) (kwargs : gmap string pyval) : M addr :=
  bound <- lift (bind_args params args kwargs) ;;
  __init__ bound.

Definition self_point (self : addr) : M point :=
  o <- read self ;;
  match o with
  | OPoint p => ret p
  | _ => raise AttributeError
  end.

(** Increments this Point's counter, wrapping back to 0 at the upper
    bound. *)
Definition _increment_counter (self : addr) : M (option unit) :=
  run_if_enabled (
    p <- self_point self ;;
    if Z.eqb (p_frequency p) 0 then raise ZeroDivisionError
    else write self
           (OPoint (p_set_counter ((p_counter p + 1) mod p_frequency p) p))).

(** [config.command_book.get(name)] called on [self.location] and
    executed; calling the [None] that [get] returns for a missing name
    is a [TypeError]. *)
Definition run_book (name : string) (p : point) : M unit :=
  match command_book !! name with
  | None => raise TypeError
  | Some cls =>
      c <- Command.new cls [VFloat (p_x p); VFloat (p_y p)] ∅ ;;
      Command.execute c ;;
      ret tt
  end.

(** Executes the set of actions associated with this Point. *)
Definition main (self : addr) : M unit :=
  p <- self_point self ;;
  (if Z.eqb (p_counter p) 0 then
     run_book "move" p ;;
     (if p_adjust p then run_book "adjust" p else ret tt) ;;
     for_each (p_commands p) (fun command => Command.execute command ;; ret tt)
   else ret tt) ;;
  _increment_counter self ;;
  ret tt.

Definition encode (p : point) : string := Component.encode id (p_args p).
End Point.
End Point.

Module Label.
Section Label.
Context `{E : Externals}.

Definition id : string := "@".

Definition params : signature := [("label", None)].

Definition __init__ (bound : list (string * pyval)) : M addr :=
  match bound with
  | [(_, label)] =>
      w <- get ;;
      let name := Component.py_str label in
      match labels w !! name with
      | Some _ => raise ValueError
      | None => alloc (OLabel {| l_args := bound; l_label := name;
                                 l_links := ∅; l_index := None |})
      end
  | _ => raise TypeError
  end.

Definition new (args : list pyval) (kwargs : gmap string pyval) : M addr :=
  bound <- lift (bind_args params args kwargs) ;;
  __init__ bound.

Definition self_label (self : addr) : M label :=
  o <- read self ;;
  match o with
  | OLabel l => ret l
  | _ => raise AttributeError
  end.

Definition set_index (self : addr) (i : Z) : M unit :=
  l <- self_label self ;;
  write self (OLabel (l_set_index (Some i) l)).

Definition encode (l : label) : string :=
  String LF (Component.encode id (l_args l)).
End Label.
End Label.

Module Jump.
Section Jump.
Context `{E : Externals}.

Definition id : string := ">".

Definition params : signature :=
  [("label", None); ("frequency", Some (VInt 1)); ("skip", Some (VStr "False"))].

Definition __init__ (bound : list (string * pyval)) : M addr :=
  match bound with
  | [(_, label); (_, frequency); (_, skip)] =>
      freq <- lift (validate_nonzero_int frequency) ;;
      sk <- lift (validate_boolean skip) ;;
      alloc (OJump {| j_args := bound; j_label := Component.py_str label;
                      j_frequency := freq; j_counter := Z.b2z sk;
                      j_link := None |})
  | _ => raise TypeError
  end.

Definition new (args : list pyval) (kwargs : gmap string pyval) : M addr :=
  bound <- lift (bind_args params args kwargs) ;;
  __init__ bound.

Definition self_jump (self : addr) : M jump :=
  o <- read self ;;
  match o with
  | OJump j => ret j
  | _ => raise AttributeError
  end.

Definition _increment_counter (self : addr) : M (option unit) :=
  run_if_enabled (
    j <- self_jump self ;;
    if Z.eqb (j_frequency j) 0 then raise ZeroDivisionError
    else write self
           (OJump (j_set_counter ((j_counter j + 1) mod j_frequency j) j))).

Definition main (self : addr) : M unit :=
  j <- self_jump self ;;
  match j_link j with
  | None =>
      emit (Print (String LF "[!] Label '" +:+ j_label j +:+ "' does not exist."))
  | Some link =>
      (if Z.eqb (j_counter j) 0 then
         l <- Label.self_label link ;;
         modify (set_index (l_index l))
       else ret tt) ;;
      _increment_counter self ;;
      ret tt
  end.

(** Binds this Goto to its corresponding Label.  If the Label's index
    changes, this Goto instance will automatically be able to access
    the updated value.  Returns whether the binding was successful. *)
Definition bind (self : addr) : M bool :=
  j <- self_jump self ;;
  w <- get ;;
  match labels w !! j_label j with
  | Some link =>
      write self (OJump (j_set_link (Some link) j)) ;;
      l <- Label.self_label link ;;
      write link (OLabel (l_set_links ({[self]} ∪ l_links l) l)) ;;
      ret true
  | None => ret false
  end.

Definition encode (j : jump) : string := Component.encode id (j_args j).
End Jump.
End Jump.

Module Setting.
Section Setting.
Context `{E : Externals}.

Definition id : string := "$".

Definition params : signature := [("key", None); ("value", None)].

Definition __init__ (bound : list (string * pyval)) : M addr :=
  match bound with
  | [(_, key); (_, value)] =>
      let k := Component.py_str key in
      match SETTING_VALIDATORS !! k with
      | None => raise ValueError
      | Some validator =>
          v <- lift (validator value) ;;
          alloc (OSetting {| s_args := bound; s_key := k; s_value := v |})
      end
  | _ => raise TypeError
  end.

Definition new (args : list pyval) (kwargs : gmap string pyval) : M addr :=
  bound <- lift (bind_args params args kwargs) ;;
  __init__ bound.

Definition main (self : addr) : M unit :=
  o <- read self ;;
  match o with
  | OSetting s => emit (SetAttr (s_key s) (s_value s))
  | _ => raise AttributeError
  end.

Definition encode (s : setting) : string := Component.encode id (s_args s).
End Setting.
End Setting.

Section Execute.
Context `{E : Externals}.

(** [self.main()], dispatched on the class of [self]; a [Label] keeps
    the [main] of [Component], which does nothing. *)
Definition main (self : addr) : M unit :=
  o <- read self ;;
  match o with
  | OPoint _ => Point.main self
  | OLabel _ => ret tt
  | OJump _ => Jump.main self
  | OSetting _ => Setting.main self
  end.

(** [Component.execute] *)
Definition execute (self : addr) : M (option unit) :=
  run_if_enabled (main self).

(** [item.encode()], dispatched on the class of [item]. *)
Definition encode (o : obj) : string :=
  match o with
  | OPoint p => Point.encode p
  | OLabel l => Label.encode l
  | OJump j => Jump.encode j
  | OSetting s => Setting.encode s
  end.
End Execute.

(** ** The CSV reader

    [csv.reader(f, skipinitialspace=True)] with the default dialect
    (comma delimiter, double-quote quote character, doubled quotes, not
    strict), as
    the state machine of the reader run over the text of the file.  A
    line ends at a line feed, a carriage return, or the pair. *)

Inductive csv_state :=
| StartRecord
| AfterCR          (* a record just ended at a carriage return *)
| StartField
| InField
| InQuotedField
| QuoteInQuotedField.

Record csv_reader_state := {
  csv_st : csv_state;
  csv_field : string;              (* the field being read *)
  csv_fields : list string;        (* the fields of the record being read *)
  csv_rows : list (list string);   (* the records read *)
}.

Definition csv_init : csv_reader_state :=
  {| csv_st := StartRecord; csv_field := EmptyString; csv_fields := []; csv_rows := [] |}.


Definition csv_add_char (c : ascii) (st : csv_state) (r : csv_reader_state) :=
  {| csv_st := st; csv_field := csv_field r +:+ String c EmptyString;
     csv_fields := csv_fields r; csv_rows := csv_rows r |}.

Definition csv_save_field (st : csv_state) (r : csv_reader_state) :=
  {| csv_st := st; csv_field := EmptyString;
     csv_fields := csv_fields r ++ [csv_field r]; csv_rows := csv_rows r |}.

Definition csv_end_record (c : ascii) (r : csv_reader_state) :=
  {| csv_st := if Ascii.eqb c CR then AfterCR else StartRecord;
     csv_field := EmptyString; csv_fields := [];
     csv_rows := csv_rows r ++ [csv_fields r] |}.

Definition csv_set_state (st : csv_state) (r : csv_reader_state) :=
  {| csv_st := st; csv_field := csv_field r;
     csv_fields := csv_fields r; csv_rows := csv_rows r |}.

Definition is_newline (c : ascii) : bool := Ascii.eqb c LF || Ascii.eqb c CR.

Definition csv_start_field (c : ascii) (r : csv_reader_state) : csv_reader_state :=
  if is_newline c then csv_end_record c (csv_save_field StartField r)
  else if Ascii.eqb c QUOTE then csv_set_state InQuotedField r
  else if Ascii.eqb c " " then csv_set_state StartField r
  else if Ascii.eqb c "," then csv_save_field StartField r
  else csv_add_char c InField r.

Definition csv_step (r : csv_reader_state) (c : ascii) : csv_reader_state :=
  match csv_st r with
  | StartRecord =>
      if is_newline c then csv_end_record c r else csv_start_field c r
  | AfterCR =>
      if Ascii.eqb c LF then csv_set_state StartRecord r
      else if Ascii.eqb c CR then csv_end_record c r
      else csv_start_field c r
  | StartField => csv_start_field c r
  | InField =>
      if is_newline c then csv_end_record c (csv_save_field StartField r)
      else if Ascii.eqb c "," then csv_save_field StartField r
      else csv_add_char c InField r
  | InQuotedField =>
      if Ascii.eqb c QUOTE then csv_set_state QuoteInQuotedField r
      else csv_add_char c InQuotedField r
  | QuoteInQuotedField =>
      if Ascii.eqb c QUOTE then csv_add_char c InQuotedField r
      else if Ascii.eqb c "," then csv_save_field StartField r
      else if is_newline c then csv_end_record c (csv_save_field StartField r)
      else csv_add_char c InField r
  end.

(** At the end of the text a record that was begun is finished. *)
Definition csv_finish (r : csv_reader_state) : list (list string) :=
  match csv_st r with
  | StartRecord | AfterCR => csv_rows r
  | _ => (csv_rows r ++ [csv_fields r ++ [csv_field r]])%list
  end.

Definition csv_reader (text : string) : list (list string) :=
  csv_finish (fold_left csv_step (list_ascii_of_string text) csv_init).

(** ** Routine *)

(** What a row compiles to: a component of the sequence, by address, or a
    [Command] to attach to a [Point]. *)
Inductive compiled :=
| Top (a : addr)
| Cmd (c : command).

(** The classes a row can name. *)
Inductive class :=
| CPoint
| CLabel
| CJump
| CSetting
| CCommand (cls : command_class).

Definition SYMBOLS : gmap string class :=
  {[ "*" := CPoint; "@" := CLabel; ">" := CJump; "$" := CSetting ]}.

Module Routine.
Section Routine.
Context `{E : Externals}.

(** A new [Routine], in a process whose enabled flag is [b]. *)
Definition __init__ (b : bool) : world :=
  {| heap := []; sequence := []; path := EmptyString; labels := ∅;
     index := Some 0; enabled := b; out := [] |}.

(** [c.__name__] *)
Definition class_name (c : class) : string :=
  match c with
  | CPoint => "Point"
  | CLabel => "Label"
  | CJump => "Jump"
  | CSetting => "Setting"
  | CCommand cls => cls_name cls
  end.

(** Calling the class on the separated arguments of a row. *)
Definition construct (c : class) (args : list pyval)
    (kwargs : gmap string pyval) : M compiled :=
  match c with
  | CPoint => a <- Point.new args kwargs ;; ret (Top a)
  | CLabel => a <- Label.new args kwargs ;; ret (Top a)
  | CJump => a <- Jump.new args kwargs ;; ret (Top a)
  | CSetting => a <- Setting.new args kwargs ;; ret (Top a)
  | CCommand cls => c <- Command.new cls args kwargs ;; ret (Cmd c)
  end.

(** The [update] decorator: after a mutative operation the display is
    given the sequence again. *)
Definition update {A} (func : M A) : M A :=
  result <- func ;;
  w <- get ;;
  emit (SetRoutine (sequence w)) ;;
  ret result.

Definition set (arr : list addr) : M unit :=
  update (modify (set_sequence arr)).

Definition append (p : addr) : M unit :=
  update (modify (fun w => set_sequence (sequence w ++ [p]) w)).

(** [len(self)] *)
Definition __len__ (w : world) : Z := Z.of_nat (length (sequence w)).

(** [first in SYMBOLS], and otherwise [first in config.command_book] *)
Definition lookup_class (first : string) : option class :=
  match SYMBOLS !! first with
  | Some c => Some c
  | None => CCommand <$> command_book !! first
  end.

Definition _eval (row : list string) (i : Z) : M (option compiled) :=
  match row with
  | [] => ret None
  | r0 :: rest =>
      let first := lower r0 in
      let '(args, kwargs) := separate_args rest in
      let line_error := " !  Line " +:+ str_of_Z i +:+ ": " in
      match lookup_class first with
      | None =>
          emit (Print (line_error +:+ "Command '" +:+ first +:+ "' does not exist.")) ;;
          ret None
      | Some c =>
          try_except
            (obj <- construct c args kwargs ;;
             match obj with
             | Top a =>
                 o <- read a ;;
                 match o with
                 | OLabel l =>
                     w <- get ;;
                     Label.set_index a (__len__ w) ;;
                     modify (fun w => set_labels (<[l_label l := a]> (labels w)) w) ;;
                     ret (Some obj)
                 | _ => ret (Some obj)
                 end
             | Cmd _ => ret (Some obj)
             end)
            (fun e =>
               emit (Print (line_error +:+ "Found invalid arguments for '"
                            +:+ class_name c +:+ "':")) ;;
               emit (PrintExn e) ;;
               ret None)
      end
  end.

(** [curr_point.commands.append(result)] *)
Definition append_command (curr_point : addr) (c : command) : M unit :=
  p <- Point.self_point curr_point ;;
  write curr_point (OPoint (p_set_commands (p_commands p ++ [c]) p)).

(** The loop of [compile] over the rows of the reader. *)
Fixpoint compile_rows (rows : list (list string)) (curr_point : option addr)
    (line : Z) : M unit :=
  match rows with
  | [] => ret tt
  | row :: rows' =>
      result <- _eval row line ;;
      match result with
      | Some (Cmd c) =>
          match curr_point with
          | Some p => append_command p c
          | None => ret tt
          end ;;
          compile_rows rows' curr_point (line + 1)
      | Some (Top a) =>
          append a ;;
          o <- read a ;;
          compile_rows rows'
            (match o with OPoint _ => Some a | _ => curr_point end) (line + 1)
      | None => compile_rows rows' curr_point (line + 1)
      end
  end.

Definition compile (file : string) : M unit :=
  modify (set_labels ∅) ;;
  match files !! file with
  | None => raise OSError
  | Some text => compile_rows (csv_reader text) None 1
  end.

(** [os.path.basename(file)]: anything but a path is a [TypeError]. *)
Definition basename (file : pyval) : result string :=
  match file with
  | VStr s => Ok (path_basename s)
  | _ => Raise TypeError
  end.

(** The linking pass of [load]. *)
Definition link (self : addr) : M unit :=
  o <- read self ;;
  match o with
  | OJump _ => Jump.bind self ;; ret tt
  | _ => ret tt
  end.

Definition link_all : M unit :=
  w <- get ;;
  for_each (sequence w) link.

(** The part of [load] that follows the choice of the file. *)
Definition load_file (file : string) : M bool :=
  let ext := snd (path_splitext file) in
  if negb (String.eqb ext ".csv") then
    emit (Print (" !  '" +:+ ext +:+ "' is not a supported file extension.")) ;;
    ret false
  else
    set [] ;;
    modify (set_index (Some 0)) ;;
    emit ResetSettings ;;
    compile file ;;
    link_all ;;
    modify (set_path file) ;;
    emit ClearInfo ;;
    emit (UpdateRoutine (path_basename file)) ;;
    emit (LayoutLoad file) ;;
    emit (Print ("[~] Finished loading routine '"
                 +:+ path_basename (fst (path_splitext file)) +:+ "'.")) ;;
    ret true.

(** Attempts to load FILE into a sequence of Components.  If no file
    path is provided, attempts to load the previous routine file. *)
Definition load (file : pyval) : M bool :=
  emit PrintSeparator ;;
  name <- lift (basename file) ;;
  emit (Print ("[~] Loading routine '" +:+ name +:+ "':")) ;;
  if negb (truthy file) then
    w <- get ;;
    if truthy (VStr (path w)) then
      emit (Print " *  File path not provided, using previously loaded routine.") ;;
      load_file (path w)
    else
      emit (Print "[!] File path not provided, no routine was previously loaded either.") ;;
      ret false
  else
    match file with
    | VStr f => load_file f
    | _ => raise TypeError
    end.

Definition encode_item (o : obj) : list string :=
  encode o ::
  match o with
  | OPoint p => map (fun c => "    " +:+ Command.encode c) (p_commands p)
  | _ => []
  end.

(** Encodes and saves the current Routine at location PATH. *)
Definition save (file_path : string) : M unit :=
  w <- get ;;
  items <- (fun w' => (match mapM (fun a => heap w !! a) (sequence w) with
                       | Some os => Ok os
                       | None => Raise AttributeError
                       end, w')) ;;
  emit (WriteFile file_path
          (join (String LF EmptyString) (concat (map encode_item items) ++ [EmptyString]))) ;;
  emit PrintSeparator ;;
  emit (Print ("[~] Saved routine to '" +:+ path_basename file_path +:+ "'.")).
End Routine.
End Routine.

(** ** A concrete environment for the examples

    Decimal integer literals are the numbers it reads; the booleans are
    the texts "true" and "false" in any case.  The command book holds
    [move] and [adjust], the settings one boolean key, and the file
    system one routine. *)
Module Sample.

(** [int(s)] on an optionally signed decimal literal. *)
Definition int_of_str (s : string) : option Z :=
  match strip s with
  | EmptyString => None
  | String "-" EmptyString | String "+" EmptyString => None
  | String "+" d => Z.of_uint <$> NilZero.uint_of_string d
  | String "-" d => (fun u => - Z.of_uint u) <$> NilZero.uint_of_string d
  | d => Z.of_uint <$> NilZero.uint_of_string d
  end.

Definition float_of_Z (n : Z) : pyfloat := binary_normalize 53 1024 n 0 false.

Definition py_float (v : pyval) : result pyfloat :=
  match v with
  | VNone => Raise TypeError
  | VBool b => Ok (float_of_Z (Z.b2z b))
  | VInt n => Ok (float_of_Z n)
  | VFloat f => Ok f
  | VStr s => match int_of_str s with
              | Some n => Ok (float_of_Z n)
              | None => Raise ValueError
              end
  end.

(** [str] of a float with an integral value below 10^16. *)
Definition float_str (f : pyfloat) : string :=
  match f with
  | S754_zero s => if s then "-0.0" else "0.0"
  | S754_infinity s => if s then "-inf" else "inf"
  | S754_nan => "nan"
  | S754_finite s m e =>
      (if s then "-" else EmptyString) +:+
      str_of_Z (Z.shiftl (Z.pos m) e) +:+ ".0"
  end.

Definition py_int (v : pyval) : result Z :=
  match v with
  | VNone => Raise TypeError
  | VBool b => Ok (Z.b2z b)
  | VInt n => Ok n
  | VFloat _ => Raise TypeError
  | VStr s => match int_of_str s with
              | Some n => Ok n
              | None => Raise ValueError
              end
  end.

Definition validate_nonzero_int (v : pyval) : result Z :=
  result_bind (py_int v) (fun n => if Z.leb 1 n then Ok n else Raise ValueError).

Definition validate_boolean (v : pyval) : result bool :=
  match v with
  | VStr s =>
      if String.eqb (lower s) "true" then Ok true
      else if String.eqb (lower s) "false" then Ok false
      else Raise ValueError
  | _ => Raise AttributeError
  end.

Definition Move : command_class :=
  {| cls_name := "Move"; cls_params := [("x", None); ("y", None)];
     cls_init := fun _ => Ok tt |}.
Definition Adjust : command_class :=
  {| cls_name := "Adjust"; cls_params := [("x", None); ("y", None)];
     cls_init := fun _ => Ok tt |}.

Definition command_book : gmap string command_class :=
  {[ "move" := Move; "adjust" := Adjust ]}.

Definition SETTING_VALIDATORS : gmap string (pyval -> result pyval) :=
  {[ "record_layout" := fun v => result_bind (validate_boolean v) (fun b => Ok (VBool b)) ]}.

Definition routine_csv : string :=
  "*, 100, 200" +:+ String LF
  ("@, start" +:+ String LF
  (">, start" +:+ String LF
  ("*, 300, 400" +:+ String LF EmptyString))).

(** The rows of that file. *)
Definition scenario : list (list string) :=
  [["*"; "100"; "200"]; ["@"; "start"]; [">"; "start"]; ["*"; "300"; "400"]].

(** What the rows compile to, given the four coordinates as floats. *)
Definition scenario_point (x y : string) (fx fy : pyfloat) : obj :=
  OPoint {| p_args := [("x", VStr x); ("y", VStr y); ("frequency", VInt 1);
                       ("skip", VStr "False"); ("adjust", VStr "False")];
            p_x := fx; p_y := fy; p_frequency := 1; p_counter := 0;
            p_adjust := false; p_commands := [] |}.

Definition scenario_label (i : Z) (links : gset addr) : obj :=
  OLabel {| l_args := [("label", VStr "start")]; l_label := "start";
            l_links := links; l_index := Some i |}.

Definition scenario_jump (link : option addr) : obj :=
  OJump {| j_args := [("label", VStr "start"); ("frequency", VInt 1);
                      ("skip", VStr "False")];
           j_label := "start"; j_frequency := 1; j_counter := 0;
           j_link := link |}.

Definition files : gmap string string := {[ "routine.csv" := routine_csv ]}.

Fixpoint rsplit_at (c : ascii) (s : string) : option (string * string) :=
  match s with
  | EmptyString => None
  | String d s' =>
      match rsplit_at c s' with
      | Some (k, v) => Some (String d k, v)
      | None => if Ascii.eqb d c then Some (EmptyString, s') else None
      end
  end.

(** [posixpath.basename] *)
Definition path_basename (p : string) : string :=
  match rsplit_at "/" p with
  | Some (_, b) => b
  | None => p
  end.

Fixpoint all_dots (s : string) : bool :=
  match s with
  | EmptyString => true
  | String c s' => Ascii.eqb c "." && all_dots s'
  end.

(** [posixpath.splitext]: the extension starts at the last dot of the
    last component, leading dots apart. *)
Definition path_splitext (p : string) : string * string :=
  let '(dir, name) := match rsplit_at "/" p with
                      | Some (d, b) => (d +:+ "/", b)
                      | None => (EmptyString, p)
                      end in
  match rsplit_at "." name with
  | Some (root, ext) =>
      if all_dots root then (p, EmptyString)
      else (dir +:+ root, "." +:+ ext)
  | None => (p, EmptyString)
  end.

(** The same without a command book. *)
Definition bare : Externals :=
  Build_Externals py_float float_str validate_nonzero_int validate_boolean
    ∅ SETTING_VALIDATORS files path_basename path_splitext.

#[global] Instance externals : Externals :=
  Build_Externals py_float float_str validate_nonzero_int validate_boolean
    command_book SETTING_VALIDATORS files path_basename path_splitext.

(** The world after the rows are compiled and linked by a new,
    enabled [Routine]. *)
Definition linked_in (E : Externals) (rows : list (list string)) : world :=
  snd ((Routine.compile_rows rows None 1 ;; Routine.link_all) (Routine.__init__ true)).
Definition linked : list (list string) -> world := linked_in externals.
End Sample.


(** ** Running a component several times

    The stepper outside the program executes components one after the
    other, and the enabled flag may be switched between two executions. *)
Section Stepper.
Context `{E : Externals}.

(** One execution of [self] with the flag set to [b]; the world is
    kept whether the execution returns or raises. *)
Definition step_world (self : addr) (b : bool) (w : world) : world :=
  snd (execute self (set_enabled b w)).

(** [self] executed once for each flag of the list, in order. *)
Definition executions (self : addr) (flags : list bool) (w : world) : world :=
  fold_left (fun w b => step_world self b w) flags w.

(** Any number of executions of any components. *)
Inductive reaches : world -> world -> Prop :=
| reaches_refl w : reaches w w
| reaches_step w self b w' : reaches (step_world self b w) w' -> reaches w w'.
End Stepper.

(** How many of the executions were enabled. *)
Definition enabled_count (flags : list bool) : nat :=
  length (filter (fun b => b = true) flags).

(** The frequency and the counter of a periodic component. *)
Definition periodic (o : obj) : option (Z * Z) :=
  match o with
  | OPoint p => Some (p_frequency p, p_counter p)
  | OJump j => Some (j_frequency j, j_counter j)
  | _ => None
  end.

(** [0 <= counter < frequency] *)
Definition counter_in_range (o : obj) : Prop :=
  match periodic o with
  | Some (f, c) => 0 <= c < f
  | None => True
  end.

(** [0 <= counter <= frequency], under a positive frequency. *)
Definition counter_bounded (o : obj) : Prop :=
  match periodic o with
  | Some (f, c) => 1 <= f /\ 0 <= c <= f
  | None => True
  end.

(** [o'] is [o] after one counter advancement. *)
Definition advanced (o o' : obj) : Prop :=
  match o with
  | OPoint p =>
      p_frequency p <> 0 /\
      o' = OPoint (p_set_counter ((p_counter p + 1) mod p_frequency p) p)
  | OJump j =>
      j_frequency j <> 0 /\
      o' = OJump (j_set_counter ((j_counter j + 1) mod j_frequency j) j)
  | _ => False
  end.

Section Firing.
Context `{E : Externals}.

(** The command the book builds for [name] at the location of [p],
    when the book has the name and the class accepts the location. *)
Definition book_command (name : string) (p : point) : option command :=
  match command_book !! name with
  | Some cls =>
      match Command.build cls [VFloat (p_x p); VFloat (p_y p)] ∅ with
      | Ok c => Some c
      | Raise _ => None
      end
  | None => None
  end.

(** The effects of a firing, in order: the move, the adjust when the
    flag is set, and every attached command. *)
Definition fire_events (p : point) : option (list event) :=
  match book_command "move" p with
  | Some mv =>
      if p_adjust p then
        match book_command "adjust" p with
        | Some adj => Some (Execute mv :: Execute adj :: map Execute (p_commands p))
        | None => None
        end
      else Some (Execute mv :: map Execute (p_commands p))
  | None => None
  end.
End Firing.

(** ** Saving and reading back *)

Fixpoint string_forall (P : ascii -> bool) (s : string) : bool :=
  match s with
  | EmptyString => true
  | String c s' => P c && string_forall P s'
  end.

(** No comma and no line break: the text is one field to the reader if
    it is not quoted. *)
Definition plain (s : string) : bool :=
  string_forall (fun c => negb (Ascii.eqb c "," || is_newline c)) s.

(** A text that [strip] leaves alone and that holds no comma or line
    break: what an argument of a row is once [separate_args] has
    trimmed it, if the row had neither. *)
Definition value_ok (s : string) : bool :=
  String.eqb (strip s) s && plain s.

(** A parameter name: not empty, trimmed, without comma, line break or
    equals sign, not starting with a quote, and not [id], which
    [encode] leaves out. *)
Definition key_ok (k : string) : bool :=
  match k with
  | EmptyString => false
  | String c _ =>
      negb (Ascii.eqb c QUOTE) && value_ok k &&
      string_forall (fun c => negb (Ascii.eqb c "=")) k &&
      negb (String.eqb k "id")
  end.

(** The text of a field the reader returns as it is: not empty, without
    comma or line break, and starting neither with a space nor with a
    quote. *)
Definition field_ok (s : string) : bool :=
  match s with
  | EmptyString => false
  | String c _ => negb (Ascii.eqb c " ") && negb (Ascii.eqb c QUOTE) && plain s
  end.

(** The captured constructor arguments of a component, [_args]. *)
Definition obj_args (o : obj) : list (string * pyval) :=
  match o with
  | OPoint p => p_args p
  | OLabel l => l_args l
  | OJump j => j_args j
  | OSetting s => s_args s
  end.

(** An argument as [separate_args] takes it from a row without comma
    and line break: a trimmed text. *)
Definition from_row (v : pyval) : Prop :=
  exists s, v = VStr s /\ value_ok s = true.

Section Saving.
Context `{E : Externals}.

(** The value read back for an argument that was saved: its text.  An
    argument that is not of a primitive type is not saved, and the
    default takes its place again. *)
Definition saved_value (v : pyval) : pyval :=
  if is_primitive v then VStr (Component.py_str v) else v.

Definition saved_args (args : list (string * pyval)) : list (string * pyval) :=
  map (fun kv => (kv.1, saved_value kv.2)) args.

(** The component with its captured arguments read back, every other
    attribute being the same. *)
Definition saved_obj (o : obj) : obj :=
  match o with
  | OPoint p =>
      OPoint {| p_args := saved_args (p_args p); p_x := p_x p; p_y := p_y p;
                p_frequency := p_frequency p; p_counter := p_counter p;
                p_adjust := p_adjust p; p_commands := p_commands p |}
  | OLabel l =>
      OLabel {| l_args := saved_args (l_args l); l_label := l_label l;
                l_links := l_links l; l_index := l_index l |}
  | OJump j =>
      OJump {| j_args := saved_args (j_args j); j_label := j_label j;
               j_frequency := j_frequency j; j_counter := j_counter j;
               j_link := j_link j |}
  | OSetting s =>
      OSetting {| s_args := saved_args (s_args s); s_key := s_key s;
                  s_value := s_value s |}
  end.

(** The keyword arguments [separate_args] finds in the saved fields. *)
Definition saved_kwarg (kv : string * pyval) : option (string * pyval) :=
  if is_primitive kv.2 then Some (kv.1, VStr (Component.py_str kv.2)) else None.

Definition saved_kwargs (args : list (string * pyval)) : gmap string pyval :=
  list_to_map (omap saved_kwarg args).

(** A bound argument can be saved: its name is a key, and if it is of a
    primitive type its text is a value. *)
Definition arg_ok (kv : string * pyval) : Prop :=
  key_ok kv.1 = true /\
  (is_primitive kv.2 = true -> value_ok (Component.py_str kv.2) = true).

(** A bound argument comes from the row or is the default of its
    parameter. *)
Definition bound_from (kd : string * option pyval) (kv : string * pyval) : Prop :=
  kv.1 = kd.1 /\ (from_row kv.2 \/ kd.2 = Some kv.2).

Definition saved_command (c : command) : command :=
  {| c_id := c_id c; c_args := saved_args (c_args c) |}.

(** A signature whose arguments can be saved and read back: distinct
    parameter names that are keys, and primitive defaults whose text is
    a value. *)
Definition signature_ok (params : signature) : Prop :=
  NoDup (params.*1) /\
  Forall (fun kd => key_ok kd.1 = true /\
            forall v, kd.2 = Some v -> is_primitive v = true ->
                      value_ok (Component.py_str v) = true) params.

(** Modelled from the spec: what the classes of the action registry,
    which are outside [routine.py], are taken to be.  The registry is
    keyed by the class name in lower case, no class takes the place of
    a built-in symbol, the class name is a field of a row, the
    signature can be saved and read back, and [__init__] reads its
    arguments through their text. *)
Class BookOk : Prop := {
  book_key : forall key cls,
    command_book !! key = Some cls ->
    Routine.lookup_class (lower (cls_name cls)) = Some (CCommand cls);
  book_name : forall key cls,
    command_book !! key = Some cls -> field_ok (cls_name cls) = true;
  book_signature : forall key cls,
    command_book !! key = Some cls -> signature_ok (cls_params cls);
  book_init : forall key cls bound,
    command_book !! key = Some cls ->
    cls_init cls (saved_args bound) = cls_init cls bound;
}.

(** The [id] a class gives its instances, and its signature. *)
Definition class_id (c : class) : string :=
  match c with
  | CPoint => Point.id
  | CLabel => Label.id
  | CJump => Jump.id
  | CSetting => Setting.id
  | CCommand cls => cls_name cls
  end.

Definition class_params (c : class) : signature :=
  match c with
  | CPoint => Point.params
  | CLabel => Label.params
  | CJump => Jump.params
  | CSetting => Setting.params
  | CCommand cls => cls_params cls
  end.

(** The component is an instance of the class. *)
Definition instance_of (c : class) (o : obj) : Prop :=
  match c, o with
  | CPoint, OPoint _ | CLabel, OLabel _ | CJump, OJump _ | CSetting, OSetting _ => True
  | _, _ => False
  end.

(** The row [save] writes for an instance of the class with the bound
    arguments. *)
Definition saved_row (c : class) (bound : list (string * pyval)) : list string :=
  class_id c :: omap Component.encode_arg bound.

(** What [_eval] does once the constructor has returned: a Label gets
    the length of the sequence as its index and is registered. *)
Definition registered (r : compiled) (w : world) : world :=
  match r with
  | Top a =>
      match heap w !! a with
      | Some (OLabel l) =>
          set_labels (<[l_label l := a]> (labels w))
            (set_heap (<[a := OLabel (l_set_index (Some (Routine.__len__ w)) l)]>
                         (heap w)) w)
      | _ => w
      end
  | Cmd _ => w
  end.

(** The new component as [_eval] leaves it. *)
Definition indexed (o : obj) (w : world) : obj :=
  match o with
  | OLabel l => OLabel (l_set_index (Some (Routine.__len__ w)) l)
  | _ => o
  end.

(** The text [save] writes for what a row compiled to. *)
Definition encoded (r : compiled) (w : world) : option string :=
  match r with
  | Top a => encode <$> heap w !! a
  | Cmd c => Some ("    " +:+ Command.encode c)
  end.

(** What reading the text back gives: the component at the same address
    with its arguments read back, or the command with its arguments
    read back. *)
Definition read_back (r : compiled) (w : world) : compiled * world :=
  match r with
  | Top a =>
      (Top a, set_heap (match heap w !! a with
                        | Some o => <[a := saved_obj o]> (heap w)
                        | None => heap w
                        end) w)
  | Cmd c => (Cmd (saved_command c), w)
  end.
End Saving.

(** The states of the reader in which a field can begin. *)
Definition csv_at_start (r : csv_reader_state) : Prop :=
  (csv_st r = StartRecord \/ csv_st r = AfterCR \/ csv_st r = StartField) /\
  csv_field r = EmptyString.

(** The rows of a text that are not blank lines. *)
Definition csv_rows_of (text : string) : list (list string) :=
  filter (fun row => row <> []) (csv_reader text).

(** What one execution can do to the heap: nothing, or one counter
    advancement of the component executed. *)
Definition heap_stepped (self : addr) (w w' : world) : Prop :=
  heap w' = heap w \/
  exists o o', heap w !! self = Some o /\ advanced o o' /\
               heap w' = <[self := o']> (heap w).

Section Compiling.
Context `{E : Externals}.

(** The name of the Label a row asks for, when the row names the
    class [Label] and its arguments bind. *)
Definition label_name_of (row : list string) : option string :=
  match row with
  | r0 :: rest =>
      if String.eqb (lower r0) "@" then
        let '(args, kwargs) := separate_args rest in
        match bind_args Label.params args kwargs with
        | Ok [(_, v)] => Some (Component.py_str v)
        | _ => None
        end
      else None
  | [] => None
  end.

(** The two lines [_eval] prints when a constructor fails. *)
Definition invalid_arguments (i : Z) (c : class) (e : exn) : list event :=
  [Print ((" !  Line " +:+ str_of_Z i +:+ ": ") +:+ "Found invalid arguments for '"
          +:+ Routine.class_name c +:+ "':");
   PrintExn e].

(** The sequence holds each component once; every Label of the sequence
    is the one the label table has under its name; and every entry of
    the label table is a Label of the sequence with that name. *)
Definition labels_registered (w : world) : Prop :=
  NoDup (sequence w) /\
  (forall a, a ∈ sequence w -> (a < length (heap w))%nat) /\
  (forall a l, a ∈ sequence w -> heap w !! a = Some (OLabel l) ->
               labels w !! l_label l = Some a) /\
  (forall n a, labels w !! n = Some a ->
               a ∈ sequence w /\
               exists l, heap w !! a = Some (OLabel l) /\ l_label l = n).

(** What a constructor does to the world: it allocates the new object
    at the end of the heap, or raises and changes nothing. *)
Definition constructs (P : obj -> Prop) (w : world) (r : result addr * world) : Prop :=
  match r with
  | (Ok a, w') => exists o, a = length (heap w) /\ w' = set_heap (heap w ++ [o]) w /\ P o
  | (Raise _, w') => w' = w
  end.

(** What [_eval] does to the program: nothing, unless it returns a new
    component, allocated at the end of the heap; a new Label has a
    name that was free, is registered under it, and has the length of
    the sequence as its index. *)
Definition eval_effect (w : world) (r : result (option compiled) * world) : Prop :=
  let '(r, w') := r in
  sequence w' = sequence w /\ path w' = path w /\ index w' = index w /\
  enabled w' = enabled w /\
  match r with
  | Ok (Some (Top a)) =>
      exists o, a = length (heap w) /\ heap w' = heap w ++ [o] /\
        match o with
        | OLabel l =>
            labels w !! l_label l = None /\
            labels w' = <[l_label l := a]> (labels w) /\
            l_index l = Some (Routine.__len__ w)
        | _ => labels w' = labels w
        end
  | _ => heap w' = heap w /\ labels w' = labels w
  end.

(** The label table only grows, and the registration of the
    sequence's Labels is kept. *)
Definition compile_keeps (w w' : world) : Prop :=
  (forall n a, labels w !! n = Some a -> labels w' !! n = Some a) /\
  (labels_registered w -> labels_registered w').
End Compiling.

(** The world after an execution of the Point [p] at [self] in which the
    counter advances and the effects [evs] take place. *)
Definition point_stepped (self : addr) (p : point) (evs : list event)
    (w : world) : world :=
  set_heap (<[self := OPoint (p_set_counter ((p_counter p + 1) mod p_frequency p) p)]>
              (heap w))
    (set_out (out w ++ evs) w).

(** The diagnostic of a [Jump] whose label does not exist. *)
Definition no_label (j : jump) : event :=
  Print (String LF "[!] Label '" +:+ j_label j +:+ "' does not exist.").

(** ** What an execution leaves alone *)

(** The program apart from the heap, the program counter and the log. *)
Definition same_program (w w' : world) : Prop :=
  sequence w' = sequence w /\ labels w' = labels w /\ path w' = path w /\
  enabled w' = enabled w.

(** [same_program], and the program counter too. *)
Definition same_control (w w' : world) : Prop :=
  same_program w w' /\ index w' = index w.

(** ** What the linking pass changes *)

(** An object after some binds, in a program with the label table of
    [w]: a Label is what it was but for its links, which may have
    grown; a Jump is what it was or is bound to the Label the table has
    under its name; anything else is what it was. *)
Definition relinked (w : world) (o o' : obj) : Prop :=
  match o with
  | OLabel l =>
      exists l', o' = OLabel l' /\ l_set_links (l_links l) l' = l /\
                 l_links l ⊆ l_links l'
  | OJump j =>
      o' = OJump j \/
      exists la, labels w !! j_label j = Some la /\
                 o' = OJump (j_set_link (Some la) j)
  | _ => o' = o
  end.

(** The program after some binds: only the heap differs, object by
    object as [relinked] says. *)
Definition links_frame (w w' : world) : Prop :=
  same_control w w' /\ out w' = out w /\
  length (heap w') = length (heap w) /\
  forall a o, heap w !! a = Some o ->
    exists o', heap w' !! a = Some o' /\ relinked w o o'.

(** Every entry of the label table is the address of a Label. *)
Definition table_ok (w : world) : Prop :=
  forall n a, labels w !! n = Some a -> exists l, heap w !! a = Some (OLabel l).

(** ** Constructors that fail as [_eval] expects *)

(** A result that, if it is an exception, is one [_eval] catches. *)
Definition caught {A} (r : result A) : Prop :=
  match r with
  | Ok _ => True
  | Raise e => e = ValueError \/ e = TypeError
  end.

(** A field of a row as [separate_args] passes it on: a text. *)
Definition is_text (v : pyval) : Prop := exists s, v = VStr s.

(** A bound argument is a text of the row or the default of its
    parameter. *)
Definition text_or_default (kd : string * option pyval) (kv : string * pyval) : Prop :=
  is_text kv.2 \/ kd.2 = Some kv.2.

(** What the collaborators, which are outside [routine.py], are taken
    to raise on the arguments a row gives them, texts and defaults:
    nothing but [ValueError] and [TypeError], the two exceptions
    [_eval] handles. *)
Class ExternalsCaught (E : Externals) : Prop := {
  py_float_caught : forall s, caught (py_float (VStr s));
  validate_nonzero_int_caught : forall s, caught (validate_nonzero_int (VStr s));
  validate_nonzero_int_one : caught (validate_nonzero_int (VInt 1));
  validate_boolean_caught : forall s, caught (validate_boolean (VStr s));
  setting_validator_caught : forall key validator s,
    SETTING_VALIDATORS !! key = Some validator -> caught (validator (VStr s));
  cls_init_caught : forall key cls bound,
    command_book !! key = Some cls ->
    Forall2 text_or_default (cls_params cls) bound ->
    caught (cls_init cls bound);
}.

(** [curr_point] in [compile] is the address of a Point. *)
Definition point_at (w : world) (curr_point : option addr) : Prop :=
  match curr_point with
  | Some p => exists pt, heap w !! p = Some (OPoint pt)
  | None => True
  end.

(** ** A compiled and a loaded routine *)

(** Every Label of the sequence has its position in the sequence as
    its index. *)
Definition labels_indexed (w : world) : Prop :=
  forall i a l, sequence w !! i = Some a -> heap w !! a = Some (OLabel l) ->
    l_index l = Some (Z.of_nat i).

(** No Jump of the sequence is bound. *)
Definition jumps_unbound (w : world) : Prop :=
  forall a j, a ∈ sequence w -> heap w !! a = Some (OJump j) -> j_link j = None.

(** Every Jump of the sequence whose name is in the label table is
    bound to the Label of that name, and is among the links of that
    Label; every other Jump of the sequence is unbound. *)
Definition jumps_linked (w : world) : Prop :=
  forall a j, a ∈ sequence w -> heap w !! a = Some (OJump j) ->
    match labels w !! j_label j with
    | Some la =>
        j_link j = Some la /\
        exists l, heap w !! la = Some (OLabel l) /\ a ∈ l_links l
    | None => j_link j = None
    end.

(** The file [load] goes on with: the one it is given or, that being
    empty, the path of the routine. *)
Definition chosen_file (f : string) (w : world) : string :=
  if truthy (VStr f) then f else path w.

(** The counter of a periodic component after [k] advancements, from
    the counter [c0] it was constructed with: [c0] itself before the
    first, which may equal the frequency, and [(c0 + k) mod N] after. *)
Definition phase (c0 N : Z) (k : nat) : Z :=
  match k with
  | O => c0
  | S _ => (c0 + Z.of_nat k) mod N
  end.


(** * Properties *)

Local Ltac unfold_monad :=
  unfold bind, ret, raise, lift, get, modify, emit, read, write in *.

Section Execution.
Context `{E : Externals}.

Lemma set_enabled_id (w : world) : set_enabled (enabled w) w = w.
Proof. by destruct w. Qed.

Lemma execute_disabled (self : addr) (w : world) :
  enabled w = false -> execute self w = (Ok None, w).
Proof. intros H. unfold execute, run_if_enabled. unfold_monad. by rewrite H. Qed.

Lemma jump_main_unbound (self : addr) (w : world) (j : jump) :
  heap w !! self = Some (OJump j) -> j_link j = None ->
  Jump.main self w = (Ok tt, set_out (out w ++ [no_label j]) w).
Proof.
  intros Hj Hl. unfold Jump.main, Jump.self_jump. unfold_monad.
  rewrite Hj. simpl. by rewrite Hl.
Qed.

Lemma execute_jump_unbound (self : addr) (w : world) (j : jump) :
  heap w !! self = Some (OJump j) -> j_link j = None -> enabled w = true ->
  execute self w = (Ok (Some tt), set_out (out w ++ [no_label j]) w).
Proof.
  intros Hj Hl He. unfold execute, run_if_enabled, main. unfold_monad.
  rewrite He, Hj. simpl. by rewrite (jump_main_unbound self w j).
Qed.
End Execution.

Section UnboundJump.
Context `{E : Externals}.

Lemma step_world_unbound (self : addr) (j : jump) (b : bool) (w : world) :
  heap w !! self = Some (OJump j) -> j_link j = None ->
  step_world self b w =
    set_out (out w ++ (if b then [no_label j] else [])) (set_enabled b w).
Proof.
  intros Hj Hl. unfold step_world. destruct b.
  - by rewrite (execute_jump_unbound self _ j).
  - rewrite execute_disabled by done. simpl. by rewrite app_nil_r.
Qed.

(** C8.  A Jump whose link is null never changes the program counter,
    however often it is executed: each enabled execution returns
    after printing the diagnostic and nothing else, a disabled one
    does nothing, and after any number of executions the heap, the
    sequence, the label table, the path and the program counter are
    what they were. *)
Theorem unbound_jump_never_transfers
    (self : addr) (j : jump) (flags : list bool) (w : world) :
  heap w !! self = Some (OJump j) ->
  j_link j = None ->
  (forall b, execute self (set_enabled b w) =
     (Ok (if b then Some tt else None),
      set_out (out w ++ (if b then [no_label j] else [])) (set_enabled b w))) /\
  index (executions self flags w) = index w /\
  heap (executions self flags w) = heap w /\
  sequence (executions self flags w) = sequence w /\
  labels (executions self flags w) = labels w /\
  path (executions self flags w) = path w /\
  out (executions self flags w) =
    out w ++ concat (map (fun b : bool => if b then [no_label j] else []) flags).
Proof.
  intros Hj Hl. split.
  { intros [|].
    - by rewrite (execute_jump_unbound self _ j).
    - rewrite execute_disabled by done. simpl. by rewrite app_nil_r. }
  revert w Hj. unfold executions.
  induction flags as [|b flags IH]; intros w Hj; simpl.
  { by rewrite app_nil_r. }
  rewrite (step_world_unbound self j b w Hj Hl).
  set (w1 := set_out _ _).
  destruct (IH w1 Hj) as (Hi & Hh & Hs & Hlb & Hp & Ho).
  rewrite Hi, Hh, Hs, Hlb, Hp, Ho. subst w1. simpl.
  by rewrite <- app_assoc.
Qed.
End UnboundJump.

Section BoundJump.
Context `{E : Externals}.

Lemma jump_increment (self : addr) (j : jump) (w : world) :
  heap w !! self = Some (OJump j) -> enabled w = true -> j_frequency j <> 0 ->
  Jump._increment_counter self w =
    (Ok (Some tt),
     set_heap (<[self := OJump (j_set_counter ((j_counter j + 1) mod j_frequency j) j)]>
                 (heap w)) w).
Proof.
  intros Hj He Hf. unfold Jump._increment_counter, run_if_enabled, Jump.self_jump.
  unfold_monad. rewrite He, Hj. simpl.
  destruct (Z.eqb_spec (j_frequency j) 0) as [|_]; [done|]. done.
Qed.

(** The world after an enabled execution of a bound [Jump]. *)
Lemma execute_jump_bound (self link : addr) (j : jump) (l : label) (w : world) :
  heap w !! self = Some (OJump j) -> j_link j = Some link ->
  heap w !! link = Some (OLabel l) ->
  enabled w = true -> j_frequency j <> 0 ->
  execute self w =
    (Ok (Some tt),
     set_heap (<[self := OJump (j_set_counter ((j_counter j + 1) mod j_frequency j) j)]>
                 (heap w))
       (if Z.eqb (j_counter j) 0 then set_index (l_index l) w else w)).
Proof.
  intros Hj Hl Hlab He Hf.
  unfold execute, run_if_enabled, main. unfold_monad. rewrite He, Hj. simpl.
  unfold Jump.main, Jump.self_jump, Label.self_label. unfold_monad.
  rewrite Hj. simpl. rewrite Hl.
  destruct (Z.eqb (j_counter j) 0).
  - rewrite Hlab. simpl.
    rewrite (jump_increment self j (set_index (l_index l) w)) by done. done.
  - rewrite (jump_increment self j w) by done. done.
Qed.

(** C3, as the code has it.  An enabled execution of a Jump whose link
    is resolved advances the counter to [(counter + 1) mod frequency],
    whether or not the Jump fires; an enabled execution of a Jump
    whose link is null leaves the Jump as it was. *)
Theorem jump_counter_advances_when_bound
    (self : addr) (j : jump) (w : world) :
  heap w !! self = Some (OJump j) ->
  enabled w = true ->
  1 <= j_frequency j ->
  (forall link l,
     j_link j = Some link -> heap w !! link = Some (OLabel l) ->
     fst (execute self w) = Ok (Some tt) /\
     heap (snd (execute self w)) !! self =
       Some (OJump (j_set_counter ((j_counter j + 1) mod j_frequency j) j))) /\
  (j_link j = None ->
     fst (execute self w) = Ok (Some tt) /\
     heap (snd (execute self w)) !! self = Some (OJump j)).
Proof.
  intros Hj He Hf. split.
  - intros link l Hl Hlab.
    rewrite (execute_jump_bound self link j l w) by (done || lia).
    split; [done|]. simpl.
    assert (self < length (heap w))%nat by (by eapply lookup_lt_Some).
    destruct (Z.eqb (j_counter j) 0); simpl; by rewrite list_lookup_insert_eq.
  - intros Hl. rewrite (execute_jump_unbound self w j) by done. done.
Qed.
End BoundJump.

(** C3 fails as stated: the Jump of the row [>, nowhere, frequency=2]
    has no Label to bind to, and an enabled execution leaves its counter
    at 0 where [(0 + 1) mod 2] is 1. *)
Lemma unbound_jump_counter_stalls :
  let w := Sample.linked [[">"; "nowhere"; "frequency=2"]] in
  exists j,
    heap w !! 0%nat = Some (OJump j) /\ enabled w = true /\
    j_link j = None /\ j_frequency j = 2 /\ j_counter j = 0 /\
    fst (execute 0%nat w) = Ok (Some tt) /\
    heap (snd (execute 0%nat w)) !! 0%nat = Some (OJump j) /\
    j_counter j <> (j_counter j + 1) mod j_frequency j.
Proof.
  eexists. split; [vm_compute; reflexivity|].
  repeat split; try (vm_compute; reflexivity).
  vm_compute. discriminate.
Qed.

Lemma jump_counter_advances_when_bound_witness :
  let w := Sample.linked [["@"; "top"]; [">"; "top"; "frequency=2"]] in
  exists j, heap w !! 1%nat = Some (OJump j) /\
    fst (execute 1%nat w) = Ok (Some tt) /\
    j_counter j = 0 /\ j_frequency j = 2 /\
    heap (snd (execute 1%nat w)) !! 1%nat =
      Some (OJump (j_set_counter ((j_counter j + 1) mod j_frequency j) j)).
Proof.
  eexists. split; [vm_compute; reflexivity|].
  cut (forall A B C D : Prop, A /\ B -> C -> D -> A /\ C /\ D /\ B);
    [intros Hcut; apply Hcut; [|reflexivity|reflexivity] | tauto].
  eapply (proj1 (jump_counter_advances_when_bound 1%nat _
            (Sample.linked [["@"; "top"]; [">"; "top"; "frequency=2"]]) _ _ _)
            0%nat);
    vm_compute; reflexivity.
  Unshelve. all: vm_compute; (reflexivity || discriminate).
Defined.

Section Relink.
Context `{E : Externals}.

Lemma label_set_index (link : addr) (l : label) (i : Z) (w : world) :
  heap w !! link = Some (OLabel l) ->
  Label.set_index link i w =
    (Ok tt, set_heap (<[link := OLabel (l_set_index (Some i) l)]> (heap w)) w).
Proof.
  intros Hl. unfold Label.set_index, Label.self_label. unfold_monad.
  by rewrite Hl.
Qed.

Lemma jump_bind_found (self link : addr) (j : jump) (l : label) (w : world) :
  heap w !! self = Some (OJump j) -> heap w !! link = Some (OLabel l) ->
  labels w !! j_label j = Some link ->
  Jump.bind self w =
    (Ok true,
     set_heap (<[link := OLabel (l_set_links ({[self]} ∪ l_links l) l)]>
                 (<[self := OJump (j_set_link (Some link) j)]> (heap w))) w).
Proof.
  intros Hj Hl Hlab.
  assert (self <> link) by (intros ->; congruence).
  unfold Jump.bind, Jump.self_jump, Label.self_label. unfold_monad.
  rewrite Hj. simpl. rewrite Hlab. simpl.
  rewrite list_lookup_insert_ne by done. by rewrite Hl.
Qed.

Lemma jump_fires_to_index (self link : addr) (j : jump) (l : label) (w : world) :
  heap w !! self = Some (OJump j) -> heap w !! link = Some (OLabel l) ->
  j_link j = Some link -> enabled w = true ->
  j_counter j = 0 -> 1 <= j_frequency j ->
  index (snd (execute self w)) = l_index l.
Proof.
  intros Hj Hl Hlink He Hc Hf.
  rewrite (execute_jump_bound self link j l w) by (done || lia).
  by rewrite Hc.
Qed.

(** C7.  A bound Jump that fires sets the program counter to the index
    its Label has at that moment: whatever index [set_index] gave the
    Label after the Jump was bound, the next firing transfers there.
    The same holds from the moment [bind] finds the Label in the
    label table. *)
Theorem bound_jump_reads_current_index
    (self link : addr) (j : jump) (l : label) (w : world) :
  heap w !! self = Some (OJump j) ->
  heap w !! link = Some (OLabel l) ->
  enabled w = true ->
  j_counter j = 0 ->
  1 <= j_frequency j ->
  (j_link j = Some link ->
     index (snd (execute self w)) = l_index l /\
     forall i, index (snd (execute self (snd (Label.set_index link i w)))) = Some i) /\
  (labels w !! j_label j = Some link ->
     fst (Jump.bind self w) = Ok true /\
     index (snd (execute self (snd (Jump.bind self w)))) = l_index l /\
     forall i,
       index (snd (execute self
                (snd (Label.set_index link i (snd (Jump.bind self w)))))) = Some i).
Proof.
  intros Hj Hl He Hc Hf.
  assert (Hne : self <> link) by (intros ->; congruence).
  assert (Hs : (self < length (heap w))%nat) by (by eapply lookup_lt_Some).
  assert (Hk : (link < length (heap w))%nat) by (by eapply lookup_lt_Some).
  split.
  - intros Hlink. split; [by eapply jump_fires_to_index|].
    intros i. rewrite (label_set_index link l i w Hl). simpl.
    erewrite (jump_fires_to_index self link j (l_set_index (Some i) l)); try done.
    + simpl. by rewrite list_lookup_insert_ne.
    + simpl. by rewrite list_lookup_insert_eq.
  - intros Hlab. rewrite (jump_bind_found self link j l w) by done. simpl.
    split; [done|].
    set (j' := j_set_link (Some link) j).
    set (l' := l_set_links ({[self]} ∪ l_links l) l).
    set (w' := set_heap _ w).
    assert (Hj' : heap w' !! self = Some (OJump j')).
    { subst w'. simpl. rewrite list_lookup_insert_ne by done.
      by rewrite list_lookup_insert_eq. }
    assert (Hl' : heap w' !! link = Some (OLabel l')).
    { subst w'. simpl. rewrite list_lookup_insert_eq; [done|].
      by rewrite length_insert. }
    split.
    + by rewrite (jump_fires_to_index self link j' l' w').
    + intros i. rewrite (label_set_index link l' i w' Hl'). simpl.
      erewrite (jump_fires_to_index self link j' (l_set_index (Some i) l')); try done.
      * simpl. rewrite list_lookup_insert_ne by done. exact Hj'.
      * simpl. rewrite list_lookup_insert_eq; [done|].
        subst w'. simpl. by rewrite !length_insert.
Qed.
End Relink.

Lemma bound_jump_reads_current_index_witness :
  let w := Sample.linked [["*"; "100"; "200"]; ["@"; "start"]; [">"; "start"]] in
  index (snd (execute 2%nat w)) = Some 1 /\
  index (snd (execute 2%nat (snd (Label.set_index 1%nat 7 w)))) = Some 7.
Proof.
  intros w.
  assert (Hj : exists j, heap w !! 2%nat = Some (OJump j) /\ j_link j = Some 1%nat /\
                         j_counter j = 0 /\ 1 <= j_frequency j).
  { eexists. split; [vm_compute; reflexivity|]. repeat split. vm_compute. discriminate. }
  assert (Hl : exists l, heap w !! 1%nat = Some (OLabel l) /\ l_index l = Some 1).
  { eexists. split; [vm_compute; reflexivity|]. reflexivity. }
  destruct Hj as (j & Hj & Hlink & Hc & Hf). destruct Hl as (l & Hl & Hi).
  destruct (bound_jump_reads_current_index 2%nat 1%nat j l w Hj Hl eq_refl Hc Hf)
    as [H _].
  destruct (H Hlink) as [H1 H2]. split; [by rewrite H1|apply H2].
Defined.

Section PointExecution.
Context `{E : Externals}.

Lemma point_increment (self : addr) (p : point) (w : world) :
  heap w !! self = Some (OPoint p) -> enabled w = true -> p_frequency p <> 0 ->
  Point._increment_counter self w =
    (Ok (Some tt),
     set_heap (<[self := OPoint (p_set_counter ((p_counter p + 1) mod p_frequency p) p)]>
                 (heap w)) w).
Proof.
  intros Hp He Hf. unfold Point._increment_counter, run_if_enabled, Point.self_point.
  unfold_monad. rewrite He, Hp. simpl.
  destruct (Z.eqb_spec (p_frequency p) 0) as [|_]; [done|]. done.
Qed.

Lemma run_book_missing (name : string) (p : point) (w : world) :
  command_book !! name = None -> Point.run_book name p w = (Raise TypeError, w).
Proof. intros H. unfold Point.run_book. by rewrite H. Qed.

Lemma run_book_found (name : string) (p : point) (c : command) (w : world) :
  book_command name p = Some c -> enabled w = true ->
  Point.run_book name p w = (Ok tt, set_out (out w ++ [Execute c]) w).
Proof.
  unfold book_command, Point.run_book, Command.new, Command.execute, run_if_enabled.
  intros H He. destruct (command_book !! name) as [cls|]; [|done].
  unfold_monad. destruct (Command.build cls _ _) as [c'|]; [|done].
  injection H as ->. by rewrite He.
Qed.

Lemma run_book_ok (name : string) (p : point) (w w' : world) :
  Point.run_book name p w = (Ok tt, w') -> is_Some (command_book !! name).
Proof.
  unfold Point.run_book. destruct (command_book !! name); [by eexists|].
  unfold_monad. done.
Qed.

Lemma execute_commands (cs : list command) (w : world) :
  enabled w = true ->
  for_each cs (fun command => Command.execute command ;; ret tt) w =
    (Ok tt, set_out (out w ++ map Execute cs) w).
Proof.
  revert w. induction cs as [|c cs IH]; intros w He; simpl.
  - unfold_monad. rewrite app_nil_r. by destruct w.
  - unfold Command.execute, run_if_enabled. unfold_monad. rewrite He. simpl.
    unfold_monad. rewrite IH by done. simpl. by rewrite <- app_assoc.
Qed.
End PointExecution.

Section Waypoint.
Context `{E : Externals}.

Lemma execute_point_idle (self : addr) (p : point) (w : world) :
  heap w !! self = Some (OPoint p) -> enabled w = true -> p_frequency p <> 0 ->
  p_counter p <> 0 ->
  execute self w = (Ok (Some tt), point_stepped self p [] w).
Proof.
  intros Hp He Hf Hc.
  unfold execute, run_if_enabled, main. unfold_monad. rewrite He, Hp. simpl.
  unfold Point.main, Point.self_point. unfold_monad. rewrite Hp. simpl.
  destruct (Z.eqb_spec (p_counter p) 0) as [|_]; [done|].
  rewrite (point_increment self p w) by done.
  unfold point_stepped. rewrite app_nil_r. by destruct w.
Qed.

Lemma execute_point_fires (self : addr) (p : point) (evs : list event) (w : world) :
  heap w !! self = Some (OPoint p) -> enabled w = true -> p_frequency p <> 0 ->
  p_counter p = 0 -> fire_events p = Some evs ->
  execute self w = (Ok (Some tt), point_stepped self p evs w).
Proof.
  intros Hp He Hf Hc Hev.
  unfold execute, run_if_enabled, main. unfold_monad. rewrite He, Hp. simpl.
  unfold Point.main, Point.self_point. unfold_monad. rewrite Hp. simpl.
  rewrite Hc. simpl. unfold fire_events in Hev.
  destruct (book_command "move" p) as [mv|] eqn:Hmv; [|done].
  rewrite (run_book_found "move" p mv w) by done.
  destruct (p_adjust p).
  - destruct (book_command "adjust" p) as [adj|] eqn:Hadj; [|done].
    injection Hev as <-.
    rewrite (run_book_found "adjust" p adj) by done.
    rewrite execute_commands by done.
    rewrite (point_increment self p) by done.
    unfold point_stepped. simpl. rewrite Hc.
    by rewrite <- !app_assoc.
  - injection Hev as <-.
    rewrite execute_commands by done.
    rewrite (point_increment self p) by done.
    unfold point_stepped. simpl. rewrite Hc.
    by rewrite <- !app_assoc.
Qed.

(** C10.  A firing Waypoint takes [move], and [adjust] when the flag is
    set, from the command book with an unchecked [get].  Without
    [move] the execution raises a [TypeError] and leaves the world as
    it was: nothing is printed, nothing is skipped, the counter does
    not advance.  Without [adjust] under a set flag it raises after
    the move.  So an execution that returns had both entries; and
    when the book has them and they accept the location, the
    execution returns. *)
Theorem firing_waypoint_needs_registry (self : addr) (p : point) (w : world) :
  heap w !! self = Some (OPoint p) ->
  enabled w = true ->
  p_counter p = 0 ->
  (command_book !! "move" = None -> execute self w = (Raise TypeError, w)) /\
  (forall mv, book_command "move" p = Some mv -> p_adjust p = true ->
     command_book !! "adjust" = None ->
     execute self w = (Raise TypeError, set_out (out w ++ [Execute mv]) w)) /\
  (forall r w', execute self w = (Ok r, w') ->
     is_Some (command_book !! "move") /\
     (p_adjust p = true -> is_Some (command_book !! "adjust"))) /\
  (forall evs, fire_events p = Some evs -> p_frequency p <> 0 ->
     execute self w = (Ok (Some tt), point_stepped self p evs w)).
Proof.
  intros Hp He Hc.
  assert (Hex : execute self w =
    let '(r, w1) := Point.run_book "move" p w in
    match r with
    | Ok _ =>
        let '(r2, w2) := (if p_adjust p then Point.run_book "adjust" p else ret tt) w1 in
        match r2 with
        | Ok _ =>
            match (for_each (p_commands p)
                     (fun command => Command.execute command ;; ret tt) ;;
                   Point._increment_counter self ;; ret tt) w2 with
            | (Ok a, w3) => (Ok (Some a), w3)
            | (Raise e, w3) => (Raise e, w3)
            end
        | Raise e => (Raise e, w2)
        end
    | Raise e => (Raise e, w1)
    end).
  { unfold execute, run_if_enabled, main. unfold_monad. rewrite He, Hp. simpl.
    unfold Point.main, Point.self_point. unfold_monad. rewrite Hp. simpl.
    rewrite Hc. simpl.
    destruct (Point.run_book "move" p w) as [[[]|e] w1]; [|done].
    destruct ((if p_adjust p then Point.run_book "adjust" p else _) w1)
      as [[[]|e] w2]; [|done].
    destruct (for_each _ _ w2) as [[[]|e] w3]; [|done].
    destruct (Point._increment_counter self w3) as [[?|e] w4]; done. }
  repeat split.
  - intros Hmv. rewrite Hex. by rewrite run_book_missing.
  - intros mv Hmv Hadj Hnone. rewrite Hex.
    rewrite (run_book_found "move" p mv w) by done.
    rewrite Hadj. by rewrite run_book_missing.
  - rename H into Hok. rewrite Hex in Hok.
    destruct (Point.run_book "move" p w) as [[[]|e] w1] eqn:Hmv; [|done].
    by eapply run_book_ok.
  - rename H into Hok. intros Hadj. rewrite Hex in Hok.
    destruct (Point.run_book "move" p w) as [[[]|e] w1] eqn:Hmv; [|done].
    rewrite Hadj in Hok.
    destruct (Point.run_book "adjust" p w1) as [[[]|e] w2] eqn:Had; [|done].
    by eapply run_book_ok.
  - intros evs Hev Hf. by apply execute_point_fires.
Qed.
End Waypoint.

Section Periodic.
Context `{E : Externals}.

Lemma executions_snoc (self : addr) (flags : list bool) (b : bool) (w : world) :
  executions self (flags ++ [b]) w = step_world self b (executions self flags w).
Proof. unfold executions. by rewrite fold_left_app. Qed.

Lemma fire_events_counter (c : Z) (p : point) :
  fire_events (p_set_counter c p) = fire_events p.
Proof. done. Qed.

(** One execution of a Point under the registry precondition. *)
Lemma execute_point (self : addr) (p : point) (evs : list event) (w : world) :
  heap w !! self = Some (OPoint p) -> enabled w = true -> p_frequency p <> 0 ->
  fire_events p = Some evs ->
  execute self w =
    (Ok (Some tt),
     point_stepped self p (if Z.eqb (p_counter p) 0 then evs else []) w).
Proof.
  intros Hp He Hf Hev. destruct (Z.eqb_spec (p_counter p) 0).
  - by apply execute_point_fires.
  - by apply execute_point_idle.
Qed.

Lemma point_after_executions (self : addr) (p : point) (evs : list event)
    (w : world) (flags : list bool) :
  heap w !! self = Some (OPoint p) ->
  p_counter p = 0 -> 1 <= p_frequency p -> fire_events p = Some evs ->
  heap (executions self flags w) !! self =
    Some (OPoint (p_set_counter (Z.of_nat (enabled_count flags) mod p_frequency p) p)).
Proof.
  intros Hp Hc Hf Hev. induction flags as [|b flags IH] using rev_ind.
  - simpl. rewrite Z.mod_0_l by lia. rewrite Hp.
    destruct p; simpl in *; by subst.
  - rewrite executions_snoc. unfold enabled_count in *.
    rewrite filter_app, length_app.
    set (wk := executions self flags w) in *.
    unfold step_world. destruct b.
    + assert (Hen : enabled (set_enabled true wk) = true) by done.
      assert (Hpk : heap (set_enabled true wk) !! self = Some (OPoint
                (p_set_counter (Z.of_nat (length (filter (fun b => b = true) flags))
                                mod p_frequency p) p)))
        by done.
      rewrite (execute_point self _ evs _ Hpk Hen) by (simpl; (lia || done)).
      simpl. rewrite list_lookup_insert_eq by (by eapply lookup_lt_Some).
      do 2 f_equal. unfold p_set_counter. simpl. f_equal.
      rewrite Nat2Z.inj_add. by rewrite Zplus_mod_idemp_l.
    + rewrite execute_disabled by done. simpl.
      by rewrite Nat.add_0_r.
Qed.

(** A Waypoint with frequency N whose counter is 0 is executed again
    and again, the book holding [move] (and [adjust] under a set flag).
    After k enabled executions, and any number of disabled ones, its
    counter is k mod N, and the next enabled execution fires exactly
    when k mod N = 0. *)
Lemma point_fires_every_nth (self : addr) (p : point) (evs : list event)
    (w : world) (flags : list bool) :
  heap w !! self = Some (OPoint p) ->
  p_counter p = 0 ->
  1 <= p_frequency p ->
  fire_events p = Some evs ->
  let N := p_frequency p in
  let k := Z.of_nat (enabled_count flags) in
  let wk := set_enabled true (executions self flags w) in
  let pk := p_set_counter (k mod N) p in
  heap wk !! self = Some (OPoint pk) /\
  execute self wk =
    (Ok (Some tt),
     point_stepped self pk (if Z.eqb (k mod N) 0 then evs else []) wk) /\
  heap (snd (execute self wk)) !! self =
    Some (OPoint (p_set_counter ((k + 1) mod N) p)).
Proof.
  intros Hp Hc Hf Hev N k wk pk.
  pose proof (point_after_executions self p evs w flags Hp Hc Hf Hev) as Hpk.
  pose proof (point_after_executions self p evs w (flags ++ [true]) Hp Hc Hf Hev)
    as HpS.
  rewrite executions_snoc in HpS. unfold step_world in HpS.
  unfold enabled_count in HpS. rewrite filter_app, length_app in HpS.
  simpl in HpS. rewrite Nat2Z.inj_add in HpS.
  split; [done|]. split; [|done].
  by rewrite (execute_point self pk evs wk Hpk) by (simpl; (lia || done)).
Qed.
End Periodic.

Lemma unbound_jump_never_transfers_witness :
  let w := Sample.linked [[">"; "nowhere"]] in
  index (executions 0%nat [true; false; true] w) = Some 0.
Proof.
  intros w.
  assert (Hj : exists j, heap w !! 0%nat = Some (OJump j) /\ j_link j = None).
  { eexists. split; [vm_compute; reflexivity|]. reflexivity. }
  destruct Hj as (j & Hj & Hl).
  destruct (unbound_jump_never_transfers 0%nat j [true; false; true] w Hj Hl)
    as (_ & Hi & _).
  by rewrite Hi.
Defined.

Lemma firing_waypoint_needs_registry_witness :
  let w := Sample.linked_in Sample.bare [["*"; "100"; "200"]] in
  @execute Sample.bare 0%nat w = (Raise TypeError, w).
Proof.
  intros w.
  assert (Hp : exists p, heap w !! 0%nat = Some (OPoint p) /\ p_counter p = 0).
  { eexists. split; [vm_compute; reflexivity|]. reflexivity. }
  destruct Hp as (p & Hp & Hc).
  destruct (@firing_waypoint_needs_registry Sample.bare 0%nat p w Hp eq_refl Hc)
    as (Hmove & _).
  apply Hmove. reflexivity.
Defined.

(** ** The counter invariant *)

Section Frame.
Context `{E : Externals}.

Lemma run_book_heap (name : string) (p : point) (w : world) :
  heap (snd (Point.run_book name p w)) = heap w.
Proof.
  unfold Point.run_book, Command.new, Command.execute, run_if_enabled.
  destruct (command_book !! name) as [cls|]; [|done].
  unfold_monad. destruct (Command.build cls _ _); [|done].
  by destruct (enabled w).
Qed.

Lemma execute_commands_heap (cs : list command) (w : world) :
  heap (snd (for_each cs (fun command => Command.execute command ;; ret tt) w)) = heap w.
Proof.
  revert w. induction cs as [|c cs IH]; intros w; [done|]. simpl.
  unfold Command.execute, run_if_enabled. unfold_monad.
  destruct (enabled w); simpl; by rewrite IH.
Qed.

Lemma point_increment_heap (self : addr) (w : world) :
  heap_stepped self w (snd (Point._increment_counter self w)).
Proof.
  unfold Point._increment_counter, run_if_enabled, Point.self_point. unfold_monad.
  destruct (enabled w); [|by left].
  destruct (heap w !! self) as [[p| | |]|] eqn:Hp; try by left.
  destruct (Z.eqb_spec (p_frequency p) 0); [by left|].
  right. exists (OPoint p). eexists. split; [done|]. split; [|done]. done.
Qed.

Lemma jump_increment_heap (self : addr) (w : world) :
  heap_stepped self w (snd (Jump._increment_counter self w)).
Proof.
  unfold Jump._increment_counter, run_if_enabled, Jump.self_jump. unfold_monad.
  destruct (enabled w); [|by left].
  destruct (heap w !! self) as [[| |j|]|] eqn:Hp; try by left.
  destruct (Z.eqb_spec (j_frequency j) 0); [by left|].
  right. exists (OJump j). eexists. split; [done|]. split; [|done]. done.
Qed.

Lemma heap_stepped_from (self : addr) (w w1 w' : world) :
  heap w1 = heap w -> heap_stepped self w1 w' -> heap_stepped self w w'.
Proof. unfold heap_stepped. intros ->. done. Qed.

Lemma point_main_heap (self : addr) (w : world) :
  heap_stepped self w (snd (Point.main self w)).
Proof.
  unfold Point.main, Point.self_point. unfold_monad.
  destruct (heap w !! self) as [[p| | |]|] eqn:Hp; try by left.
  simpl.
  assert (Hfire : forall w1, heap w1 = heap w ->
    heap_stepped self w
      (snd (let '(r, w2) := Point._increment_counter self w1 in
            match r with Ok _ => (Ok tt, w2) | Raise e => (Raise e, w2) end))).
  { intros w1 H1. apply (heap_stepped_from self w w1); [done|].
    pose proof (point_increment_heap self w1) as Hs.
    by destruct (Point._increment_counter self w1) as [[?|?] ?]. }
  destruct (Z.eqb (p_counter p) 0); [|by apply Hfire].
  pose proof (run_book_heap "move" p w) as H1.
  destruct (Point.run_book "move" p w) as [[[]|e] w1]; simpl in H1; [|by left].
  assert (Hcmds : forall w2, heap w2 = heap w ->
    heap_stepped self w
      (snd (let '(r, w3) :=
              for_each (p_commands p)
                (fun command => Command.execute command ;; ret tt) w2 in
            match r with
            | Ok _ =>
                let '(r, w4) := Point._increment_counter self w3 in
                match r with Ok _ => (Ok tt, w4) | Raise e => (Raise e, w4) end
            | Raise e => (Raise e, w3)
            end))).
  { intros w2 H2.
    pose proof (execute_commands_heap (p_commands p) w2) as H3.
    unfold_monad.
    destruct (for_each _ _ w2) as [[[]|e] w3]; simpl in H3; [|left; simpl; congruence].
    apply Hfire. congruence. }
  destruct (p_adjust p); [|by apply Hcmds].
  pose proof (run_book_heap "adjust" p w1) as H2.
  destruct (Point.run_book "adjust" p w1) as [[[]|e] w2]; simpl in H2;
    [|left; simpl; congruence].
  apply Hcmds. congruence.
Qed.

Lemma jump_main_heap (self : addr) (w : world) :
  heap_stepped self w (snd (Jump.main self w)).
Proof.
  unfold Jump.main, Jump.self_jump, Label.self_label. unfold_monad.
  destruct (heap w !! self) as [[| |j|]|] eqn:Hj; try by left.
  simpl. destruct (j_link j) as [link|]; [|by left].
  assert (Hinc : forall w1, heap w1 = heap w ->
    heap_stepped self w
      (snd (let '(r, w2) := Jump._increment_counter self w1 in
            match r with Ok _ => (Ok tt, w2) | Raise e => (Raise e, w2) end))).
  { intros w1 H1. apply (heap_stepped_from self w w1); [done|].
    pose proof (jump_increment_heap self w1) as Hs.
    by destruct (Jump._increment_counter self w1) as [[?|?] ?]. }
  destruct (Z.eqb (j_counter j) 0); [|by apply Hinc].
  destruct (heap w !! link) as [[|l| |]|]; try by left.
  by apply Hinc.
Qed.

Lemma execute_heap (self : addr) (w : world) :
  heap_stepped self w (snd (execute self w)).
Proof.
  unfold execute, run_if_enabled, main. unfold_monad.
  destruct (enabled w); [|by left].
  destruct (heap w !! self) as [[p|l|j|s]|] eqn:Ho; simpl; try by left.
  - pose proof (point_main_heap self w) as Hs.
    by destruct (Point.main self w) as [[?|?] ?].
  - pose proof (jump_main_heap self w) as Hs.
    by destruct (Jump.main self w) as [[?|?] ?].
  - unfold Setting.main. unfold_monad. rewrite Ho. by left.
Qed.
End Frame.

Section Construction.
Context `{E : Externals}.

Lemma alloc_lookup (o : obj) (w : world) :
  heap (snd (alloc o w)) !! length (heap w) = Some o.
Proof. simpl. by rewrite list_lookup_middle. Qed.

(** A constructed Point holds the validated frequency, and its counter
    is the validated skip flag as a number. *)
Lemma point_new_fields (args : list pyval) (kwargs : gmap string pyval)
    (w w' : world) (a : addr) :
  Point.new args kwargs w = (Ok a, w') ->
  exists p fv sv sk,
    heap w' !! a = Some (OPoint p) /\
    validate_nonzero_int fv = Ok (p_frequency p) /\
    validate_boolean sv = Ok sk /\ p_counter p = Z.b2z sk /\
    p_commands p = [].
Proof.
  unfold Point.new, Point.__init__. unfold_monad.
  destruct (bind_args Point.params args kwargs) as [bound|]; [|done].
  destruct bound as [|[? x] [|[? y] [|[? fv] [|[? sv] [|[? av] [|]]]]]]; try done.
  destruct (py_float x); [|done]. destruct (py_float y); [|done].
  destruct (validate_nonzero_int fv) as [f|] eqn:Hf; [|done].
  destruct (validate_boolean sv) as [sk|] eqn:Hs; [|done].
  destruct (validate_boolean av); [|done].
  intros [= <- <-]. eexists _, fv, sv, sk.
  split; [apply alloc_lookup|]. done.
Qed.

Lemma jump_new_fields (args : list pyval) (kwargs : gmap string pyval)
    (w w' : world) (a : addr) :
  Jump.new args kwargs w = (Ok a, w') ->
  exists j fv sv sk,
    heap w' !! a = Some (OJump j) /\
    validate_nonzero_int fv = Ok (j_frequency j) /\
    validate_boolean sv = Ok sk /\ j_counter j = Z.b2z sk /\
    j_link j = None.
Proof.
  unfold Jump.new, Jump.__init__. unfold_monad.
  destruct (bind_args Jump.params args kwargs) as [bound|]; [|done].
  destruct bound as [|[? x] [|[? fv] [|[? sv] [|]]]]; try done.
  destruct (validate_nonzero_int fv) as [f|] eqn:Hf; [|done].
  destruct (validate_boolean sv) as [sk|] eqn:Hs; [|done].
  intros [= <- <-]. eexists _, fv, sv, sk.
  split; [apply alloc_lookup|]. done.
Qed.
End Construction.

Section CounterInvariant.
Context `{E : Externals} `{!ExternalsOk E}.

Lemma advanced_in_range (o o' : obj) :
  counter_bounded o -> advanced o o' ->
  counter_in_range o' /\ counter_bounded o' /\
  exists f c, periodic o = Some (f, c) /\ periodic o' = Some (f, (c + 1) mod f).
Proof.
  unfold counter_bounded, counter_in_range, advanced.
  destruct o as [p| |j|]; simpl; try done.
  - intros [Hf Hc] [_ ->]. simpl.
    pose proof (Z.mod_pos_bound (p_counter p + 1) (p_frequency p)).
    repeat split; try lia. by eexists _, _.
  - intros [Hf Hc] [_ ->]. simpl.
    pose proof (Z.mod_pos_bound (j_counter j + 1) (j_frequency j)).
    repeat split; try lia. by eexists _, _.
Qed.

Lemma advanced_keeps_range (o o' : obj) :
  counter_in_range o -> advanced o o' -> counter_in_range o'.
Proof.
  unfold counter_in_range, advanced.
  destruct o as [p| |j|]; simpl; try done.
  - intros Hc [_ ->]. simpl.
    pose proof (Z.mod_pos_bound (p_counter p + 1) (p_frequency p)). lia.
  - intros Hc [_ ->]. simpl.
    pose proof (Z.mod_pos_bound (j_counter j + 1) (j_frequency j)). lia.
Qed.

Lemma step_keeps_counter (self a : addr) (b : bool) (o : obj) (w : world) :
  heap w !! a = Some o ->
  exists o', heap (step_world self b w) !! a = Some o' /\
             (o' = o \/ advanced o o').
Proof.
  intros Ho. unfold step_world.
  destruct (execute_heap self (set_enabled b w)) as [Hh | (o1 & o2 & H1 & Hadv & Hh)].
  - exists o. rewrite Hh. by split; [|left].
  - simpl in H1. rewrite Hh. simpl. destruct (decide (self = a)) as [->|Hne].
    + exists o2. rewrite list_lookup_insert_eq by (by eapply lookup_lt_Some).
      split; [done|]. right. congruence.
    + exists o. rewrite list_lookup_insert_ne by done. by split; [|left].
Qed.

Lemma reaches_keeps_counter (a : addr) (o : obj) (w w' : world) :
  reaches w w' -> heap w !! a = Some o -> counter_bounded o ->
  exists o', heap w' !! a = Some o' /\ counter_bounded o' /\
             (counter_in_range o -> counter_in_range o').
Proof.
  intros Hr. revert o. induction Hr as [w|w self b w' Hr IH]; intros o Ho Hb.
  - by exists o.
  - destruct (step_keeps_counter self a b o w Ho) as (o1 & Ho1 & [->|Hadv]).
    + by apply IH.
    + destruct (advanced_in_range o o1 Hb Hadv) as (Hin & Hb1 & _).
      destruct (IH o1 Ho1 Hb1) as (o' & Ho' & Hb' & Hkeep).
      exists o'. split; [done|]. split; [done|]. intros _. by apply Hkeep.
Qed.
End CounterInvariant.

Lemma sample_externals_ok : ExternalsOk Sample.externals.
Proof.
  split; [|reflexivity].
  intros v n. simpl. unfold Sample.validate_nonzero_int.
  destruct (Sample.py_int v) as [m|]; [|done]. simpl.
  destruct (Z.leb_spec 1 m); [|done]. by intros [= <-].
Qed.

#[global] Existing Instance sample_externals_ok.

(** ** A constructed Waypoint fires every N-th time *)

Section WaypointFiring.
Context `{E : Externals}.

(** C4.  A Waypoint constructed with frequency = N, at least 1, and
    skip = false: the arguments bind, the frequency argument validates
    to N and the skip argument to false, and [Point.__init__] returns.
    The new Waypoint has frequency N, counter 0 and no commands.
    Let commands be attached to it, in their order in the file, and let
    it be executed again and again, the book holding [move] (and
    [adjust] under a set flag).  The effects of a firing are the move,
    the adjust if flagged, and every attached command in order.  After
    k enabled executions, and any number of disabled ones, the counter
    is k mod N; the next enabled execution, number k + 1, returns; when
    k mod N = 0, that is on the enabled executions 1, N + 1, 2N + 1,
    ..., it fires, and on every other execution there is no effect; in
    both cases the only change to the program is the counter, advanced
    by one modulo N. *)
Theorem waypoint_fires_every_nth (args : list pyval) (kwargs : gmap string pyval)
    (kx ky kf ks ka : string) (x y f s a : pyval) (N : Z)
    (w0 w1 w : world) (self : addr) (cmds : list command) (evs : list event)
    (flags : list bool) :
  bind_args Point.params args kwargs =
    Ok [(kx, x); (ky, y); (kf, f); (ks, s); (ka, a)] ->
  validate_nonzero_int f = Ok N -> 1 <= N ->
  validate_boolean s = Ok false ->
  Point.new args kwargs w0 = (Ok self, w1) ->
  exists p,
    heap w1 !! self = Some (OPoint p) /\
    p_frequency p = N /\ p_counter p = 0 /\ p_commands p = [] /\
    let p' := p_set_commands cmds p in
    (heap w !! self = Some (OPoint p') ->
     fire_events p' = Some evs ->
     let k := Z.of_nat (enabled_count flags) in
     let wk := set_enabled true (executions self flags w) in
     let pk := p_set_counter (k mod N) p' in
     (exists mv, book_command "move" p' = Some mv /\
        (p_adjust p = false /\ evs = Execute mv :: map Execute cmds \/
         p_adjust p = true /\ exists adj, book_command "adjust" p' = Some adj /\
           evs = Execute mv :: Execute adj :: map Execute cmds)) /\
     heap wk !! self = Some (OPoint pk) /\
     execute self wk =
       (Ok (Some tt),
        point_stepped self pk (if Z.eqb (k mod N) 0 then evs else []) wk) /\
     heap (snd (execute self wk)) !! self =
       Some (OPoint (p_set_counter ((k + 1) mod N) p'))).
Proof.
  intros Hb Hf HN Hs. unfold Point.new, Point.__init__. unfold_monad.
  rewrite Hb. destruct (py_float x) as [fx|]; [|done].
  destruct (py_float y) as [fy|]; [|done]. rewrite Hf, Hs.
  destruct (validate_boolean a) as [adj|]; [|done]. intros [= <- <-].
  eexists. split; [simpl; by apply list_lookup_middle|].
  split; [done|]. split; [done|]. split; [done|].
  intros Hp Hev. split.
  - revert Hev. unfold fire_events.
    destruct (book_command "move" _) as [mv|]; [|done].
    simpl. destruct adj.
    + destruct (book_command "adjust" _) as [aj|]; [|done].
      intros [= <-]. exists mv. split; [done|]. right. split; [done|]. by exists aj.
    + intros [= <-]. exists mv. split; [done|]. by left.
  - by apply (point_fires_every_nth _ _ evs w flags Hp).
Qed.
End WaypointFiring.

Lemma waypoint_fires_every_nth_witness :
  let w0 := Routine.__init__ true in
  let args := [VStr "100"; VStr "200"] in
  let kwargs : gmap string pyval := {[ "frequency" := VStr "3" ]} in
  let w1 := snd (Point.new args kwargs w0) in
  let w := Sample.linked [["*"; "100"; "200"; "frequency=3"]; ["move"; "7"; "8"]] in
  let wk := set_enabled true (executions 0%nat [true; false; true; true] w) in
  exists p mv c,
    heap w1 !! 0%nat = Some (OPoint p) /\
    heap w !! 0%nat = Some (OPoint (p_set_commands [c] p)) /\
    execute 0%nat wk =
      (Ok (Some tt),
       point_stepped 0%nat (p_set_counter (3 mod 3) (p_set_commands [c] p))
         [Execute mv; Execute c] wk).
Proof.
  intros w0 args kwargs w1 w wk.
  assert (H : exists p1 mv c,
            heap w1 !! 0%nat = Some (OPoint p1) /\
            heap w !! 0%nat = Some (OPoint (p_set_commands [c] p1)) /\
            fire_events (p_set_commands [c] p1) = Some [Execute mv; Execute c]).
  { do 3 eexists. split; [vm_compute; reflexivity|].
    split; vm_compute; reflexivity. }
  destruct H as (p1 & mv & c & Hp1 & Hw & Hev). exists p1, mv, c.
  split; [exact Hp1|]. split; [exact Hw|].
  destruct (waypoint_fires_every_nth args kwargs "x" "y" "frequency" "skip" "adjust"
              (VStr "100") (VStr "200") (VStr "3") (VStr "False") (VStr "False") 3
              w0 w1 w 0%nat [c] [Execute mv; Execute c] [true; false; true; true])
    as (p & Hp & _ & _ & _ & Hrun); try (vm_compute; reflexivity); [lia|].
  rewrite Hp1 in Hp. injection Hp as <-.
  destruct (Hrun Hw Hev) as (_ & _ & Hex & _). exact Hex.
Defined.

(** C2 fails as stated: the row [*, 0, 0, frequency=1, skip=True] is
    valid, and the Waypoint it constructs has counter 1 under
    frequency 1. *)
Lemma skipped_counter_reaches_frequency :
  let w := Sample.linked [["*"; "0"; "0"; "frequency=1"; "skip=True"]] in
  exists p, heap w !! 0%nat = Some (OPoint p) /\
    p_frequency p = 1 /\ p_counter p = 1 /\
    ~ (0 <= p_counter p < p_frequency p).
Proof.
  eexists. split; [vm_compute; reflexivity|].
  repeat split. simpl. lia.
Qed.

(** C2, as the code has it.  Under a validator of positive frequencies:
    a Waypoint or Jump is constructed with a positive frequency and the
    counter 0 or 1, so [0 <= counter < frequency] holds at construction
    unless the frequency is 1 and skip is true, where the counter equals
    the frequency; each advancement puts the counter at
    [(counter + 1) mod frequency], which is within [0, frequency); an
    execution of any component leaves a counter alone or advances it;
    and so, over any executions, [0 <= counter <= frequency] always
    holds, and [0 <= counter < frequency] keeps holding once it holds. *)
Theorem counter_within_frequency `{E : Externals} `{!ExternalsOk E} :
  (forall args kwargs w a w',
     Point.new args kwargs w = (Ok a, w') \/ Jump.new args kwargs w = (Ok a, w') ->
     exists o f c,
       heap w' !! a = Some o /\ periodic o = Some (f, c) /\
       1 <= f /\ (c = 0 \/ c = 1) /\ (c < f \/ f = 1 /\ c = 1)) /\
  (forall self p w,
     heap w !! self = Some (OPoint p) -> enabled w = true -> 1 <= p_frequency p ->
     heap (snd (Point._increment_counter self w)) !! self =
       Some (OPoint (p_set_counter ((p_counter p + 1) mod p_frequency p) p)) /\
     0 <= (p_counter p + 1) mod p_frequency p < p_frequency p) /\
  (forall self j w,
     heap w !! self = Some (OJump j) -> enabled w = true -> 1 <= j_frequency j ->
     heap (snd (Jump._increment_counter self w)) !! self =
       Some (OJump (j_set_counter ((j_counter j + 1) mod j_frequency j) j)) /\
     0 <= (j_counter j + 1) mod j_frequency j < j_frequency j) /\
  (forall self b a o w,
     heap w !! a = Some o -> counter_bounded o ->
     exists o', heap (step_world self b w) !! a = Some o' /\
       (o' = o \/ advanced o o' /\ counter_in_range o')) /\
  (forall a o w w',
     reaches w w' -> heap w !! a = Some o -> counter_bounded o ->
     exists o', heap w' !! a = Some o' /\ counter_bounded o' /\
       (counter_in_range o -> counter_in_range o')).
Proof.
  split; [|split; [|split; [|split]]].
  - intros args kwargs w a w' [Hn|Hn].
    + destruct (point_new_fields args kwargs w w' a Hn)
        as (p & fv & sv & sk & Hp & Hf & _ & Hc & _).
      apply validate_nonzero_int_pos in Hf.
      exists (OPoint p), (p_frequency p), (p_counter p).
      split; [done|]. split; [done|]. split; [done|].
      rewrite Hc. destruct sk; simpl; split; (auto || lia).
    + destruct (jump_new_fields args kwargs w w' a Hn)
        as (j & fv & sv & sk & Hj & Hf & _ & Hc & _).
      apply validate_nonzero_int_pos in Hf.
      exists (OJump j), (j_frequency j), (j_counter j).
      split; [done|]. split; [done|]. split; [done|].
      rewrite Hc. destruct sk; simpl; split; (auto || lia).
  - intros self p w Hp He Hf.
    rewrite (point_increment self p w) by (done || lia). simpl.
    rewrite list_lookup_insert_eq by (by eapply lookup_lt_Some).
    split; [done|]. apply Z.mod_pos_bound. lia.
  - intros self j w Hj He Hf.
    rewrite (jump_increment self j w) by (done || lia). simpl.
    rewrite list_lookup_insert_eq by (by eapply lookup_lt_Some).
    split; [done|]. apply Z.mod_pos_bound. lia.
  - intros self b a o w Ho Hb.
    destruct (step_keeps_counter self a b o w Ho) as (o' & Ho' & [->|Hadv]).
    + exists o. by split; [|left].
    + exists o'. split; [done|]. right. split; [done|].
      by destruct (advanced_in_range o o' Hb Hadv).
  - intros a o w w'. apply reaches_keeps_counter.
Qed.

Lemma counter_within_frequency_witness :
  exists o f c,
    heap (snd (Point.new [VStr "0"; VStr "0"; VStr "3"; VStr "True"] ∅
                 (Routine.__init__ true))) !! 0%nat = Some o /\
    periodic o = Some (f, c) /\
    1 <= f /\ (c = 0 \/ c = 1) /\ (c < f \/ f = 1 /\ c = 1).
Proof.
  destruct (@counter_within_frequency Sample.externals sample_externals_ok)
    as (Hnew & _).
  eapply (Hnew [VStr "0"; VStr "0"; VStr "3"; VStr "True"] ∅ (Routine.__init__ true)).
  left. vm_compute. reflexivity.
Defined.

(** ** Loading *)

Section Load.
Context `{E : Externals}.

(** C1, on the code.  [load] called without a file path, [file] being
    [None], evaluates [basename(file)] for its first message before it
    looks at the path, and that raises a [TypeError]: the call does
    not return [False], whether or not a path is cached.  Called with
    the empty path and no cached path, [load] does return [False]
    after its messages, and the program state is what it was. *)
Theorem load_without_path (w : world) :
  Routine.load VNone w = (Raise TypeError, set_out (out w ++ [PrintSeparator]) w) /\
  (path w = EmptyString ->
   exists w', Routine.load (VStr EmptyString) w = (Ok false, w') /\
              same_state w w' /\
              out w' = out w ++
                [PrintSeparator;
                 Print ("[~] Loading routine '" +:+ path_basename EmptyString +:+ "':");
                 Print "[!] File path not provided, no routine was previously loaded either."]).
Proof.
  split; [done|]. intros Hp.
  unfold Routine.load, Routine.basename. unfold_monad. simpl. rewrite Hp. simpl.
  eexists. split; [done|]. split; [done|]. simpl.
  by rewrite <- !app_assoc.
Qed.
End Load.

(** ** Compiling *)

Section Eval.
Context `{E : Externals}.

Lemma point_new_constructs args kwargs w :
  constructs (fun o => exists p, o = OPoint p) w (Point.new args kwargs w).
Proof.
  unfold Point.new, Point.__init__. unfold_monad.
  destruct (bind_args Point.params args kwargs) as [bound|]; [|done].
  destruct bound as [|[? x] [|[? y] [|[? fv] [|[? sv] [|[? av] [|]]]]]]; try done.
  destruct (py_float x); [|done]. destruct (py_float y); [|done].
  destruct (validate_nonzero_int fv); [|done].
  destruct (validate_boolean sv); [|done].
  destruct (validate_boolean av); [|done].
  simpl. eexists. split; [done|]. split; [done|]. by eexists.
Qed.

Lemma jump_new_constructs args kwargs w :
  constructs (fun o => exists j, o = OJump j) w (Jump.new args kwargs w).
Proof.
  unfold Jump.new, Jump.__init__. unfold_monad.
  destruct (bind_args Jump.params args kwargs) as [bound|]; [|done].
  destruct bound as [|[? x] [|[? fv] [|[? sv] [|]]]]; try done.
  destruct (validate_nonzero_int fv); [|done].
  destruct (validate_boolean sv); [|done].
  simpl. eexists. split; [done|]. split; [done|]. by eexists.
Qed.

Lemma setting_new_constructs args kwargs w :
  constructs (fun o => exists s, o = OSetting s) w (Setting.new args kwargs w).
Proof.
  unfold Setting.new, Setting.__init__. unfold_monad.
  destruct (bind_args Setting.params args kwargs) as [bound|]; [|done].
  destruct bound as [|[? k] [|[? v] [|]]]; try done.
  destruct (SETTING_VALIDATORS !! _) as [validator|]; [|done].
  destruct (validator v); [|done].
  simpl. eexists. split; [done|]. split; [done|]. by eexists.
Qed.

Lemma label_new_constructs args kwargs w :
  constructs (fun o => exists l, o = OLabel l /\ labels w !! l_label l = None /\
                                 l_index l = None /\ l_links l = ∅)
    w (Label.new args kwargs w).
Proof.
  unfold Label.new, Label.__init__. unfold_monad.
  destruct (bind_args Label.params args kwargs) as [bound|]; [|done].
  destruct bound as [|[? v] [|]]; try done.
  destruct (labels w !! Component.py_str v) eqn:Hl; [done|].
  simpl. eexists. split; [done|]. split; [done|]. by eexists.
Qed.

(** Constructing a Label under a registered name raises [ValueError]
    and leaves the world alone. *)
Lemma label_new_duplicate args kwargs k v first w :
  bind_args Label.params args kwargs = Ok [(k, v)] ->
  labels w !! Component.py_str v = Some first ->
  Label.new args kwargs w = (Raise ValueError, w).
Proof.
  intros Hb Hl. unfold Label.new, Label.__init__. unfold_monad.
  rewrite Hb. by rewrite Hl.
Qed.
End Eval.

Section EvalEffect.
Context `{E : Externals}.

Local Ltac eval_plain Hc :=
  let a := fresh "a" in let e := fresh "e" in let w1 := fresh "w1" in
  let o := fresh "o" in
  match type of Hc with
  | constructs _ ?w (?m ?w) =>
      destruct (m w) as [[a|e] w1]; simpl in Hc;
      [ destruct Hc as (o & -> & -> & [? ->]); simpl;
        rewrite list_lookup_middle by done; simpl;
        repeat split; eexists; (split; [done|]); by split
      | subst w1; by destruct e ]
  end.

Lemma eval_effect_holds (row : list string) (line : Z) (w : world) :
  eval_effect w (Routine._eval row line w).
Proof.
  unfold eval_effect, Routine._eval.
  destruct row as [|r0 rest]; [done|].
  destruct (separate_args rest) as [args kwargs].
  destruct (Routine.lookup_class (lower r0)) as [c|]; [|done].
  unfold try_except, Routine.construct. unfold_monad.
  destruct c as [| | | |cls].
  - pose proof (point_new_constructs args kwargs w) as Hc. eval_plain Hc.
  - pose proof (label_new_constructs args kwargs w) as Hc.
    destruct (Label.new args kwargs w) as [[a|e] w1]; simpl in Hc;
      [|subst w1; by destruct e].
    destruct Hc as (o & -> & -> & (l & -> & Hfree & Hi & _)). simpl.
    rewrite list_lookup_middle by done. simpl.
    unfold Label.set_index, Label.self_label. unfold_monad. simpl.
    rewrite list_lookup_middle by done. simpl.
    repeat split. eexists. split; [done|].
    split; [by rewrite insert_app_r_alt, Nat.sub_diag by done|]. done.
  - pose proof (jump_new_constructs args kwargs w) as Hc. eval_plain Hc.
  - pose proof (setting_new_constructs args kwargs w) as Hc. eval_plain Hc.
  - unfold Command.new. unfold_monad.
    destruct (Command.build cls args kwargs) as [c|e]; [done|by destruct e].
Qed.
End EvalEffect.

Section CompileRows.
Context `{E : Externals}.

Lemma compile_keeps_refl (w w' : world) :
  heap w' = heap w -> sequence w' = sequence w -> labels w' = labels w ->
  compile_keeps w w'.
Proof.
  intros Hh Hs Hl. split; [by rewrite Hl|].
  unfold labels_registered. by rewrite Hh, Hs, Hl.
Qed.

Lemma compile_keeps_trans (w1 w2 w3 : world) :
  compile_keeps w1 w2 -> compile_keeps w2 w3 -> compile_keeps w1 w3.
Proof. intros [H1 H2] [H3 H4]. split; eauto. Qed.

Lemma append_command_keeps (p : addr) (c : command) (w : world) :
  compile_keeps w (snd (Routine.append_command p c w)).
Proof.
  unfold Routine.append_command, Point.self_point. unfold_monad.
  destruct (heap w !! p) as [[pt| | |]|] eqn:Hp; simpl;
    try by apply compile_keeps_refl.
  split; [done|]. intros (Hnd & Hlt & Hreg & Htab).
  split; [done|]. split; [|split]; simpl.
  - intros a Ha. rewrite length_insert. by apply Hlt.
  - intros a l Ha Hl. apply Hreg; [done|].
    destruct (decide (p = a)) as [->|Hne].
    + rewrite list_lookup_insert_eq in Hl by (by eapply lookup_lt_Some). done.
    + by rewrite list_lookup_insert_ne in Hl.
  - intros n a Hn. destruct (Htab n a Hn) as (Ha & l & Hl & Hname).
    split; [done|]. exists l. split; [|done].
    rewrite list_lookup_insert_ne; [done|]. intros ->. congruence.
Qed.

(** A new component appended to the sequence. *)
Lemma append_new_keeps (o : obj) (w w1 : world) (evs : list event) :
  sequence w1 = sequence w -> heap w1 = heap w ++ [o] ->
  match o with
  | OLabel l =>
      labels w !! l_label l = None /\
      labels w1 = <[l_label l := length (heap w)]> (labels w)
  | _ => labels w1 = labels w
  end ->
  compile_keeps w
    (set_out evs (set_sequence (sequence w1 ++ [length (heap w)]) w1)).
Proof.
  intros Hs Hh Hl.
  assert (Hmono : forall n a, labels w !! n = Some a -> labels w1 !! n = Some a).
  { intros n a Hn. destruct o as [|l| |]; try by rewrite Hl.
    destruct Hl as [Hfree ->]. rewrite lookup_insert_ne; [done|]. congruence. }
  split; [done|]. intros (Hnd & Hlt & Hreg & Htab).
  split; [|split; [|split]]; simpl.
  - rewrite Hs. apply NoDup_app. split; [done|]. split; [|apply NoDup_singleton].
    intros a Ha ->%list_elem_of_singleton. apply Hlt in Ha. lia.
  - intros a. rewrite Hs, Hh, length_app. simpl.
    intros [Ha| ->%list_elem_of_singleton]%elem_of_app; [apply Hlt in Ha|]; lia.
  - intros a l. rewrite Hs, Hh.
    intros [Ha| ->%list_elem_of_singleton]%elem_of_app Hlab.
    + rewrite lookup_app_l in Hlab by (by apply Hlt). by apply Hmono, Hreg.
    + rewrite list_lookup_middle in Hlab by done. injection Hlab as ->.
      destruct Hl as [_ ->]. by rewrite lookup_insert_eq.
  - intros n a. rewrite Hs, Hh.
    assert (Hold : labels w !! n = Some a ->
              a ∈ sequence w ++ [length (heap w)] /\
              exists l, (heap w ++ [o]) !! a = Some (OLabel l) /\ l_label l = n).
    { intros Hn. destruct (Htab n a Hn) as (Ha & l & Hlab & Hname).
      split; [apply elem_of_app; by left|]. exists l. split; [|done].
      rewrite lookup_app_l; [done|]. by apply Hlt. }
    destruct o as [|l| |]; try (rewrite Hl; exact Hold).
    destruct Hl as [_ ->].
    intros [[<- <-]|[_ Hn]]%lookup_insert_Some; [|by apply Hold].
    split; [apply elem_of_app; right; apply list_elem_of_singleton; done|].
    exists l. split; [|done]. by rewrite list_lookup_middle.
Qed.

Lemma compile_rows_keeps (rows : list (list string)) (curr_point : option addr)
    (line : Z) (w : world) :
  compile_keeps w (snd (Routine.compile_rows rows curr_point line w)).
Proof.
  revert curr_point line w.
  induction rows as [|row rows IH]; intros cp line w; simpl.
  { by apply compile_keeps_refl. }
  unfold_monad. pose proof (eval_effect_holds row line w) as He.
  unfold eval_effect in He.
  destruct (Routine._eval row line w) as [[[[a|c]|]|e] w1];
    destruct He as (Hs & _ & _ & _ & He).
  - destruct He as (o & -> & Hh & Hl).
    unfold Routine.append, Routine.update. unfold_monad. simpl.
    rewrite Hh, list_lookup_middle by done. simpl.
    eapply compile_keeps_trans; [|apply IH].
    apply (append_new_keeps o w w1); [done|done|].
    destruct o; try done. by destruct Hl as (? & ? & _).
  - destruct He as [Hh Hl].
    eapply compile_keeps_trans; [by apply (compile_keeps_refl w w1)|].
    destruct cp as [p|]; [|apply IH].
    pose proof (append_command_keeps p c w1) as Hk.
    destruct (Routine.append_command p c w1) as [[[]|e] w2]; simpl in Hk.
    + eapply compile_keeps_trans; [done|apply IH].
    + done.
  - destruct He as [Hh Hl].
    eapply compile_keeps_trans; [by apply (compile_keeps_refl w w1)|apply IH].
  - destruct He as [Hh Hl]. by apply compile_keeps_refl.
Qed.
End CompileRows.

Section DuplicateLabel.
Context `{E : Externals}.

Lemma eval_duplicate_label (row : list string) (line : Z) (name : string)
    (first : addr) (w : world) :
  label_name_of row = Some name -> labels w !! name = Some first ->
  Routine._eval row line w =
    (Ok None, set_out (out w ++ invalid_arguments line CLabel ValueError) w).
Proof.
  unfold label_name_of, Routine._eval. intros Hrow Hreg.
  destruct row as [|r0 rest]; [done|].
  destruct (String.eqb_spec (lower r0) "@") as [->|]; [|done].
  destruct (separate_args rest) as [args kwargs].
  destruct (bind_args Label.params args kwargs) as [[|[k v] [|]]|] eqn:Hb; try done.
  injection Hrow as <-.
  change (Routine.lookup_class "@") with (Some CLabel).
  unfold try_except, Routine.construct. unfold_monad.
  rewrite (label_new_duplicate args kwargs k v first w Hb Hreg). simpl.
  by rewrite <- app_assoc.
Qed.

(** C6.  A row that asks for a Label under a name the label table
    already holds: the constructor raises [ValueError] and changes
    nothing; [_eval] reports the line and returns nothing; [compile]
    goes on with the next row, the sequence, the heap and the label
    table being what they were.  Whatever rows follow, the table
    keeps the first Label under the name; and in a program whose
    Labels are registered, as a compile from an empty sequence and
    table keeps it, the first Label stays in the sequence and is the
    only Label of that name in it. *)
Theorem duplicate_label_is_skipped (row : list string) (rows : list (list string))
    (curr_point : option addr) (line : Z) (name : string) (first : addr)
    (w : world) :
  label_name_of row = Some name ->
  labels w !! name = Some first ->
  let w1 := set_out (out w ++ invalid_arguments line CLabel ValueError) w in
  (forall r0 rest, row = r0 :: rest ->
     Label.new (separate_args rest).1 (separate_args rest).2 w = (Raise ValueError, w)) /\
  Routine._eval row line w = (Ok None, w1) /\
  Routine.compile_rows (row :: rows) curr_point line w =
    Routine.compile_rows rows curr_point (line + 1) w1 /\
  labels (snd (Routine.compile_rows (row :: rows) curr_point line w)) !! name
    = Some first /\
  (labels_registered w ->
   let w' := snd (Routine.compile_rows (row :: rows) curr_point line w) in
   labels_registered w' /\
   first ∈ sequence w' /\
   (exists l, heap w' !! first = Some (OLabel l) /\ l_label l = name) /\
   (forall a l, a ∈ sequence w' -> heap w' !! a = Some (OLabel l) ->
                l_label l = name -> a = first)).
Proof.
  intros Hrow Hreg w1.
  pose proof (eval_duplicate_label row line name first w Hrow Hreg) as Hev.
  split; [|split; [done|split]].
  - intros r0 rest ->. unfold label_name_of in Hrow.
    destruct (String.eqb (lower r0) "@"); [|done].
    destruct (separate_args rest) as [args kwargs]. simpl.
    destruct (bind_args Label.params args kwargs) as [[|[k v] [|]]|] eqn:Hb; try done.
    injection Hrow as <-. by eapply label_new_duplicate.
  - simpl. unfold_monad. by rewrite Hev.
  - destruct (compile_rows_keeps (row :: rows) curr_point line w) as [Hmono Hkeep].
    split; [by apply Hmono|]. intros Hw w'.
    pose proof (Hkeep Hw) as Hw'. split; [done|].
    destruct Hw' as (_ & _ & Hreg' & Htab').
    pose proof (Hmono _ _ Hreg) as Hfirst.
    destruct (Htab' name first Hfirst) as [Hin Hl].
    split; [done|]. split; [done|].
    intros a l Ha Hlab Hname. specialize (Hreg' a l Ha Hlab).
    rewrite Hname in Hreg'. congruence.
Qed.
End DuplicateLabel.

Lemma labels_registered_empty `{E : Externals} (w : world) :
  sequence w = [] -> labels w = ∅ -> labels_registered w.
Proof.
  intros Hs Hl. unfold labels_registered. rewrite Hs, Hl.
  split; [apply NoDup_nil_2|].
  split; [intros a Ha; by apply elem_of_nil in Ha|].
  split; [intros a l Ha; by apply elem_of_nil in Ha|].
  intros n a Hn. by rewrite lookup_empty in Hn.
Qed.

Lemma duplicate_label_is_skipped_witness :
  let w := snd (Routine.compile_rows [["@"; "start"]; ["*"; "100"; "200"]] None 1
                  (Routine.__init__ true)) in
  let w' := snd (Routine.compile_rows [["@"; "start"]; [">"; "start"]] (Some 1%nat) 3 w) in
  labels w' !! "start" = Some 0%nat /\ labels_registered w'.
Proof.
  intros w w'.
  assert (Hinit : labels_registered w).
  { pose proof (compile_rows_keeps [["@"; "start"]; ["*"; "100"; "200"]] None 1
                  (Routine.__init__ true)) as [_ Hk].
    apply Hk. apply labels_registered_empty; reflexivity. }
  destruct (duplicate_label_is_skipped ["@"; "start"] [[">"; "start"]] (Some 1%nat) 3
              "start" 0%nat w) as (_ & _ & _ & Hl & Hr).
  - reflexivity.
  - vm_compute. reflexivity.
  - split; [exact Hl|by apply Hr].
Defined.

(** ** Rows that compile *)

Section Rows.
Context `{E : Externals}.

Lemma point_new_ok args kwargs kx ky kf ks ka x y f s a fx fy n sk adj (w : world) :
  bind_args Point.params args kwargs = Ok [(kx, x); (ky, y); (kf, f); (ks, s); (ka, a)] ->
  py_float x = Ok fx -> py_float y = Ok fy ->
  validate_nonzero_int f = Ok n ->
  validate_boolean s = Ok sk -> validate_boolean a = Ok adj ->
  Point.new args kwargs w =
    (Ok (length (heap w)),
     set_heap (heap w ++
       [OPoint {| p_args := [(kx, x); (ky, y); (kf, f); (ks, s); (ka, a)];
                  p_x := fx; p_y := fy; p_frequency := n;
                  p_counter := Z.b2z sk; p_adjust := adj; p_commands := [] |}]) w).
Proof.
  intros Hb Hx Hy Hf Hs Ha. unfold Point.new, Point.__init__. unfold_monad.
  rewrite Hb. by rewrite Hx, Hy, Hf, Hs, Ha.
Qed.

Lemma label_new_ok args kwargs k v (w : world) :
  bind_args Label.params args kwargs = Ok [(k, v)] ->
  labels w !! Component.py_str v = None ->
  Label.new args kwargs w =
    (Ok (length (heap w)),
     set_heap (heap w ++
       [OLabel {| l_args := [(k, v)]; l_label := Component.py_str v;
                  l_links := ∅; l_index := None |}]) w).
Proof.
  intros Hb Hl. unfold Label.new, Label.__init__. unfold_monad.
  rewrite Hb. by rewrite Hl.
Qed.

Lemma jump_new_ok args kwargs kl kf ks v f s n sk (w : world) :
  bind_args Jump.params args kwargs = Ok [(kl, v); (kf, f); (ks, s)] ->
  validate_nonzero_int f = Ok n -> validate_boolean s = Ok sk ->
  Jump.new args kwargs w =
    (Ok (length (heap w)),
     set_heap (heap w ++
       [OJump {| j_args := [(kl, v); (kf, f); (ks, s)];
                 j_label := Component.py_str v; j_frequency := n;
                 j_counter := Z.b2z sk; j_link := None |}]) w).
Proof.
  intros Hb Hf Hs. unfold Jump.new, Jump.__init__. unfold_monad.
  rewrite Hb. by rewrite Hf, Hs.
Qed.

Lemma setting_new_ok args kwargs kk kv key value validator v (w : world) :
  bind_args Setting.params args kwargs = Ok [(kk, key); (kv, value)] ->
  SETTING_VALIDATORS !! Component.py_str key = Some validator ->
  validator value = Ok v ->
  Setting.new args kwargs w =
    (Ok (length (heap w)),
     set_heap (heap w ++
       [OSetting {| s_args := [(kk, key); (kv, value)];
                    s_key := Component.py_str key; s_value := v |}]) w).
Proof.
  intros Hb Hk Hv. unfold Setting.new, Setting.__init__. unfold_monad.
  rewrite Hb. by rewrite Hk, Hv.
Qed.

(** [_eval] on a row whose class constructs a component that is not a
    Label. *)
Lemma eval_top (r0 : string) (rest : list string) (line : Z) (c : class)
    (o : obj) (w : world) :
  Routine.lookup_class (lower r0) = Some c ->
  Routine.construct c (separate_args rest).1 (separate_args rest).2 w =
    (Ok (Top (length (heap w))), set_heap (heap w ++ [o]) w) ->
  (forall l, o <> OLabel l) ->
  Routine._eval (r0 :: rest) line w =
    (Ok (Some (Top (length (heap w)))), set_heap (heap w ++ [o]) w).
Proof.
  intros Hc Hn Ho. unfold Routine._eval.
  destruct (separate_args rest) as [args kwargs]. rewrite Hc.
  unfold try_except. unfold_monad. simpl in Hn. rewrite Hn. simpl.
  rewrite list_lookup_middle by done. simpl.
  destruct o as [|l| |]; try done. by destruct (Ho l).
Qed.

(** [_eval] on a row that constructs a Label: the Label gets the length
    of the sequence as its index and is registered under its name. *)
Lemma eval_label (r0 : string) (rest : list string) (line : Z) (l : label)
    (w : world) :
  Routine.lookup_class (lower r0) = Some CLabel ->
  Label.new (separate_args rest).1 (separate_args rest).2 w =
    (Ok (length (heap w)), set_heap (heap w ++ [OLabel l]) w) ->
  Routine._eval (r0 :: rest) line w =
    (Ok (Some (Top (length (heap w)))),
     set_labels (<[l_label l := length (heap w)]> (labels w))
       (set_heap (heap w ++ [OLabel (l_set_index (Some (Routine.__len__ w)) l)]) w)).
Proof.
  intros Hc Hn. unfold Routine._eval.
  destruct (separate_args rest) as [args kwargs]. rewrite Hc.
  unfold try_except, Routine.construct. unfold_monad. simpl in Hn. rewrite Hn. simpl.
  rewrite list_lookup_middle by done. simpl.
  unfold Label.set_index, Label.self_label. unfold_monad. simpl.
  rewrite list_lookup_middle by done. simpl.
  by rewrite insert_app_r_alt, Nat.sub_diag by done.
Qed.

(** [compile] appends the component [_eval] returns. *)
Lemma compile_rows_top (row : list string) (rows : list (list string))
    (curr_point : option addr) (line : Z) (a : addr) (o : obj) (w w1 : world) :
  Routine._eval row line w = (Ok (Some (Top a)), w1) ->
  heap w1 !! a = Some o ->
  Routine.compile_rows (row :: rows) curr_point line w =
    Routine.compile_rows rows
      (match o with OPoint _ => Some a | _ => curr_point end) (line + 1)
      (set_out (out w1 ++ [SetRoutine (sequence w1 ++ [a])])
         (set_sequence (sequence w1 ++ [a]) w1)).
Proof.
  intros He Ho. simpl. unfold_monad. rewrite He.
  unfold Routine.append, Routine.update. unfold_monad. simpl. by rewrite Ho.
Qed.
End Rows.

Section RowKinds.
Context `{E : Externals}.

Lemma eval_point_row r0 rest line kx ky kf ks ka x y f s a fx fy n sk adj (w : world) :
  Routine.lookup_class (lower r0) = Some CPoint ->
  bind_args Point.params (separate_args rest).1 (separate_args rest).2 =
    Ok [(kx, x); (ky, y); (kf, f); (ks, s); (ka, a)] ->
  py_float x = Ok fx -> py_float y = Ok fy ->
  validate_nonzero_int f = Ok n ->
  validate_boolean s = Ok sk -> validate_boolean a = Ok adj ->
  Routine._eval (r0 :: rest) line w =
    (Ok (Some (Top (length (heap w)))),
     set_heap (heap w ++
       [OPoint {| p_args := [(kx, x); (ky, y); (kf, f); (ks, s); (ka, a)];
                  p_x := fx; p_y := fy; p_frequency := n;
                  p_counter := Z.b2z sk; p_adjust := adj; p_commands := [] |}]) w).
Proof.
  intros Hc Hb Hx Hy Hf Hs Ha. apply (eval_top r0 rest line CPoint); [done| |done].
  unfold Routine.construct. unfold_monad.
  by rewrite (point_new_ok _ _ kx ky kf ks ka x y f s a fx fy n sk adj w).
Qed.

Lemma eval_jump_row r0 rest line kl kf ks v f s n sk (w : world) :
  Routine.lookup_class (lower r0) = Some CJump ->
  bind_args Jump.params (separate_args rest).1 (separate_args rest).2 =
    Ok [(kl, v); (kf, f); (ks, s)] ->
  validate_nonzero_int f = Ok n -> validate_boolean s = Ok sk ->
  Routine._eval (r0 :: rest) line w =
    (Ok (Some (Top (length (heap w)))),
     set_heap (heap w ++
       [OJump {| j_args := [(kl, v); (kf, f); (ks, s)];
                 j_label := Component.py_str v; j_frequency := n;
                 j_counter := Z.b2z sk; j_link := None |}]) w).
Proof.
  intros Hc Hb Hf Hs. apply (eval_top r0 rest line CJump); [done| |done].
  unfold Routine.construct. unfold_monad.
  by rewrite (jump_new_ok _ _ kl kf ks v f s n sk w).
Qed.

Lemma eval_setting_row r0 rest line kk kv key value validator v (w : world) :
  Routine.lookup_class (lower r0) = Some CSetting ->
  bind_args Setting.params (separate_args rest).1 (separate_args rest).2 =
    Ok [(kk, key); (kv, value)] ->
  SETTING_VALIDATORS !! Component.py_str key = Some validator ->
  validator value = Ok v ->
  Routine._eval (r0 :: rest) line w =
    (Ok (Some (Top (length (heap w)))),
     set_heap (heap w ++
       [OSetting {| s_args := [(kk, key); (kv, value)];
                    s_key := Component.py_str key; s_value := v |}]) w).
Proof.
  intros Hc Hb Hk Hv. apply (eval_top r0 rest line CSetting); [done| |done].
  unfold Routine.construct. unfold_monad.
  by rewrite (setting_new_ok _ _ kk kv key value validator v w).
Qed.

Lemma eval_label_row r0 rest line k v (w : world) :
  Routine.lookup_class (lower r0) = Some CLabel ->
  bind_args Label.params (separate_args rest).1 (separate_args rest).2 = Ok [(k, v)] ->
  labels w !! Component.py_str v = None ->
  Routine._eval (r0 :: rest) line w =
    (Ok (Some (Top (length (heap w)))),
     set_labels (<[Component.py_str v := length (heap w)]> (labels w))
       (set_heap (heap w ++
          [OLabel {| l_args := [(k, v)]; l_label := Component.py_str v;
                     l_links := ∅; l_index := Some (Routine.__len__ w) |}]) w)).
Proof.
  intros Hc Hb Hl.
  by rewrite (eval_label r0 rest line _ w Hc (label_new_ok _ _ k v w Hb Hl)).
Qed.
End RowKinds.

(** ** Texts *)

#[local] Arguments append !s1 s2 : simpl nomatch.

Section Texts.

Lemma string_forall_app (P : ascii -> bool) (a b : string) :
  string_forall P (a +:+ b) = string_forall P a && string_forall P b.
Proof. induction a as [|c a IH]; simpl; [done|]. by rewrite IH, andb_assoc. Qed.

Lemma append_nil_r (s : string) : s +:+ EmptyString = s.
Proof. induction s as [|c s IH]; cbn; [done|]. by f_equal. Qed.

Lemma append_assoc (a b c : string) : (a +:+ b) +:+ c = a +:+ (b +:+ c).
Proof. induction a as [|x a IH]; cbn; [done|]. by f_equal. Qed.

Lemma list_ascii_app (a b : string) :
  list_ascii_of_string (a +:+ b) = list_ascii_of_string a ++ list_ascii_of_string b.
Proof. induction a as [|c a IH]; cbn; [done|]. by f_equal. Qed.

Lemma string_forall_lstrip (P : ascii -> bool) (s : string) :
  string_forall P s = true -> string_forall P (lstrip s) = true.
Proof.
  induction s as [|c s IH]; simpl; [done|].
  intros [Hc Hs]%andb_true_iff. destruct (is_space c); [by apply IH|].
  simpl. by rewrite Hc, Hs.
Qed.

Lemma string_forall_rstrip (P : ascii -> bool) (s : string) :
  string_forall P s = true -> string_forall P (rstrip s) = true.
Proof.
  induction s as [|c s IH]; simpl; [done|].
  intros [Hc Hs]%andb_true_iff. specialize (IH Hs).
  destruct (rstrip s) as [|d r].
  - destruct (is_space c); simpl; [done|]. by rewrite Hc.
  - simpl in *. by rewrite Hc, IH.
Qed.

Lemma plain_strip (s : string) : plain s = true -> plain (strip s) = true.
Proof.
  intros H. unfold plain, strip. by apply string_forall_rstrip, string_forall_lstrip.
Qed.

Lemma rstrip_idemp (s : string) : rstrip (rstrip s) = rstrip s.
Proof.
  induction s as [|c s IH]; simpl; [done|].
  destruct (rstrip s) as [|d r] eqn:Hr.
  - destruct (is_space c) eqn:Hc; simpl; [done|]. by rewrite Hc.
  - simpl in *. by rewrite IH.
Qed.

Lemma lstrip_head (c : ascii) (s : string) :
  is_space c = false -> lstrip (String c s) = String c s.
Proof. intros H. simpl. by rewrite H. Qed.

Lemma rstrip_head (c : ascii) (s : string) :
  is_space c = false -> rstrip (String c s) = String c (rstrip s).
Proof. intros H. simpl. destruct (rstrip s); [by rewrite H|done]. Qed.

Lemma lstrip_starts (s : string) :
  match lstrip s with
  | EmptyString => True
  | String c _ => is_space c = false
  end.
Proof.
  induction s as [|c s IH]; simpl; [done|].
  destruct (is_space c) eqn:Hc; [done|]. done.
Qed.

Lemma lstrip_rstrip (s : string) :
  lstrip (rstrip (lstrip s)) = rstrip (lstrip s).
Proof.
  pose proof (lstrip_starts s) as H. destruct (lstrip s) as [|c t]; [done|].
  rewrite rstrip_head by done. by apply lstrip_head.
Qed.

Lemma strip_idemp (s : string) : strip (strip s) = strip s.
Proof. unfold strip. by rewrite lstrip_rstrip, rstrip_idemp. Qed.

Lemma strip_fixed (s : string) : strip s = s -> lstrip s = s /\ rstrip s = s.
Proof.
  unfold strip. intros H. split.
  - rewrite <- H at 1. rewrite lstrip_rstrip. done.
  - rewrite <- H at 1. rewrite rstrip_idemp. done.
Qed.

Lemma value_ok_strip (s : string) : plain s = true -> value_ok (strip s) = true.
Proof.
  intros H. unfold value_ok. rewrite strip_idemp, String.eqb_refl. simpl.
  by apply plain_strip.
Qed.

Lemma value_ok_spec (s : string) :
  value_ok s = true -> strip s = s /\ plain s = true.
Proof.
  unfold value_ok. intros [H1 H2]%andb_true_iff. by apply String.eqb_eq in H1.
Qed.

(** The reading of [key=value] by [separate_args]. *)
Lemma rstrip_app (a b : string) :
  rstrip b <> EmptyString -> rstrip (a +:+ b) = a +:+ rstrip b.
Proof.
  intros Hb. induction a as [|c a IH]; simpl; [done|]. rewrite IH.
  destruct (a +:+ rstrip b) eqn:Ha; [|done].
  destruct a; simpl in Ha; [done|discriminate].
Qed.

Lemma strip_key_value (k v : string) :
  key_ok k = true -> strip v = v -> strip (k +:+ "=" +:+ v) = k +:+ "=" +:+ v.
Proof.
  unfold key_ok. destruct k as [|c k]; [done|].
  intros [[[_ Hk]%andb_true_iff _]%andb_true_iff _]%andb_true_iff Hv.
  apply value_ok_spec in Hk as [Hk _].
  apply strip_fixed in Hk as [Hl _]. apply strip_fixed in Hv as [_ Hv].
  assert (Hc : is_space c = false).
  { simpl in Hl. destruct (is_space c) eqn:Hc; [|done].
    exfalso. pose proof (f_equal String.length Hl) as Hlen. simpl in Hlen.
    assert (Hle : forall s, (String.length (lstrip s) <= String.length s)%nat).
    { clear. induction s as [|x s IH]; simpl; [lia|].
      destruct (is_space x); simpl; lia. }
    specialize (Hle k). lia. }
  unfold strip. change (String c k +:+ "=" +:+ v) with (String c (k +:+ "=" +:+ v)).
  rewrite lstrip_head by done.
  change (String c (k +:+ "=" +:+ v)) with (String c k +:+ String "=" v).
  rewrite rstrip_app; rewrite rstrip_head by done; [by rewrite Hv|done].
Qed.

Lemma split_at_key_value (k v : string) :
  string_forall (fun c => negb (Ascii.eqb c "=")) k = true ->
  split_at "=" (k +:+ "=" +:+ v) = Some (k, v).
Proof.
  induction k as [|c k IH]; simpl in *; [done|].
  intros [Hc Hk]%andb_true_iff. apply negb_true_iff in Hc. rewrite Hc.
  by rewrite IH.
Qed.

Lemma split_at_plain (s k v : string) :
  plain s = true -> split_at "=" s = Some (k, v) -> plain k = true /\ plain v = true.
Proof.
  unfold plain. revert k v. induction s as [|c s IH]; simpl; [done|].
  intros k v [Hc Hs]%andb_true_iff.
  destruct (Ascii.eqb c "="); [by intros [= <- <-]|].
  destruct (split_at "=" s) as [[k' v']|]; [|done].
  intros [= <- <-]. destruct (IH k' v' Hs eq_refl) as [Hk Hv].
  simpl. by rewrite Hc, Hk, Hv.
Qed.
End Texts.

(** ** The reader on saved text *)

Section Reader.

Lemma plain_cons (c : ascii) (s : string) :
  plain (String c s) = true ->
  is_newline c = false /\ Ascii.eqb c "," = false /\ plain s = true.
Proof.
  unfold plain. simpl. intros [Hc Hs]%andb_true_iff.
  apply negb_true_iff, orb_false_iff in Hc as [Hc Hn]. done.
Qed.

Lemma csv_in_field (s : string) (r : csv_reader_state) :
  csv_st r = InField -> plain s = true ->
  fold_left csv_step (list_ascii_of_string s) r =
    {| csv_st := InField; csv_field := csv_field r +:+ s;
       csv_fields := csv_fields r; csv_rows := csv_rows r |}.
Proof.
  revert r. induction s as [|c s IH]; intros r Hst Hs; simpl.
  - rewrite append_nil_r. destruct r; simpl in *; by subst.
  - apply plain_cons in Hs as (Hn & Hc & Hs).
    unfold csv_step at 2. rewrite Hst, Hn, Hc.
    rewrite IH by done. simpl. by rewrite append_assoc.
Qed.

Lemma csv_field_start (f : string) (r : csv_reader_state) :
  csv_at_start r -> field_ok f = true ->
  fold_left csv_step (list_ascii_of_string f) r =
    {| csv_st := InField; csv_field := f;
       csv_fields := csv_fields r; csv_rows := csv_rows r |}.
Proof.
  intros [Hst Hf] Hok. destruct f as [|c f]; [done|]. simpl in Hok.
  apply andb_true_iff in Hok as [[Hsp Hq]%andb_true_iff Hp].
  apply negb_true_iff in Hsp, Hq.
  apply plain_cons in Hp as (Hn & Hc & Hp). simpl.
  assert (Hstep : csv_step r c = csv_add_char c InField r).
  { assert (Hsf : csv_start_field c r = csv_add_char c InField r).
    { unfold csv_start_field. by rewrite Hn, Hq, Hsp, Hc. }
    unfold csv_step. destruct Hst as [->|[->| ->]]; try by rewrite ?Hn.
    apply orb_false_iff in Hn as [Hlf Hcr]. by rewrite Hlf, Hcr. }
  rewrite Hstep, csv_in_field by done. simpl. by rewrite Hf.
Qed.

Lemma csv_separator (r : csv_reader_state) :
  csv_st r = InField ->
  fold_left csv_step (list_ascii_of_string ", ") r =
    {| csv_st := StartField; csv_field := EmptyString;
       csv_fields := csv_fields r ++ [csv_field r]; csv_rows := csv_rows r |}.
Proof. intros Hst. simpl. unfold csv_step. by rewrite Hst. Qed.

Lemma csv_fields_finish (f : string) (fs : list string) (r : csv_reader_state) :
  csv_at_start r -> Forall (fun f => field_ok f = true) (f :: fs) ->
  csv_finish (fold_left csv_step (list_ascii_of_string (join ", " (f :: fs))) r) =
    csv_rows r ++ [csv_fields r ++ f :: fs].
Proof.
  revert f r. induction fs as [|g fs IH]; intros f r Hr Hok.
  - simpl. rewrite csv_field_start; [done|done|]. by inversion Hok.
  - change (join ", " (f :: g :: fs)) with (f +:+ ", " +:+ join ", " (g :: fs)).
    rewrite !list_ascii_app, !fold_left_app.
    inversion Hok as [|? ? Hf Hrest]; subst.
    rewrite (csv_field_start f r Hr Hf), csv_separator by done.
    rewrite IH; [|by split; [right; right|]|done]. simpl. by rewrite <- app_assoc.
Qed.

Lemma csv_reader_fields (f : string) (fs : list string) :
  Forall (fun f => field_ok f = true) (f :: fs) ->
  csv_reader (join ", " (f :: fs)) = [f :: fs].
Proof.
  intros Hok. unfold csv_reader. rewrite csv_fields_finish; [done| |done].
  split; [by left|done].
Qed.

(** A Label is saved after a blank line. *)
Lemma csv_reader_blank_fields (f : string) (fs : list string) :
  Forall (fun f => field_ok f = true) (f :: fs) ->
  csv_reader (String LF (join ", " (f :: fs))) = [[]; f :: fs].
Proof.
  intros Hok. unfold csv_reader.
  change (String LF (join ", " (f :: fs)))
    with (String LF EmptyString +:+ join ", " (f :: fs)).
  rewrite list_ascii_app, fold_left_app.
  rewrite csv_fields_finish; [done| |done].
  split; [by left|done].
Qed.

(** A command is saved four spaces in. *)
Lemma csv_reader_indented_fields (f : string) (fs : list string) :
  Forall (fun f => field_ok f = true) (f :: fs) ->
  csv_reader ("    " +:+ join ", " (f :: fs)) = [f :: fs].
Proof.
  intros Hok. unfold csv_reader.
  rewrite list_ascii_app, fold_left_app.
  rewrite csv_fields_finish; [done| |done].
  split; [by right; right|done].
Qed.
End Reader.

(** ** Binding the arguments of a saved row *)

Section Binding.
Context `{E : Externals}.

Lemma separate_args_from_row (rest : list string) :
  Forall (fun f => plain f = true) rest ->
  Forall from_row (separate_args rest).1 /\
  map_Forall (fun _ v => from_row v) (separate_args rest).2.
Proof.
  induction rest as [|a rest IH]; intros Hok; simpl.
  { split; [done|]. apply map_Forall_empty. }
  inversion Hok as [|? ? Ha Hrest]; subst.
  destruct (IH Hrest) as [Hargs Hkw].
  destruct (separate_args rest) as [args kwargs]. simpl in *.
  apply plain_strip in Ha.
  destruct (split_at "=" (strip a)) as [[k v]|] eqn:Hsp; simpl.
  - split; [done|]. destruct (kwargs !! strip k); [done|].
    apply map_Forall_insert_2; [|done].
    destruct (split_at_plain _ _ _ Ha Hsp) as [_ Hv].
    eexists. split; [done|]. by apply value_ok_strip.
  - split; [|done]. constructor; [|done].
    eexists. split; [done|]. unfold value_ok.
    by rewrite strip_idemp, String.eqb_refl.
Qed.

Lemma bind_params_from (params : signature) (args : list pyval)
    (kwargs : gmap string pyval) (bound : list (string * pyval)) :
  Forall from_row args -> map_Forall (fun _ v => from_row v) kwargs ->
  bind_params params args kwargs = Ok bound ->
  Forall2 bound_from params bound.
Proof.
  intros Hargs Hkw. revert args bound Hargs.
  induction params as [|[k d] ps IH]; intros args bound Hargs; simpl.
  { intros [= <-]. constructor. }
  destruct args as [|a args].
  - destruct (kwargs !! k) as [v|] eqn:Hk.
    + destruct (bind_params ps [] kwargs) as [r|] eqn:Hr; [|done].
      intros [= <-]. constructor; [|by eapply IH].
      split; [done|]. left. by eapply Hkw.
    + destruct d as [v|]; [|done].
      destruct (bind_params ps [] kwargs) as [r|] eqn:Hr; [|done].
      intros [= <-]. constructor; [|by eapply IH].
      split; [done|]. by right.
  - inversion Hargs; subst.
    destruct (kwargs !! k); [done|].
    destruct (bind_params ps args kwargs) as [r|] eqn:Hr; [|done].
    intros [= <-]. constructor; [|by eapply IH].
    split; [done|]. by left.
Qed.

Lemma bind_args_from (params : signature) (rest : list string)
    (bound : list (string * pyval)) :
  Forall (fun f => plain f = true) rest ->
  bind_args params (separate_args rest).1 (separate_args rest).2 = Ok bound ->
  Forall2 bound_from params bound.
Proof.
  intros Hok. destruct (separate_args_from_row rest Hok) as [Hargs Hkw].
  unfold bind_args. destruct (_ <? _)%nat; [done|].
  destruct (bool_decide _); [|done]. by apply bind_params_from.
Qed.

Lemma bound_from_ok (params : signature) (bound : list (string * pyval)) :
  signature_ok params -> Forall2 bound_from params bound ->
  bound.*1 = params.*1 /\ Forall arg_ok bound.
Proof.
  intros [_ Hsig] Hb. induction Hb as [|[k d] [k' v] ps bs [Hk Hv] Hb IH];
    [done|].
  inversion Hsig as [|? ? [Hkey Hdef] Hsig']; subst. cbn [fst snd] in *. subst k'.
  destruct (IH Hsig') as [Hkeys Hok]. split; [rewrite !fmap_cons; by f_equal|].
  constructor; [|done]. split; [done|]. cbn [fst snd].
  destruct Hv as [(s & -> & Hs)| ->]; [done|]. by apply Hdef.
Qed.
End Binding.

Section SavedArguments.
Context `{E : Externals}.

Lemma key_ok_spec (k : string) :
  key_ok k = true ->
  exists c k', k = String c k' /\ is_space c = false /\ Ascii.eqb c QUOTE = false /\
    strip k = k /\ plain k = true /\
    string_forall (fun c => negb (Ascii.eqb c "=")) k = true /\ k <> "id".
Proof.
  unfold key_ok. destruct k as [|c k]; [done|].
  intros [[[Hq Hv]%andb_true_iff He]%andb_true_iff Hid]%andb_true_iff.
  apply negb_true_iff in Hq, Hid. apply String.eqb_neq in Hid.
  apply value_ok_spec in Hv as [Hs Hp].
  exists c, k. repeat split; try done.
  apply strip_fixed in Hs as [Hl _]. simpl in Hl.
  destruct (is_space c) eqn:Hc; [|done]. exfalso.
  pose proof (f_equal String.length Hl) as Hlen. simpl in Hlen.
  assert (Hle : forall s, (String.length (lstrip s) <= String.length s)%nat).
  { clear. induction s as [|x s IH]; simpl; [lia|].
    destruct (is_space x); simpl; lia. }
  specialize (Hle k). lia.
Qed.

Lemma encode_arg_saved (kv : string * pyval) :
  arg_ok kv ->
  Component.encode_arg kv =
    if is_primitive kv.2 then Some (kv.1 +:+ "=" +:+ Component.py_str kv.2) else None.
Proof.
  destruct kv as [k v]. intros [Hk _]. unfold Component.encode_arg. cbn [fst snd] in *.
  apply key_ok_spec in Hk as (c & k' & _ & _ & _ & _ & _ & _ & Hid).
  apply String.eqb_neq in Hid. by rewrite Hid.
Qed.

Lemma saved_field_ok (k t : string) :
  key_ok k = true -> value_ok t = true -> field_ok (k +:+ "=" +:+ t) = true.
Proof.
  intros Hk Ht. apply key_ok_spec in Hk as (c & k' & -> & Hsp & Hq & _ & Hp & _).
  apply value_ok_spec in Ht as [_ Ht]. simpl.
  assert (Hc : Ascii.eqb c " " = false).
  { destruct (Ascii.eqb_spec c " ") as [->|]; [done|done]. }
  rewrite Hc, Hq. simpl.
  change (String c (k' +:+ String "=" t)) with (String c k' +:+ "=" +:+ t).
  unfold plain in *. rewrite !string_forall_app, Hp, Ht. done.
Qed.

Lemma omap_cons_eq {A B} (f : A -> option B) (x : A) (l : list A) :
  omap f (x :: l) = match f x with Some y => y :: omap f l | None => omap f l end.
Proof. done. Qed.

Lemma saved_fields_ok (bound : list (string * pyval)) :
  Forall arg_ok bound ->
  Forall (fun f => field_ok f = true) (omap Component.encode_arg bound).
Proof.
  induction 1 as [|[k v] bs Hkv Hbs IH]; [constructor|].
  rewrite omap_cons_eq, (encode_arg_saved (k, v) Hkv). cbn [fst snd].
  destruct (is_primitive v) eqn:Hp; [|done].
  constructor; [|done]. destruct Hkv as [Hk Hv]. apply saved_field_ok; auto.
Qed.

Lemma saved_kwargs_keys (bound : list (string * pyval)) (k : string) :
  k ∉ bound.*1 -> saved_kwargs bound !! k = None.
Proof.
  intros Hk. unfold saved_kwargs. apply not_elem_of_list_to_map_1.
  intros Hin. apply Hk. apply list_elem_of_fmap in Hin as ([k' t] & -> & Hin).
  apply list_elem_of_omap in Hin as ([k2 v] & Hin & Hsv).
  unfold saved_kwarg in Hsv. simpl in Hsv.
  destruct (is_primitive v); [|done]. injection Hsv as <- <-.
  apply list_elem_of_fmap. by exists (k2, v).
Qed.

Lemma saved_kwargs_cons (k : string) (v : pyval) (bound : list (string * pyval)) :
  saved_kwargs ((k, v) :: bound) =
    if is_primitive v then <[k := VStr (Component.py_str v)]> (saved_kwargs bound)
    else saved_kwargs bound.
Proof.
  unfold saved_kwargs. simpl. unfold saved_kwarg at 1. simpl.
  by destruct (is_primitive v).
Qed.

(** [separate_args] on the saved fields: no positional argument, and
    every saved argument by keyword. *)
Lemma separate_args_saved (bound : list (string * pyval)) :
  NoDup (bound.*1) -> Forall arg_ok bound ->
  separate_args (omap Component.encode_arg bound) = ([], saved_kwargs bound).
Proof.
  induction bound as [|[k v] bs IH]; intros Hnd Hok; [done|].
  rewrite fmap_cons in Hnd. apply NoDup_cons in Hnd as [Hk Hnd].
  inversion Hok as [|? ? Hkv Hbs]; subst.
  rewrite saved_kwargs_cons, omap_cons_eq.
  rewrite (encode_arg_saved (k, v) Hkv). cbn [fst snd].
  destruct (is_primitive v) eqn:Hp; [|by apply IH].
  destruct Hkv as [Hkey Hval]. cbn [fst snd] in *. specialize (Hval Hp).
  simpl separate_args. rewrite (IH Hnd Hbs).
  destruct (key_ok_spec k Hkey) as (c & k' & Hkeq & _ & _ & Hks & _ & Heq & _).
  destruct (value_ok_spec _ Hval) as [Hvs _].
  change (String "=" (Component.py_str v)) with ("=" +:+ Component.py_str v).
  rewrite (strip_key_value k _ Hkey Hvs).
  rewrite (split_at_key_value k _ Heq). rewrite Hks, Hvs.
  by rewrite (saved_kwargs_keys bs k Hk).
Qed.

Lemma bind_params_ext (params : signature) (args : list pyval)
    (m m' : gmap string pyval) :
  (forall k, k ∈ params.*1 -> m !! k = m' !! k) ->
  bind_params params args m = bind_params params args m'.
Proof.
  revert args. induction params as [|[k d] ps IH]; intros args Hm; [done|].
  simpl. rewrite <- (Hm k) by (rewrite fmap_cons; apply list_elem_of_here).
  assert (Hps : forall a, bind_params ps a m = bind_params ps a m').
  { intros a. apply IH. intros k' Hk'. apply Hm. rewrite fmap_cons.
    by apply list_elem_of_further. }
  destruct args as [|a args]; by rewrite Hps.
Qed.

Lemma from_row_primitive (v : pyval) : from_row v -> is_primitive v = true.
Proof. by intros (s & -> & _). Qed.

Lemma bind_params_saved (params : signature) (bound : list (string * pyval)) :
  NoDup (bound.*1) -> Forall2 bound_from params bound ->
  bind_params params [] (saved_kwargs bound) = Ok (saved_args bound).
Proof.
  intros Hnd Hb. induction Hb as [|[k d] [k' v] ps bs [Hk Hv] Hb IH]; [done|].
  cbn [fst snd] in *. subst k'.
  rewrite fmap_cons in Hnd. apply NoDup_cons in Hnd as [Hfresh Hnd].
  specialize (IH Hnd).
  assert (Hkeys : bs.*1 = ps.*1).
  { clear -Hb. induction Hb as [|[] [] ? ? [? _] ? IH]; [done|].
    rewrite !fmap_cons. simpl in *. by f_equal. }
  rewrite saved_kwargs_cons. simpl bind_params.
  unfold saved_args. simpl map. unfold saved_value at 1. cbn [snd].
  destruct (is_primitive v) eqn:Hp.
  - rewrite lookup_insert_eq.
    rewrite (bind_params_ext ps [] _ (saved_kwargs bs)).
    + fold (saved_args bs). by rewrite IH.
    + intros k' Hk'. rewrite lookup_insert_ne; [done|].
      intros ->. apply Hfresh. by rewrite Hkeys.
  - rewrite (saved_kwargs_keys bs k Hfresh).
    destruct Hv as [Hv| ->].
    { apply from_row_primitive in Hv. congruence. }
    fold (saved_args bs). by rewrite IH.
Qed.

Lemma saved_kwargs_dom (bound : list (string * pyval)) :
  dom (saved_kwargs bound) ⊆ list_to_set (bound.*1).
Proof.
  intros k Hk. apply elem_of_dom in Hk as [v Hv].
  apply elem_of_list_to_set.
  destruct (decide (k ∈ bound.*1)) as [|Hn]; [done|].
  by rewrite (saved_kwargs_keys bound k Hn) in Hv.
Qed.

(** Binding the saved keyword arguments gives the arguments read back. *)
Lemma bind_args_saved (params : signature) (bound : list (string * pyval)) :
  NoDup (params.*1) -> Forall2 bound_from params bound ->
  bind_args params [] (saved_kwargs bound) = Ok (saved_args bound).
Proof.
  intros Hnd Hb.
  assert (Hkeys : bound.*1 = params.*1).
  { clear -Hb. induction Hb as [|[] [] ? ? [? _] ? IH]; [done|].
    rewrite !fmap_cons. simpl in *. by f_equal. }
  unfold bind_args. simpl length.
  destruct (Nat.ltb_spec (length params) 0) as [|_]; [lia|].
  rewrite bool_decide_eq_true_2.
  - apply bind_params_saved; [by rewrite Hkeys|done].
  - rewrite <- Hkeys. apply saved_kwargs_dom.
Qed.
End SavedArguments.

(** ** Constructors on arguments read back *)

Section SavedConstruction.
Context `{E : Externals} `{!ExternalsOk E}.

Lemma saved_value_from_row (v : pyval) : from_row v -> saved_value v = v.
Proof. by intros (s & -> & _). Qed.

Lemma py_str_saved (v : pyval) :
  Component.py_str (saved_value v) = Component.py_str v.
Proof. by destruct v. Qed.

Lemma bind_args_bound_from (params : signature) (args : list pyval)
    (kwargs : gmap string pyval) (bound : list (string * pyval)) :
  Forall from_row args -> map_Forall (fun _ v => from_row v) kwargs ->
  bind_args params args kwargs = Ok bound ->
  Forall2 bound_from params bound.
Proof.
  intros Hargs Hkw. unfold bind_args. destruct (_ <? _)%nat; [done|].
  destruct (bool_decide _); [|done]. by apply bind_params_from.
Qed.

Lemma point_params_ok : signature_ok Point.params.
Proof.
  split; [by apply (bool_decide_unpack _)|].
  repeat constructor; try (by vm_compute); intros v [= <-] _; by vm_compute.
Qed.

Lemma label_params_ok : signature_ok Label.params.
Proof.
  split; [by apply (bool_decide_unpack _)|].
  repeat constructor; try (by vm_compute); intros v [= <-] _; by vm_compute.
Qed.

Lemma jump_params_ok : signature_ok Jump.params.
Proof.
  split; [by apply (bool_decide_unpack _)|].
  repeat constructor; try (by vm_compute); intros v [= <-] _; by vm_compute.
Qed.

Lemma setting_params_ok : signature_ok Setting.params.
Proof.
  split; [by apply (bool_decide_unpack _)|].
  repeat constructor; try (by vm_compute); intros v [= <-] _; by vm_compute.
Qed.

(** A required argument is read back as it was. *)
Lemma saved_required (k : string) (kv : string * pyval) :
  bound_from (k, None) kv -> saved_value kv.2 = kv.2.
Proof. intros [_ [H|H]]; [by apply saved_value_from_row|done]. Qed.

(** So is one whose default is a text. *)
Lemma saved_text_default (k s : string) (kv : string * pyval) :
  bound_from (k, Some (VStr s)) kv -> saved_value kv.2 = kv.2.
Proof.
  intros [_ [H|H]]; [by apply saved_value_from_row|].
  simpl in H. by injection H as <-.
Qed.

(** The frequency is validated to the same number. *)
Lemma saved_frequency (k : string) (kv : string * pyval) :
  bound_from (k, Some (VInt 1)) kv ->
  validate_nonzero_int (saved_value kv.2) = validate_nonzero_int kv.2.
Proof.
  intros [_ [H|H]]; [by rewrite saved_value_from_row|].
  simpl in H. injection H as <-. apply validate_nonzero_int_default.
Qed.

Lemma point_init_saved (bound : list (string * pyval)) (w : world) :
  Forall2 bound_from Point.params bound ->
  forall a w1, Point.__init__ bound w = (Ok a, w1) ->
  exists p, a = length (heap w) /\ w1 = set_heap (heap w ++ [OPoint p]) w /\
    p_args p = bound /\
    Point.__init__ (saved_args bound) w =
      (Ok a, set_heap (heap w ++ [saved_obj (OPoint p)]) w).
Proof.
  intros Hb a w1.
  destruct bound as [|[kx x] [|[ky y] [|[kf f] [|[ks s] [|[ka av] [|]]]]]];
    try (by apply Forall2_length in Hb).
  apply Forall2_cons in Hb as [Hx Hb]. apply Forall2_cons in Hb as [Hy Hb].
  apply Forall2_cons in Hb as [Hf Hb]. apply Forall2_cons in Hb as [Hs Hb].
  apply Forall2_cons in Hb as [Ha _].
  apply saved_required in Hx, Hy. apply saved_frequency in Hf.
  apply saved_text_default in Hs, Ha. cbn [snd] in *.
  unfold Point.__init__, saved_args. cbn [map fst snd]. unfold_monad.
  rewrite Hx, Hy, Hf, Hs, Ha.
  destruct (py_float x); [|done]. destruct (py_float y); [|done].
  destruct (validate_nonzero_int f); [|done].
  destruct (validate_boolean s); [|done].
  destruct (validate_boolean av); [|done].
  intros [= <- <-]. eexists. split; [done|]. split; [done|]. split; [done|].
  simpl. unfold saved_args. cbn [map fst snd]. by rewrite Hx, Hy, Hs, Ha.
Qed.

Lemma jump_init_saved (bound : list (string * pyval)) (w : world) :
  Forall2 bound_from Jump.params bound ->
  forall a w1, Jump.__init__ bound w = (Ok a, w1) ->
  exists j, a = length (heap w) /\ w1 = set_heap (heap w ++ [OJump j]) w /\
    j_args j = bound /\
    Jump.__init__ (saved_args bound) w =
      (Ok a, set_heap (heap w ++ [saved_obj (OJump j)]) w).
Proof.
  intros Hb a w1.
  destruct bound as [|[kl v] [|[kf f] [|[ks s] [|]]]];
    try (by apply Forall2_length in Hb).
  apply Forall2_cons in Hb as [Hl Hb]. apply Forall2_cons in Hb as [Hf Hb].
  apply Forall2_cons in Hb as [Hs _].
  apply saved_required in Hl. apply saved_frequency in Hf.
  apply saved_text_default in Hs. cbn [snd] in *.
  unfold Jump.__init__, saved_args. cbn [map fst snd]. unfold_monad.
  rewrite Hl, Hf, Hs.
  destruct (validate_nonzero_int f); [|done].
  destruct (validate_boolean s); [|done].
  intros [= <- <-]. eexists. split; [done|]. split; [done|]. split; [done|].
  simpl. unfold saved_args. cbn [map fst snd]. by rewrite Hl, Hs.
Qed.

Lemma label_init_saved (bound : list (string * pyval)) (w : world) :
  Forall2 bound_from Label.params bound ->
  forall a w1, Label.__init__ bound w = (Ok a, w1) ->
  exists l, a = length (heap w) /\ w1 = set_heap (heap w ++ [OLabel l]) w /\
    l_args l = bound /\
    Label.__init__ (saved_args bound) w =
      (Ok a, set_heap (heap w ++ [saved_obj (OLabel l)]) w).
Proof.
  intros Hb a w1.
  destruct bound as [|[kl v] [|]]; try (by apply Forall2_length in Hb).
  apply Forall2_cons in Hb as [Hl _]. apply saved_required in Hl. cbn [snd] in *.
  unfold Label.__init__, saved_args. cbn [map fst snd]. unfold_monad.
  rewrite Hl. destruct (labels w !! Component.py_str v); [done|].
  intros [= <- <-]. eexists. split; [done|]. split; [done|]. split; [done|].
  simpl. unfold saved_args. cbn [map fst snd]. by rewrite Hl.
Qed.

Lemma setting_init_saved (bound : list (string * pyval)) (w : world) :
  Forall2 bound_from Setting.params bound ->
  forall a w1, Setting.__init__ bound w = (Ok a, w1) ->
  exists s, a = length (heap w) /\ w1 = set_heap (heap w ++ [OSetting s]) w /\
    s_args s = bound /\
    Setting.__init__ (saved_args bound) w =
      (Ok a, set_heap (heap w ++ [saved_obj (OSetting s)]) w).
Proof.
  intros Hb a w1.
  destruct bound as [|[kk key] [|[kv value] [|]]];
    try (by apply Forall2_length in Hb).
  apply Forall2_cons in Hb as [Hk Hb]. apply Forall2_cons in Hb as [Hv _].
  apply saved_required in Hk, Hv. cbn [snd] in *.
  unfold Setting.__init__, saved_args. cbn [map fst snd]. unfold_monad.
  rewrite Hk, Hv. destruct (SETTING_VALIDATORS !! _) as [validator|]; [|done].
  destruct (validator value); [|done].
  intros [= <- <-]. eexists. split; [done|]. split; [done|]. split; [done|].
  simpl. unfold saved_args. cbn [map fst snd]. by rewrite Hk, Hv.
Qed.
End SavedConstruction.

(** ** A saved row read back *)

Section ReadBack.
Context `{E : Externals} `{!ExternalsOk E} `{!BookOk}.

(** The classes a row can name: the built-in ones, and the classes of
    the book. *)
Lemma lookup_class_book (first : string) (c : class) :
  Routine.lookup_class first = Some c ->
  match c with
  | CCommand cls => exists key, command_book !! key = Some cls
  | _ => True
  end.
Proof.
  unfold Routine.lookup_class. destruct c; try done.
  destruct (SYMBOLS !! first) as [c'|] eqn:Hs.
  - intros [= ->]. exfalso.
    assert (Hall : map_Forall
              (fun _ c => match c with CCommand _ => False | _ => True end) SYMBOLS).
    { unfold SYMBOLS. repeat (apply map_Forall_insert_2; [done|]).
      apply map_Forall_empty. }
    by apply Hall in Hs.
  - destruct (command_book !! first) as [cls'|] eqn:Hb; [|done].
    intros [= ->]. by exists first.
Qed.

Lemma lookup_class_id (first : string) (c : class) :
  Routine.lookup_class first = Some c ->
  Routine.lookup_class (lower (class_id c)) = Some c /\
  field_ok (class_id c) = true /\ signature_ok (class_params c).
Proof.
  intros Hc. pose proof (lookup_class_book first c Hc) as Hb.
  destruct c as [| | | |cls].
  - split; [done|]. split; [done|]. apply point_params_ok.
  - split; [done|]. split; [done|]. apply label_params_ok.
  - split; [done|]. split; [done|]. apply jump_params_ok.
  - split; [done|]. split; [done|]. apply setting_params_ok.
  - destruct Hb as [key Hb]. split; [by eapply book_key|].
    split; [by eapply book_name|by eapply book_signature].
Qed.

Local Ltac construct_top Hinit :=
  let bound := fresh "bound" in let Hbind := fresh "Hbind" in
  let Hn := fresh "Hn" in let o := fresh "o" in
  match goal with
  | Hsig : signature_ok ?params, Hargs : Forall from_row ?args,
    Hkw : map_Forall _ ?kwargs |- _ =>
      destruct (bind_args params args kwargs) as [bound|] eqn:Hbind; [|done];
      pose proof (bind_args_bound_from _ _ _ _ Hargs Hkw Hbind) as Hfrom;
      destruct (bound_from_ok _ _ Hsig Hfrom) as [Hkeys Hok];
      destruct Hsig as [Hnd _]; simpl
  end.

(** What a class constructs from the arguments of a row, it constructs
    again, up to the arguments read back, from the keyword arguments of
    the saved row. *)
Lemma construct_saved (c : class) (args : list pyval) (kwargs : gmap string pyval)
    (w w1 : world) (r : compiled) :
  signature_ok (class_params c) ->
  match c with
  | CCommand cls => exists key, command_book !! key = Some cls
  | _ => True
  end ->
  Forall from_row args -> map_Forall (fun _ v => from_row v) kwargs ->
  Routine.construct c args kwargs w = (Ok r, w1) ->
  exists bound, Forall arg_ok bound /\ NoDup (bound.*1) /\
    match r with
    | Top a =>
        exists o, a = length (heap w) /\ w1 = set_heap (heap w ++ [o]) w /\
          obj_args o = bound /\ instance_of c o /\
          Routine.construct c [] (saved_kwargs bound) w =
            (Ok (Top a), set_heap (heap w ++ [saved_obj o]) w)
    | Cmd cm =>
        w1 = w /\ c_args cm = bound /\ c_id cm = class_id c /\
        Routine.construct c [] (saved_kwargs bound) w = (Ok (Cmd (saved_command cm)), w)
    end.
Proof.
  intros Hsig Hbook Hargs Hkw. unfold Routine.construct.
  destruct c as [| | | |cls]; simpl in Hsig.
  - unfold Point.new. unfold_monad. construct_top Hsig.
    destruct (Point.__init__ bound w) as [[a|] w'] eqn:Hi; [|done].
    intros [= <- <-].
    destruct (point_init_saved bound w Hfrom a w' Hi) as (p & -> & -> & Hp & Hs).
    exists bound. split; [done|]. split; [by rewrite Hkeys|].
    eexists. split; [done|]. split; [done|]. split; [done|]. split; [done|].
    by rewrite bind_args_saved, Hs.
  - unfold Label.new. unfold_monad. construct_top Hsig.
    destruct (Label.__init__ bound w) as [[a|] w'] eqn:Hi; [|done].
    intros [= <- <-].
    destruct (label_init_saved bound w Hfrom a w' Hi) as (p & -> & -> & Hp & Hs).
    exists bound. split; [done|]. split; [by rewrite Hkeys|].
    eexists. split; [done|]. split; [done|]. split; [done|]. split; [done|].
    by rewrite bind_args_saved, Hs.
  - unfold Jump.new. unfold_monad. construct_top Hsig.
    destruct (Jump.__init__ bound w) as [[a|] w'] eqn:Hi; [|done].
    intros [= <- <-].
    destruct (jump_init_saved bound w Hfrom a w' Hi) as (p & -> & -> & Hp & Hs).
    exists bound. split; [done|]. split; [by rewrite Hkeys|].
    eexists. split; [done|]. split; [done|]. split; [done|]. split; [done|].
    by rewrite bind_args_saved, Hs.
  - unfold Setting.new. unfold_monad. construct_top Hsig.
    destruct (Setting.__init__ bound w) as [[a|] w'] eqn:Hi; [|done].
    intros [= <- <-].
    destruct (setting_init_saved bound w Hfrom a w' Hi) as (p & -> & -> & Hp & Hs).
    exists bound. split; [done|]. split; [by rewrite Hkeys|].
    eexists. split; [done|]. split; [done|]. split; [done|]. split; [done|].
    by rewrite bind_args_saved, Hs.
  - destruct Hbook as [key Hbook].
    unfold Command.new, Command.build. unfold_monad. construct_top Hsig.
    destruct (cls_init cls bound) as [[]|] eqn:Hi; [|done]. simpl.
    intros [= <- <-].
    exists bound. split; [done|]. split; [by rewrite Hkeys|].
    split; [done|]. split; [done|]. split; [done|].
    rewrite bind_args_saved by done. simpl.
    by rewrite (book_init key cls bound Hbook), Hi.
Qed.

Lemma eval_of_construct (r0 : string) (rest : list string) (line : Z) (c : class)
    (r : compiled) (w wc : world) :
  Routine.lookup_class (lower r0) = Some c ->
  Routine.construct c (separate_args rest).1 (separate_args rest).2 w = (Ok r, wc) ->
  match r with Top a => is_Some (heap wc !! a) | Cmd _ => True end ->
  Routine._eval (r0 :: rest) line w = (Ok (Some r), registered r wc).
Proof.
  intros Hc Hcons Hr. unfold Routine._eval.
  destruct (separate_args rest) as [args kwargs]. rewrite Hc.
  unfold try_except. unfold_monad. simpl in Hcons. rewrite Hcons.
  destruct r as [a|cm]; [|done]. destruct Hr as [o Ho]. simpl. rewrite Ho.
  destruct o as [|l| |]; try done.
  unfold Label.set_index, Label.self_label. unfold_monad. by rewrite Ho.
Qed.

Lemma eval_some_inv (r0 : string) (rest : list string) (line : Z)
    (r : compiled) (w w1 : world) :
  Routine._eval (r0 :: rest) line w = (Ok (Some r), w1) ->
  exists c wc,
    Routine.lookup_class (lower r0) = Some c /\
    Routine.construct c (separate_args rest).1 (separate_args rest).2 w = (Ok r, wc) /\
    w1 = registered r wc.
Proof.
  unfold Routine._eval. destruct (separate_args rest) as [args kwargs].
  destruct (Routine.lookup_class (lower r0)) as [c|]; [|done].
  unfold try_except. unfold_monad. simpl.
  destruct (Routine.construct c args kwargs w) as [[r'|e] wc] eqn:Hcons;
    [|by destruct e].
  intros Hev. exists c, wc. split; [done|].
  destruct r' as [a|cm].
  - destruct (heap wc !! a) as [o|] eqn:Ho; [|done]. simpl.
    destruct o as [|l| |]; simpl in Hev;
      try (injection Hev as <- <-; split; [done|]; unfold registered; by rewrite Ho).
    unfold Label.set_index, Label.self_label in Hev. unfold_monad.
    rewrite Ho in Hev. simpl in Hev. injection Hev as <- <-.
    split; [done|]. unfold registered. by rewrite Ho.
  - by injection Hev as <- <-.
Qed.

Lemma insert_last {A} (l : list A) (x y : A) :
  <[length l := x]> (l ++ [y]) = l ++ [x].
Proof. by rewrite insert_app_r_alt, Nat.sub_diag by done. Qed.

Lemma encode_args_saved (bound : list (string * pyval)) :
  omap Component.encode_arg (saved_args bound) = omap Component.encode_arg bound.
Proof.
  induction bound as [|[k v] bs IH]; [done|].
  unfold saved_args in *. cbn [map fst snd]. rewrite !omap_cons_eq, IH.
  unfold Component.encode_arg at 1 3. by destruct v.
Qed.

Lemma encode_saved_obj (o : obj) : encode (saved_obj o) = encode o.
Proof.
  destruct o; simpl;
    unfold Point.encode, Label.encode, Jump.encode, Setting.encode,
      Component.encode; simpl; by rewrite encode_args_saved.
Qed.

(** The text of an instance of a class is the saved row, joined; a
    Label has a line feed before it. *)
Lemma encode_instance (c : class) (o : obj) :
  instance_of c o ->
  encode o = (if o is OLabel _ then String LF EmptyString else EmptyString)
             +:+ join ", " (saved_row c (obj_args o)).
Proof. by destruct c, o. Qed.

Lemma csv_rows_of_saved (c : class) (bound : list (string * pyval)) (blank : bool) :
  field_ok (class_id c) = true -> Forall arg_ok bound ->
  csv_rows_of ((if blank then String LF EmptyString else EmptyString)
               +:+ join ", " (saved_row c bound)) = [saved_row c bound] /\
  csv_rows_of ("    " +:+ join ", " (saved_row c bound)) = [saved_row c bound].
Proof.
  intros Hid Hok.
  assert (Hf : Forall (fun f => field_ok f = true) (saved_row c bound)).
  { constructor; [done|]. by apply saved_fields_ok. }
  unfold csv_rows_of, saved_row in *. split.
  - destruct blank.
    + change (String LF EmptyString +:+ ?x) with (String LF x).
      rewrite csv_reader_blank_fields by done.
      rewrite filter_cons_False by (by intros ?).
      by rewrite filter_cons_True.
    + change (EmptyString +:+ ?x) with x.
      rewrite csv_reader_fields by done. by rewrite filter_cons_True.
  - rewrite csv_reader_indented_fields by done. by rewrite filter_cons_True.
Qed.

Lemma registered_lookup (o : obj) (w : world) :
  heap (registered (Top (length (heap w))) (set_heap (heap w ++ [o]) w))
    !! length (heap w) = Some (indexed o w).
Proof.
  unfold registered. simpl. rewrite list_lookup_middle by done.
  destruct o; simpl; rewrite ?insert_last; by rewrite list_lookup_middle.
Qed.

Lemma read_back_registered (o : obj) (w : world) :
  read_back (Top (length (heap w)))
    (registered (Top (length (heap w))) (set_heap (heap w ++ [o]) w)) =
  (Top (length (heap w)),
   registered (Top (length (heap w))) (set_heap (heap w ++ [saved_obj o]) w)).
Proof.
  unfold read_back. rewrite registered_lookup.
  unfold registered. simpl. rewrite !list_lookup_middle by done.
  destruct o; simpl; by rewrite ?insert_last.
Qed.

Lemma indexed_saved (o : obj) (w : world) :
  indexed (saved_obj o) w = saved_obj (indexed o w).
Proof. by destruct o. Qed.

Lemma indexed_instance (c : class) (o : obj) (w : world) :
  instance_of c o ->
  instance_of c (indexed o w) /\ obj_args (indexed o w) = obj_args o.
Proof. by destruct c, o. Qed.

(** X10.  A row whose arguments hold no comma and no
    line break and that [_eval] compiles, to a built-in component or to
    a command of a book whose classes can be saved.  The text [save]
    writes for the result is read by the reader as one row, blank lines
    apart, and [_eval] compiles that row, from the same state, to the
    same result up to the captured arguments: the component is at the
    same address with the same validated attributes, the program is
    otherwise the same, and each captured argument of a primitive type
    is now its own text (a text is itself; the default frequency, the
    number 1, is the text of 1). *)
Theorem saved_row_reads_back (row : list string) (line line' : Z)
    (r : compiled) (w w1 : world) :
  Forall (fun f => plain f = true) (tail row) ->
  Routine._eval row line w = (Ok (Some r), w1) ->
  exists text row',
    encoded r w1 = Some text /\
    csv_rows_of text = [row'] /\
    Routine._eval row' line' w = (Ok (Some (read_back r w1).1), (read_back r w1).2) /\
    match r with
    | Top a =>
        exists o, heap w1 !! a = Some o /\
          heap (read_back r w1).2 !! a = Some (saved_obj o) /\
          encode (saved_obj o) = encode o
    | Cmd c =>
        (read_back r w1).1 = Cmd (saved_command c) /\
        Command.encode (saved_command c) = Command.encode c
    end.
Proof.
  intros Hplain Hev. destruct row as [|r0 rest]; [done|]. simpl in Hplain.
  destruct (eval_some_inv r0 rest line r w w1 Hev) as (c & wc & Hc & Hcons & ->).
  destruct (lookup_class_id _ c Hc) as (Hc' & Hid & Hsig).
  pose proof (lookup_class_book _ c Hc) as Hbook.
  destruct (separate_args_from_row rest Hplain) as [Hargs Hkw].
  destruct (construct_saved c _ _ w wc r Hsig Hbook Hargs Hkw Hcons)
    as (bound & Hok & Hnd & Hr).
  assert (Hsep : separate_args (omap Component.encode_arg bound) = ([], saved_kwargs bound))
    by (by apply separate_args_saved).
  destruct r as [a|cm].
  - destruct Hr as (o & -> & -> & Hargs_o & Hinst & Hcons').
    destruct (indexed_instance c o w Hinst) as [Hinst' Hargs'].
    destruct (csv_rows_of_saved c bound
                (if indexed o w is OLabel _ then true else false) Hid Hok)
      as [Hrows _].
    exists (encode (indexed o w)), (saved_row c bound).
    split; [unfold encoded; by rewrite registered_lookup|].
    split.
    { rewrite (encode_instance c _ Hinst'), Hargs', Hargs_o.
      by destruct (indexed o w). }
    rewrite read_back_registered. cbn [fst snd]. split.
    { unfold saved_row. apply (eval_of_construct _ _ line' c); [done| |].
      - by rewrite Hsep.
      - simpl. rewrite list_lookup_middle by done. by eexists. }
    exists (indexed o w). split; [apply registered_lookup|].
    split; [by rewrite registered_lookup, indexed_saved|].
    apply encode_saved_obj.
  - destruct Hr as (-> & Hargs_c & Hidc & Hcons').
    destruct (csv_rows_of_saved c bound false Hid Hok) as [_ Hrows].
    exists ("    " +:+ Command.encode cm), (saved_row c bound).
    split; [done|]. split.
    { unfold Command.encode, Component.encode. by rewrite Hidc, Hargs_c. }
    split.
    { unfold saved_row.
      rewrite (eval_of_construct _ _ line' c (Cmd (saved_command cm)) w w);
        try done.
      by rewrite Hsep. }
    split; [done|].
    unfold Command.encode, Component.encode. simpl. by rewrite encode_args_saved.
Qed.
End ReadBack.

Lemma sample_book_ok : @BookOk Sample.externals.
Proof.
  assert (Hbook : forall key cls,
            @command_book Sample.externals !! key = Some cls ->
            cls = Sample.Move \/ cls = Sample.Adjust).
  { intros key cls. simpl. unfold Sample.command_book.
    intros [[_ <-]|[_ Hk]]%lookup_insert_Some; [by left|].
    apply lookup_singleton_Some in Hk as [_ <-]. by right. }
  split; intros key cls; [| | |intros bound]; intros Hk;
    destruct (Hbook key cls Hk) as [-> | ->]; try done.
  - split; [by apply (bool_decide_unpack _)|]. by repeat constructor.
  - split; [by apply (bool_decide_unpack _)|]. by repeat constructor.
Qed.

#[global] Existing Instance sample_book_ok.

(** C5, on the code.  The row [@, a,b], which the reader gives for a
    quoted second field, is valid and compiles to the Label [a,b]; the
    text saved for it is [@, label=a,b] after a blank line, which the
    reader splits into three fields, and that row does not compile:
    [encode] joins the fields with a comma and quotes nothing.  So the
    routine of that Label and a Jump to it, two components, is saved as
    a text that compiles to no component at all. *)
Theorem comma_in_label_is_not_read_back :
  let w := Routine.__init__ true in
  let quoted := "@, " +:+ String QUOTE ("a,b" +:+ String QUOTE EmptyString) in
  let w2 := Sample.linked [["@"; "a,b"]; [">"; "a,b"]] in
  let saved := String LF ("@, label=a,b" +:+ String LF
                 (">, label=a,b, frequency=1, skip=False" +:+ String LF EmptyString)) in
  (exists l w1,
    csv_reader quoted = [["@"; "a,b"]] /\
    Routine._eval ["@"; "a,b"] 1 w = (Ok (Some (Top 0%nat)), w1) /\
    heap w1 !! 0%nat = Some (OLabel l) /\
    l_label l = "a,b" /\ l_args l = [("label", VStr "a,b")] /\
    encoded (Top 0%nat) w1 = Some (String LF "@, label=a,b") /\
    csv_rows_of (String LF "@, label=a,b") = [["@"; "label=a"; "b"]] /\
    fst (Routine._eval ["@"; "label=a"; "b"] 1 w) = Ok None) /\
  sequence w2 = [0%nat; 1%nat] /\
  out (snd (Routine.save "out.csv" w2)) =
    out w2 ++ [WriteFile "out.csv" saved; PrintSeparator;
               Print "[~] Saved routine to 'out.csv'."] /\
  csv_rows_of saved =
    [["@"; "label=a"; "b"]; [">"; "label=a"; "b"; "frequency=1"; "skip=False"]] /\
  fst (Routine.compile_rows (csv_reader saved) None 1 w) = Ok tt /\
  sequence (snd (Routine.compile_rows (csv_reader saved) None 1 w)) = [].
Proof.
  split.
  - do 2 eexists. split; [vm_compute; reflexivity|].
    split; [vm_compute; reflexivity|].
    split; [vm_compute; reflexivity|].
    repeat split; vm_compute; reflexivity.
  - repeat split; vm_compute; reflexivity.
Qed.

Lemma saved_row_reads_back_witness :
  let w := Routine.__init__ true in
  let w1 := snd (Routine._eval ["*"; "100"; " 200 "; "skip = True"] 1 w) in
  exists text row',
    encoded (Top 0%nat) w1 = Some text /\
    csv_rows_of text = [row'] /\
    Routine._eval row' 7 w =
      (Ok (Some (read_back (Top 0%nat) w1).1), (read_back (Top 0%nat) w1).2) /\
    exists o, heap w1 !! 0%nat = Some o /\
      heap (read_back (Top 0%nat) w1).2 !! 0%nat = Some (saved_obj o) /\
      encode (saved_obj o) = encode o.
Proof.
  intros w w1.
  apply (saved_row_reads_back ["*"; "100"; " 200 "; "skip = True"] 1 7 (Top 0%nat) w w1).
  - repeat constructor.
  - vm_compute. reflexivity.
Defined.

(** * Further properties of the interpreter *)

(** ** What an execution never does *)

Section ControlFrame.
Context `{E : Externals}.

Lemma same_control_refl (w : world) : same_control w w.
Proof. done. Qed.

Lemma same_control_trans (w1 w2 w3 : world) :
  same_control w1 w2 -> same_control w2 w3 -> same_control w1 w3.
Proof.
  intros [(? & ? & ? & ?) ?] [(? & ? & ? & ?) ?].
  repeat split; congruence.
Qed.

Lemma run_book_control (name : string) (p : point) (w : world) :
  same_control w (snd (Point.run_book name p w)).
Proof.
  unfold Point.run_book, Command.new, Command.execute, run_if_enabled.
  destruct (command_book !! name) as [cls|]; [|done].
  unfold_monad. destruct (Command.build cls _ _); [|done].
  by destruct (enabled w).
Qed.

Lemma execute_commands_control (cs : list command) (w : world) :
  same_control w
    (snd (for_each cs (fun command => Command.execute command ;; ret tt) w)).
Proof.
  revert w. induction cs as [|c cs IH]; intros w; [done|]. simpl.
  unfold Command.execute, run_if_enabled. unfold_monad.
  destruct (enabled w) eqn:He; simpl; [|done].
  eapply same_control_trans; [|apply IH]. done.
Qed.

Lemma point_increment_control (self : addr) (w : world) :
  same_control w (snd (Point._increment_counter self w)).
Proof.
  unfold Point._increment_counter, run_if_enabled, Point.self_point. unfold_monad.
  destruct (enabled w); [|done].
  destruct (heap w !! self) as [[p| | |]|]; try done.
  by destruct (Z.eqb (p_frequency p) 0).
Qed.

Lemma jump_increment_control (self : addr) (w : world) :
  same_control w (snd (Jump._increment_counter self w)).
Proof.
  unfold Jump._increment_counter, run_if_enabled, Jump.self_jump. unfold_monad.
  destruct (enabled w); [|done].
  destruct (heap w !! self) as [[| |j|]|]; try done.
  by destruct (Z.eqb (j_frequency j) 0).
Qed.

Lemma point_main_control (self : addr) (w : world) :
  same_control w (snd (Point.main self w)).
Proof.
  unfold Point.main, Point.self_point. unfold_monad.
  destruct (heap w !! self) as [[p| | |]|] eqn:Hp; try done. simpl.
  assert (Hinc : forall w1, same_control w w1 ->
    same_control w
      (snd (let '(r, w2) := Point._increment_counter self w1 in
            match r with Ok _ => (Ok tt, w2) | Raise e => (Raise e, w2) end))).
  { intros w1 H1. eapply same_control_trans; [exact H1|].
    pose proof (point_increment_control self w1) as Hs.
    by destruct (Point._increment_counter self w1) as [[?|?] ?]. }
  destruct (Z.eqb (p_counter p) 0); [|by apply Hinc].
  pose proof (run_book_control "move" p w) as H1.
  destruct (Point.run_book "move" p w) as [[[]|e] w1]; simpl in H1; [|done].
  assert (Hcmds : forall w2, same_control w w2 ->
    same_control w
      (snd (let '(r, w3) :=
              for_each (p_commands p)
                (fun command => Command.execute command ;; ret tt) w2 in
            match r with
            | Ok _ =>
                let '(r, w4) := Point._increment_counter self w3 in
                match r with Ok _ => (Ok tt, w4) | Raise e => (Raise e, w4) end
            | Raise e => (Raise e, w3)
            end))).
  { intros w2 H2.
    pose proof (execute_commands_control (p_commands p) w2) as H3.
    unfold_monad.
    destruct (for_each _ _ w2) as [[[]|e] w3]; simpl in H3.
    - apply Hinc. by eapply same_control_trans.
    - simpl. by eapply same_control_trans. }
  destruct (p_adjust p); [|by apply Hcmds].
  pose proof (run_book_control "adjust" p w1) as H2.
  destruct (Point.run_book "adjust" p w1) as [[[]|e] w2]; simpl in H2.
  - apply Hcmds. by eapply same_control_trans.
  - simpl. by eapply same_control_trans.
Qed.
End ControlFrame.

Section ExecuteFrame.
Context `{E : Externals}.

(** X1.  Whatever component is executed, whether the execution returns
    or raises, the sequence, the label table, the path and the enabled
    flag are what they were; and the program counter is what it was
    unless the component is an enabled Jump bound to a Label with its
    counter at 0, in which case it is that Label's index. *)
Theorem execute_keeps_program (self : addr) (w : world) :
  same_program w (snd (execute self w)) /\
  (index (snd (execute self w)) = index w \/
   exists j link l,
     heap w !! self = Some (OJump j) /\ j_link j = Some link /\
     heap w !! link = Some (OLabel l) /\ j_counter j = 0 /\ enabled w = true /\
     index (snd (execute self w)) = l_index l).
Proof.
  unfold execute, run_if_enabled, main. unfold_monad.
  destruct (enabled w) eqn:He; [|by split; [|left]].
  destruct (heap w !! self) as [[p|l|j|s]|] eqn:Ho; simpl;
    try (by split; [|left]).
  - pose proof (point_main_control self w) as [Hp Hi].
    destruct (Point.main self w) as [[?|?] ?]; by split; [|left].
  - unfold Jump.main, Jump.self_jump, Label.self_label. unfold_monad.
    rewrite Ho. simpl. destruct (j_link j) as [link|] eqn:Hl; [|by split; [|left]].
    destruct (Z.eqb_spec (j_counter j) 0) as [Hc|Hc].
    + destruct (heap w !! link) as [[|l| |]|] eqn:Hlab; simpl;
        try (by split; [|left]).
      pose proof (jump_increment_control self (set_index (l_index l) w)) as [Hp Hi].
      destruct (Jump._increment_counter self _) as [[?|?] w2]; simpl in *;
        (split; [done|]); right; exists j, link, l; by rewrite Hi.
    + pose proof (jump_increment_control self w) as [Hp Hi].
      destruct (Jump._increment_counter self w) as [[?|?] w2]; simpl in *;
        by split; [|left].
  - unfold Setting.main. unfold_monad. rewrite Ho. by split; [|left].
Qed.
End ExecuteFrame.

(** ** Periodic execution from any phase *)

Section Phase.
Context `{E : Externals}.

Lemma phase_succ (c0 N : Z) (k : nat) :
  (phase c0 N k + 1) mod N = phase c0 N (S k).
Proof.
  destruct k as [|k]; simpl phase.
  - by replace (c0 + Z.of_nat 1) with (c0 + 1) by lia.
  - rewrite Zplus_mod_idemp_l. f_equal. lia.
Qed.

Lemma enabled_count_snoc (flags : list bool) (b : bool) :
  enabled_count (flags ++ [b]) = (enabled_count flags + (if b then 1 else 0))%nat.
Proof.
  unfold enabled_count. rewrite filter_app, length_app. by destruct b.
Qed.

Lemma point_phase (self : addr) (p : point) (evs : list event)
    (w : world) (flags : list bool) :
  heap w !! self = Some (OPoint p) ->
  1 <= p_frequency p -> fire_events p = Some evs ->
  heap (executions self flags w) !! self =
    Some (OPoint (p_set_counter
            (phase (p_counter p) (p_frequency p) (enabled_count flags)) p)).
Proof.
  intros Hp Hf Hev. induction flags as [|b flags IH] using rev_ind.
  - simpl. rewrite Hp. by destruct p.
  - rewrite executions_snoc, enabled_count_snoc.
    set (wk := executions self flags w) in *.
    unfold step_world. destruct b.
    + assert (Hen : enabled (set_enabled true wk) = true) by done.
      assert (Hpk : heap (set_enabled true wk) !! self = Some (OPoint
                (p_set_counter (phase (p_counter p) (p_frequency p)
                                  (enabled_count flags)) p)))
        by done.
      rewrite (execute_point self _ evs _ Hpk Hen) by (simpl; (lia || done)).
      simpl. rewrite list_lookup_insert_eq by (by eapply lookup_lt_Some).
      do 2 f_equal. unfold p_set_counter. simpl. f_equal.
      rewrite phase_succ. f_equal. lia.
    + rewrite execute_disabled by done. simpl. by rewrite Nat.add_0_r.
Qed.

(** X2.  A Waypoint executed again and again from the counter [c0] it
    was constructed with, under the registry precondition.  After k
    enabled executions the counter is [c0] if k = 0 and
    [(c0 + k) mod N] otherwise, and the next enabled execution fires
    exactly when that counter is 0.  So with skip = true, where [c0]
    is 1, the first enabled execution has no effect whatever the
    frequency, and the enabled execution number m >= 2 fires exactly
    when [m mod N = 0]. *)
Theorem waypoint_phase (self : addr) (p : point) (evs : list event)
    (w : world) (flags : list bool) :
  heap w !! self = Some (OPoint p) ->
  1 <= p_frequency p ->
  fire_events p = Some evs ->
  let N := p_frequency p in
  let k := enabled_count flags in
  let wk := set_enabled true (executions self flags w) in
  let pk := p_set_counter (phase (p_counter p) N k) p in
  heap wk !! self = Some (OPoint pk) /\
  execute self wk =
    (Ok (Some tt),
     point_stepped self pk (if Z.eqb (phase (p_counter p) N k) 0 then evs else []) wk) /\
  (p_counter p = 1 ->
   (k = 0%nat -> out (snd (execute self wk)) = out wk) /\
   ((1 <= k)%nat ->
    out (snd (execute self wk)) =
      out wk ++ (if Z.eqb ((Z.of_nat k + 1) mod N) 0 then evs else []))).
Proof.
  intros Hp Hf Hev N k wk pk.
  pose proof (point_phase self p evs w flags Hp Hf Hev) as Hpk.
  assert (Hex : execute self wk =
    (Ok (Some tt),
     point_stepped self pk (if Z.eqb (phase (p_counter p) N k) 0 then evs else []) wk)).
  { by rewrite (execute_point self pk evs wk Hpk) by (simpl; (lia || done)). }
  split; [done|]. split; [done|]. intros Hc. rewrite Hex. simpl. split.
  - intros ->. simpl. rewrite Hc. simpl. by rewrite app_nil_r.
  - intros Hk. destruct k as [|k']; [lia|]. simpl phase. rewrite Hc.
    by replace (1 + Z.of_nat (S k')) with (Z.of_nat (S k') + 1) by lia.
Qed.


End Phase.

(** ** The linking pass *)

Section Linking.
Context `{E : Externals}.

Lemma relinked_refl (w : world) (o : obj) : relinked w o o.
Proof.
  destruct o as [|l| |]; simpl; try done; [|by left].
  exists l. split; [done|]. split; [by destruct l|done].
Qed.

Lemma links_frame_refl (w : world) : links_frame w w.
Proof.
  split; [done|]. split; [done|]. split; [done|].
  intros a o Ho. exists o. split; [done|apply relinked_refl].
Qed.

Lemma relinked_trans (w w' : world) (o1 o2 o3 : obj) :
  labels w' = labels w ->
  relinked w o1 o2 -> relinked w' o2 o3 -> relinked w o1 o3.
Proof.
  intros Hl. destruct o1 as [p|l|j|s]; simpl.
  - by intros -> ->.
  - intros (l2 & -> & Hl2 & Hs2). simpl. intros (l3 & -> & Hl3 & Hs3).
    exists l3. split; [done|]. split; [|set_solver].
    destruct l, l2, l3. unfold l_set_links in *. simpl in *. congruence.
  - intros [->|(la & Hla & ->)]; simpl; rewrite Hl.
    + done.
    + intros [->|(la' & Hla' & ->)]; right; exists la; split; try done.
      rewrite Hla in Hla'. injection Hla' as <-. by destruct j.
  - by intros -> ->.
Qed.

Lemma links_frame_trans (w1 w2 w3 : world) :
  links_frame w1 w2 -> links_frame w2 w3 -> links_frame w1 w3.
Proof.
  intros (Hc1 & Ho1 & Hn1 & Hh1) (Hc2 & Ho2 & Hn2 & Hh2).
  split; [by eapply same_control_trans|]. split; [congruence|].
  split; [congruence|]. intros a o Ho.
  destruct (Hh1 a o Ho) as (o2 & Ho2' & Hr2).
  destruct (Hh2 a o2 Ho2') as (o3 & Ho3 & Hr3).
  exists o3. split; [done|]. eapply relinked_trans; [|done..].
  by destruct Hc1 as [(_ & ? & _) _].
Qed.

Lemma table_ok_frame (w w' : world) :
  links_frame w w' -> table_ok w -> table_ok w'.
Proof.
  intros ([(_ & Hl & _) _] & _ & _ & Hh) Ht n a Hn. rewrite Hl in Hn.
  destruct (Ht n a Hn) as [l Hlab]. destruct (Hh a _ Hlab) as (o' & Ho' & Hr).
  simpl in Hr. destruct Hr as (l' & -> & _). by exists l'.
Qed.

(** One step of the linking pass, on a valid address. *)
Lemma link_step (a : addr) (o : obj) (w : world) :
  table_ok w -> heap w !! a = Some o ->
  fst (Routine.link a w) = Ok tt /\
  links_frame w (snd (Routine.link a w)) /\
  forall j la, o = OJump j -> labels w !! j_label j = Some la ->
    heap (snd (Routine.link a w)) !! a = Some (OJump (j_set_link (Some la) j)) /\
    exists l', heap (snd (Routine.link a w)) !! la = Some (OLabel l') /\
               a ∈ l_links l'.
Proof.
  intros Ht Ho. unfold Routine.link. unfold_monad. rewrite Ho.
  destruct o as [p|l|j|s]; simpl;
    try (split; [done|]; split; [apply links_frame_refl|done]).
  destruct (labels w !! j_label j) as [la|] eqn:Hla.
  - destruct (Ht _ _ Hla) as [l Hl].
    rewrite (jump_bind_found a la j l w Ho Hl Hla). simpl.
    assert (Hne : a <> la) by (intros ->; congruence).
    assert (Ha : (a < length (heap w))%nat) by (by eapply lookup_lt_Some).
    assert (Hb : (la < length (heap w))%nat) by (by eapply lookup_lt_Some).
    split; [done|]. split.
    + split; [done|]. split; [done|]. split; [simpl; by rewrite !length_insert|].
      intros b o Hb'. simpl.
      destruct (decide (b = la)) as [->|Hbl].
      { rewrite list_lookup_insert_eq by (by rewrite length_insert).
        eexists. split; [done|]. rewrite Hl in Hb'. injection Hb' as <-. simpl.
        eexists. split; [done|]. split; [by destruct l|set_solver]. }
      rewrite list_lookup_insert_ne by done.
      destruct (decide (b = a)) as [->|Hba].
      { rewrite list_lookup_insert_eq by done.
        eexists. split; [done|]. rewrite Ho in Hb'. injection Hb' as <-. simpl.
        right. by exists la. }
      rewrite list_lookup_insert_ne by done.
      exists o. split; [done|apply relinked_refl].
    + intros j' la' [= <-] Hla'. rewrite Hla in Hla'. injection Hla' as <-.
      simpl. split.
      * rewrite list_lookup_insert_ne by done.
        rewrite list_lookup_insert_eq by done. done.
      * eexists. split; [by rewrite list_lookup_insert_eq by (by rewrite length_insert)|].
        simpl. set_solver.
  - unfold Jump.bind, Jump.self_jump. unfold_monad. rewrite Ho. simpl. rewrite Hla.
    simpl. split; [done|]. split; [apply links_frame_refl|].
    intros j' la' [= <-] Hla'. congruence.
Qed.

Lemma frame_keeps_bound (a la : addr) (j : jump) (l1 : label) (w1 w' : world) :
  links_frame w1 w' ->
  heap w1 !! a = Some (OJump (j_set_link (Some la) j)) ->
  labels w1 !! j_label j = Some la ->
  heap w1 !! la = Some (OLabel l1) -> a ∈ l_links l1 ->
  heap w' !! a = Some (OJump (j_set_link (Some la) j)) /\
  exists l', heap w' !! la = Some (OLabel l') /\ a ∈ l_links l'.
Proof.
  intros (_ & _ & _ & Hh) Hj Hla Hl Hin. split.
  - destruct (Hh a _ Hj) as (o' & Ho' & Hr). simpl in Hr.
    destruct Hr as [->|(la' & Hla' & ->)]; [done|].
    rewrite Hla in Hla'. injection Hla' as <-. rewrite Ho'. by destruct j.
  - destruct (Hh la _ Hl) as (o' & Ho' & Hr). simpl in Hr.
    destruct Hr as (l' & -> & _ & Hsub). exists l'. split; [done|set_solver].
Qed.

Lemma for_each_link (l : list addr) (w : world) :
  table_ok w -> (forall a, a ∈ l -> is_Some (heap w !! a)) ->
  fst (for_each l Routine.link w) = Ok tt /\
  links_frame w (snd (for_each l Routine.link w)) /\
  forall a j la, a ∈ l -> heap w !! a = Some (OJump j) ->
    labels w !! j_label j = Some la ->
    heap (snd (for_each l Routine.link w)) !! a =
      Some (OJump (j_set_link (Some la) j)) /\
    exists l', heap (snd (for_each l Routine.link w)) !! la = Some (OLabel l') /\
               a ∈ l_links l'.
Proof.
  revert w. induction l as [|b l IH]; intros w Ht Hv.
  { split; [done|]. split; [apply links_frame_refl|].
    intros a j la Ha. by apply elem_of_nil in Ha. }
  destruct (Hv b (list_elem_of_here _ _)) as [ob Hb].
  destruct (link_step b ob w Ht Hb) as (Hok & Hfr & Hbind).
  simpl. unfold_monad.
  destruct (Routine.link b w) as [[[]|e] w1]; simpl in *; [|done].
  assert (Ht1 : table_ok w1) by (by eapply table_ok_frame).
  assert (Hv1 : forall a, a ∈ l -> is_Some (heap w1 !! a)).
  { intros a Ha. destruct (Hv a (list_elem_of_further _ _ _ Ha)) as [o Ho].
    destruct Hfr as (_ & _ & _ & Hh). destruct (Hh a o Ho) as (o' & Ho' & _).
    by exists o'. }
  destruct (IH w1 Ht1 Hv1) as (Hok' & Hfr' & Hbind').
  split; [done|]. split; [by eapply links_frame_trans|].
  intros a j la Ha Hj Hla.
  assert (Hl1 : labels w1 = labels w) by (by destruct Hfr as ([(_ & ? & _) _] & _)).
  apply elem_of_cons in Ha as [->|Ha].
  - rewrite Hb in Hj. injection Hj as ->.
    destruct (Hbind j la eq_refl Hla) as (Hj1 & l1 & Hlab1 & Hin1).
    eapply frame_keeps_bound; try done. by rewrite Hl1.
  - destruct Hfr as (_ & _ & _ & Hh). destruct (Hh a _ Hj) as (o' & Ho' & Hr).
    simpl in Hr. destruct Hr as [->|(la' & Hla' & ->)].
    + apply (Hbind' a j la Ha Ho'). by rewrite Hl1.
    + rewrite Hla in Hla'. injection Hla' as <-.
      destruct (Hbind' a (j_set_link (Some la) j) la Ha Ho') as [Hj' Hl'];
        [by rewrite Hl1|].
      split; [|done]. rewrite Hj'. by destruct j.
Qed.
End Linking.

(** The linking pass over the whole sequence. *)
Lemma link_all_bound `{E : Externals} (w : world) :
  table_ok w ->
  (forall a, a ∈ sequence w -> is_Some (heap w !! a)) ->
  fst (Routine.link_all w) = Ok tt /\
  links_frame w (snd (Routine.link_all w)) /\
  forall a j, a ∈ sequence w -> heap w !! a = Some (OJump j) ->
    match labels w !! j_label j with
    | Some la =>
        heap (snd (Routine.link_all w)) !! a = Some (OJump (j_set_link (Some la) j)) /\
        exists l', heap (snd (Routine.link_all w)) !! la = Some (OLabel l') /\
                   a ∈ l_links l'
    | None => heap (snd (Routine.link_all w)) !! a = Some (OJump j)
    end.
Proof.
  intros Ht Hv. unfold Routine.link_all. unfold_monad.
  destruct (for_each_link (sequence w) w Ht Hv) as (Hok & Hfr & Hbind).
  split; [done|]. split; [done|]. intros a j Ha Hj.
  destruct (labels w !! j_label j) as [la|] eqn:Hla; [by eapply Hbind|].
  destruct Hfr as (_ & _ & _ & Hh). destruct (Hh a _ Hj) as (o' & Ho' & Hr).
  simpl in Hr. destruct Hr as [->|(la' & Hla' & _)]; [done|congruence].
Qed.

(** X4.  The linking pass, in a program whose label table holds Labels
    and whose sequence holds valid components, returns, and whatever
    the order of the rows: every Jump of the sequence whose name is in
    the table is bound to that Label and is in the Label's links; a
    Jump whose name is not in the table is what it was; Labels keep
    name and index, their links only grow; and nothing else in the
    program changes. *)
Theorem link_all_binds `{E : Externals} (w : world) :
  table_ok w ->
  (forall a, a ∈ sequence w -> is_Some (heap w !! a)) ->
  fst (Routine.link_all w) = Ok tt /\
  links_frame w (snd (Routine.link_all w)) /\
  forall a j, a ∈ sequence w -> heap w !! a = Some (OJump j) ->
    match labels w !! j_label j with
    | Some la =>
        heap (snd (Routine.link_all w)) !! a = Some (OJump (j_set_link (Some la) j)) /\
        exists l', heap (snd (Routine.link_all w)) !! la = Some (OLabel l') /\
                   a ∈ l_links l'
    | None => heap (snd (Routine.link_all w)) !! a = Some (OJump j)
    end.
Proof. apply link_all_bound. Qed.

(** ** Compiling never fails on a row *)

Section Total.
Context `{E : Externals} `{!ExternalsCaught E}.

Lemma separate_args_text (rest : list string) :
  Forall is_text (separate_args rest).1 /\
  map_Forall (fun _ v => is_text v) (separate_args rest).2.
Proof.
  induction rest as [|a rest [IH1 IH2]]; simpl.
  { split; [constructor|apply map_Forall_empty]. }
  destruct (separate_args rest) as [args kwargs]. simpl in *.
  destruct (split_at "=" (strip a)) as [[k v]|]; simpl.
  - split; [done|]. destruct (kwargs !! strip k); [done|].
    apply map_Forall_insert_2; [by eexists|done].
  - split; [|done]. constructor; [by eexists|done].
Qed.

Lemma bind_params_text (params : signature) (args : list pyval)
    (kwargs : gmap string pyval) :
  Forall is_text args -> map_Forall (fun _ v => is_text v) kwargs ->
  match bind_params params args kwargs with
  | Ok bound => Forall2 text_or_default params bound
  | Raise e => e = TypeError
  end.
Proof.
  intros Hargs Hkw. revert args Hargs.
  induction params as [|[k d] ps IH]; intros args Hargs; simpl; [constructor|].
  destruct args as [|a args].
  - specialize (IH [] Hargs).
    destruct (kwargs !! k) as [v|] eqn:Hk.
    + destruct (bind_params ps [] kwargs); [|done].
      constructor; [|done]. left. by eapply Hkw.
    + destruct d as [v|]; [|done].
      destruct (bind_params ps [] kwargs); [|done].
      constructor; [|done]. by right.
  - inversion Hargs; subst. specialize (IH args ltac:(done)).
    destruct (kwargs !! k); [done|].
    destruct (bind_params ps args kwargs); [|done].
    constructor; [|done]. by left.
Qed.

Lemma bind_args_text (params : signature) (args : list pyval)
    (kwargs : gmap string pyval) :
  Forall is_text args -> map_Forall (fun _ v => is_text v) kwargs ->
  match bind_args params args kwargs with
  | Ok bound => Forall2 text_or_default params bound
  | Raise e => e = TypeError
  end.
Proof.
  intros Hargs Hkw. unfold bind_args. destruct (_ <? _)%nat; [done|].
  destruct (bool_decide _); [by apply bind_params_text|done].
Qed.

Local Ltac raised := intros [= <- <-]; split; [by auto|done].

(** A constructor that raises on the arguments of a row raises what
    [_eval] catches, and has changed nothing. *)
Lemma construct_caught (first : string) (c : class) (args : list pyval)
    (kwargs : gmap string pyval) (w w1 : world) (e : exn) :
  Forall is_text args -> map_Forall (fun _ v => is_text v) kwargs ->
  Routine.lookup_class first = Some c ->
  Routine.construct c args kwargs w = (Raise e, w1) ->
  (e = ValueError \/ e = TypeError) /\ w1 = w.
Proof.
  intros Hargs Hkw Hc. pose proof (lookup_class_book first c Hc) as Hbook.
  pose proof (bind_args_text (class_params c) args kwargs Hargs Hkw) as Hb.
  assert (Hint : forall d k v, (d = None \/ d = Some (VInt 1)) ->
            text_or_default (k, d) (k, v) -> caught (validate_nonzero_int v)).
  { intros d k v Hd [[s Hs]|Hv];
      [simpl in Hs; subst v; apply validate_nonzero_int_caught|].
    simpl in Hv. destruct Hd as [-> | ->]; [done|].
    injection Hv as <-. apply validate_nonzero_int_one. }
  assert (Hbool : forall d k v, (d = None \/ exists s, d = Some (VStr s)) ->
            text_or_default (k, d) (k, v) -> caught (validate_boolean v)).
  { intros d k v Hd [[s Hs]|Hv];
      [simpl in Hs; subst v; apply validate_boolean_caught|].
    simpl in Hv. destruct Hd as [-> |[s ->]]; [done|].
    injection Hv as <-. apply validate_boolean_caught. }
  assert (Hfloat : forall k v,
            text_or_default (k, None) (k, v) -> caught (py_float v)).
  { intros k v [[s Hs]|Hv]; [simpl in Hs; subst v; apply py_float_caught|done]. }
  unfold Routine.construct. destruct c as [| | | |cls]; simpl in Hb.
  - unfold Point.new, Point.__init__. unfold_monad.
    destruct (bind_args Point.params args kwargs) as [bound|e']; [|subst; raised].
    destruct bound as [|[kx x] [|[ky y] [|[kf fv] [|[ks sv] [|[ka av] [|]]]]]];
      try raised.
    apply Forall2_cons in Hb as [Hx Hb]. apply Forall2_cons in Hb as [Hy Hb].
    apply Forall2_cons in Hb as [Hf Hb]. apply Forall2_cons in Hb as [Hs Hb].
    apply Forall2_cons in Hb as [Ha _].
    pose proof (Hfloat kx x Hx) as Cx. pose proof (Hfloat ky y Hy) as Cy.
    pose proof (Hint _ kf fv (or_intror eq_refl) Hf) as Cf.
    pose proof (Hbool _ ks sv (or_intror (ex_intro _ _ eq_refl)) Hs) as Cs.
    pose proof (Hbool _ ka av (or_intror (ex_intro _ _ eq_refl)) Ha) as Ca.
    destruct (py_float x); [|simpl in Cx; raised].
    destruct (py_float y); [|simpl in Cy; raised].
    destruct (validate_nonzero_int fv); [|simpl in Cf; raised].
    destruct (validate_boolean sv); [|simpl in Cs; raised].
    destruct (validate_boolean av); [|simpl in Ca; raised]. done.
  - unfold Label.new, Label.__init__. unfold_monad.
    destruct (bind_args Label.params args kwargs) as [bound|e']; [|subst; raised].
    destruct bound as [|[? v] [|]]; try raised.
    destruct (labels w !! _); [raised|done].
  - unfold Jump.new, Jump.__init__. unfold_monad.
    destruct (bind_args Jump.params args kwargs) as [bound|e']; [|subst; raised].
    destruct bound as [|[kx x] [|[kf fv] [|[ks sv] [|]]]]; try raised.
    apply Forall2_cons in Hb as [Hx Hb].
    apply Forall2_cons in Hb as [Hf Hb]. apply Forall2_cons in Hb as [Hs Hb].
    pose proof (Hint _ kf fv (or_intror eq_refl) Hf) as Cf.
    pose proof (Hbool _ ks sv (or_intror (ex_intro _ _ eq_refl)) Hs) as Cs.
    destruct (validate_nonzero_int fv); [|simpl in Cf; raised].
    destruct (validate_boolean sv); [|simpl in Cs; raised]. done.
  - unfold Setting.new, Setting.__init__. unfold_monad.
    destruct (bind_args Setting.params args kwargs) as [bound|e']; [|subst; raised].
    destruct bound as [|[kk k] [|[kv v] [|]]]; try raised.
    destruct (SETTING_VALIDATORS !! _) as [validator|] eqn:Hv; [|raised].
    apply Forall2_cons in Hb as [_ Hb]. apply Forall2_cons in Hb as [Hval _].
    destruct Hval as [[s Hs]|Hs]; [|done]. simpl in Hs. subst v.
    pose proof (setting_validator_caught _ validator s Hv) as Cv.
    destruct (validator (VStr s)); [done|simpl in Cv; raised].
  - destruct Hbook as [key Hbook].
    unfold Command.new, Command.build. unfold_monad.
    destruct (bind_args (cls_params cls) args kwargs) as [bound|e'];
      [|subst; raised]. simpl.
    pose proof (cls_init_caught key cls bound Hbook Hb) as Ci.
    destruct (cls_init cls bound) as [[]|]; [done|simpl in Ci; raised].
Qed.

Lemma construct_allocates (c : class) (args : list pyval)
    (kwargs : gmap string pyval) (w wc : world) (a : addr) :
  Routine.construct c args kwargs w = (Ok (Top a), wc) ->
  is_Some (heap wc !! a).
Proof.
  unfold Routine.construct. unfold_monad. destruct c as [| | | |cls].
  - pose proof (point_new_constructs args kwargs w) as Hc.
    destruct (Point.new args kwargs w) as [[a'|] w']; [|done].
    destruct Hc as (o & -> & -> & _). intros [= <- <-]. simpl.
    rewrite list_lookup_middle by done. by eexists.
  - pose proof (label_new_constructs args kwargs w) as Hc.
    destruct (Label.new args kwargs w) as [[a'|] w']; [|done].
    destruct Hc as (o & -> & -> & _). intros [= <- <-]. simpl.
    rewrite list_lookup_middle by done. by eexists.
  - pose proof (jump_new_constructs args kwargs w) as Hc.
    destruct (Jump.new args kwargs w) as [[a'|] w']; [|done].
    destruct Hc as (o & -> & -> & _). intros [= <- <-]. simpl.
    rewrite list_lookup_middle by done. by eexists.
  - pose proof (setting_new_constructs args kwargs w) as Hc.
    destruct (Setting.new args kwargs w) as [[a'|] w']; [|done].
    destruct Hc as (o & -> & -> & _). intros [= <- <-]. simpl.
    rewrite list_lookup_middle by done. by eexists.
  - unfold Command.new. unfold_monad.
    by destruct (Command.build cls args kwargs).
Qed.

(** [_eval] returns on every row. *)
Lemma eval_total (row : list string) (line : Z) (w : world) :
  exists r, fst (Routine._eval row line w) = Ok r.
Proof.
  destruct row as [|r0 rest]; [by eexists|].
  destruct (Routine.lookup_class (lower r0)) as [c|] eqn:Hc.
  - destruct (separate_args_text rest) as [Hargs Hkw].
    destruct (Routine.construct c (separate_args rest).1 (separate_args rest).2 w)
      as [[r|e] wc] eqn:Hcons.
    + rewrite (eval_of_construct r0 rest line c r w wc Hc Hcons); [by eexists|].
      destruct r as [a|]; [by eapply construct_allocates|done].
    + destruct (construct_caught _ c _ _ w wc e Hargs Hkw Hc Hcons) as [He ->].
      unfold Routine._eval. destruct (separate_args rest) as [args kwargs].
      rewrite Hc. unfold try_except. unfold_monad. simpl in Hcons. rewrite Hcons.
      destruct He as [-> | ->]; by eexists.
  - unfold Routine._eval. destruct (separate_args rest) as [args kwargs].
    rewrite Hc. by eexists.
Qed.
End Total.

Section CompileTotal.
Context `{E : Externals} `{!ExternalsCaught E}.

Lemma point_at_heap (w w1 : world) (curr_point : option addr) (os : list obj) :
  heap w1 = heap w ++ os -> point_at w curr_point -> point_at w1 curr_point.
Proof.
  intros Hh. destruct curr_point as [p|]; [|done]. intros [pt Hp].
  exists pt. rewrite Hh, lookup_app_l; [done|]. by eapply lookup_lt_Some.
Qed.

(** The loop of [compile] returns. *)
Lemma compile_rows_total (rows : list (list string)) (curr_point : option addr)
    (line : Z) (w : world) :
  point_at w curr_point ->
  let r := Routine.compile_rows rows curr_point line w in
  fst r = Ok tt /\
  path (snd r) = path w /\ index (snd r) = index w /\
  enabled (snd r) = enabled w /\
  sequence w `prefix_of` sequence (snd r) /\
  (length (heap w) <= length (heap (snd r)))%nat.
Proof.
  cbv zeta. revert curr_point line w.
  induction rows as [|row rows IH]; intros cp line w Hcp; simpl.
  { done. }
  unfold_monad. pose proof (eval_effect_holds row line w) as He.
  destruct (eval_total row line w) as [r Hr].
  unfold eval_effect in He.
  destruct (Routine._eval row line w) as [[res|e] w1]; [clear Hr|done].
  destruct He as (Hs & Hp & Hi & Hen & He).
  destruct res as [[a|c]|].
  - destruct He as (o & -> & Hh & _).
    unfold Routine.append, Routine.update. unfold_monad. simpl.
    rewrite Hh, list_lookup_middle by done. simpl.
    match goal with
    | |- context [Routine.compile_rows rows ?cp' _ ?w2] =>
        assert (Hcp2 : point_at w2 cp');
        [|destruct (IH cp' (line + 1) w2 Hcp2) as (Hok & Hp' & Hi' & Hen' & Hs' & Hh')]
    end.
    { destruct o;
        try (eapply (point_at_heap w _ cp); [simpl; exact Hh|exact Hcp]).
      unfold point_at. eexists. simpl. rewrite Hh. by apply list_lookup_middle. }
    simpl in *. split; [done|]. rewrite Hp', Hi', Hen'.
    repeat (split; [done|]). split.
    + etrans; [|exact Hs']. rewrite Hs. by apply prefix_app_r.
    + rewrite Hh, length_app in Hh'. lia.
  - destruct He as [Hh _].
    assert (Hcp1 : point_at w1 cp).
    { apply (point_at_heap w w1 cp []); [by rewrite app_nil_r|done]. }
    destruct cp as [p|].
    + destruct Hcp1 as [pt Hpt].
      unfold Routine.append_command, Point.self_point. unfold_monad.
      rewrite Hpt. simpl.
      match goal with
      | |- context [Routine.compile_rows rows ?cp' _ ?w2] =>
          assert (Hcp2 : point_at w2 cp');
          [|destruct (IH cp' (line + 1) w2 Hcp2) as (Hok & Hp' & Hi' & Hen' & Hs' & Hh')]
      end.
      { unfold point_at. eexists. simpl. apply list_lookup_insert_eq.
        by eapply lookup_lt_Some. }
      simpl in *. split; [done|]. rewrite Hp', Hi', Hen'.
      repeat (split; [done|]). split; [by rewrite <- Hs|].
      rewrite length_insert in Hh'. rewrite <- Hh. exact Hh'.
    + destruct (IH None (line + 1) w1 I) as (Hok & Hp' & Hi' & Hen' & Hs' & Hh').
      split; [done|]. rewrite Hp', Hi', Hen'.
      repeat (split; [done|]). split; [by rewrite <- Hs|by rewrite <- Hh].
  - destruct He as [Hh _].
    assert (Hcp1 : point_at w1 cp).
    { apply (point_at_heap w w1 cp []); [by rewrite app_nil_r|done]. }
    destruct (IH cp (line + 1) w1 Hcp1) as (Hok & Hp' & Hi' & Hen' & Hs' & Hh').
    split; [done|]. rewrite Hp', Hi', Hen'.
    repeat (split; [done|]). split; [by rewrite <- Hs|by rewrite <- Hh].
Qed.

End CompileTotal.

(** ** What compiling establishes *)

Section CompileIndexes.
Context `{E : Externals}.

(** A Jump that [_eval] returns is not bound. *)
Lemma eval_fresh (row : list string) (line : Z) (w w1 : world) (a : addr)
    (j : jump) :
  Routine._eval row line w = (Ok (Some (Top a)), w1) ->
  heap w1 !! a = Some (OJump j) -> j_link j = None.
Proof.
  destruct row as [|r0 rest]; [done|]. intros Hev.
  destruct (eval_some_inv r0 rest line (Top a) w w1 Hev)
    as (c & wc & _ & Hcons & ->).
  destruct (separate_args rest) as [args kwargs]. simpl in Hcons.
  revert Hcons. unfold Routine.construct. unfold_monad.
  destruct c as [| | | |cls].
  - destruct (Point.new args kwargs w) as [[a'|e] w'] eqn:Hn; [|done].
    intros [= -> ->].
    destruct (point_new_fields _ _ _ _ _ Hn) as (p & ? & ? & ? & Hp & _).
    unfold registered. rewrite Hp. congruence.
  - pose proof (label_new_constructs args kwargs w) as Hc.
    destruct (Label.new args kwargs w) as [[a'|e] w'] eqn:Hn; [|done].
    intros [= -> ->]. destruct Hc as (o & -> & -> & l & -> & _).
    unfold registered. simpl. rewrite list_lookup_middle by done. simpl.
    rewrite insert_last, list_lookup_middle by done. congruence.
  - destruct (Jump.new args kwargs w) as [[a'|e] w'] eqn:Hn; [|done].
    intros [= -> ->].
    destruct (jump_new_fields _ _ _ _ _ Hn) as (j' & ? & ? & ? & Hj & _ & _ & _ & Hl).
    unfold registered. rewrite Hj. congruence.
  - pose proof (setting_new_constructs args kwargs w) as Hc.
    destruct (Setting.new args kwargs w) as [[a'|e] w'] eqn:Hn; [|done].
    intros [= -> ->]. destruct Hc as (o & -> & -> & st & ->).
    unfold registered. simpl. rewrite list_lookup_middle by done. simpl.
    rewrite list_lookup_middle by done. congruence.
  - by destruct (Command.new cls args kwargs w) as [[?|?] ?].
Qed.

Lemma compiled_same (w w1 : world) :
  heap w1 = heap w -> sequence w1 = sequence w -> labels w1 = labels w ->
  labels_registered w /\ labels_indexed w /\ jumps_unbound w ->
  labels_registered w1 /\ labels_indexed w1 /\ jumps_unbound w1.
Proof.
  intros Hh Hs Hl. unfold labels_registered, labels_indexed, jumps_unbound.
  by rewrite Hh, Hs, Hl.
Qed.

Lemma compile_rows_compiled (rows : list (list string)) (curr_point : option addr)
    (line : Z) (w : world) :
  labels_registered w /\ labels_indexed w /\ jumps_unbound w ->
  let w' := snd (Routine.compile_rows rows curr_point line w) in
  labels_registered w' /\ labels_indexed w' /\ jumps_unbound w'.
Proof.
  cbv zeta. revert curr_point line w.
  induction rows as [|row rows IH]; intros cp line w Hw; simpl; [done|].
  unfold_monad. pose proof (eval_effect_holds row line w) as He.
  unfold eval_effect in He.
  destruct (Routine._eval row line w) as [[[[a|c]|]|e] w1] eqn:Hev;
    destruct He as (Hs & _ & _ & _ & He).
  - destruct He as (o & -> & Hh & Hl). destruct Hw as (Hreg & Hidx & Hun).
    unfold Routine.append, Routine.update. unfold_monad. simpl.
    rewrite Hh, list_lookup_middle by done. simpl.
    apply IH. split; [|split].
    + apply (append_new_keeps o w w1); [done|done| |done].
      destruct o; try done. by destruct Hl as (? & ? & _).
    + intros i a' l. simpl. rewrite Hs, Hh. intros Hi Hl'.
      apply lookup_app_Some in Hi as [Hi|[Hlen Hi]].
      * assert (Ha : a' ∈ sequence w) by (by eapply list_elem_of_lookup_2).
        rewrite lookup_app_l in Hl' by (by apply Hreg). by eapply Hidx.
      * apply list_lookup_singleton_Some in Hi as [Hi <-].
        rewrite list_lookup_middle in Hl' by done. injection Hl' as ->.
        destruct Hl as (_ & _ & ->). unfold Routine.__len__.
        do 2 f_equal. lia.
    + intros a' j. simpl. rewrite Hs.
      intros [Ha| ->%list_elem_of_singleton]%elem_of_app Hj.
      * rewrite Hh, lookup_app_l in Hj by (by apply Hreg). by eapply Hun.
      * by eapply eval_fresh.
  - destruct He as [Hh Hl].
    pose proof (compiled_same w w1 Hh Hs Hl Hw) as Hw1.
    destruct cp as [p|]; [|by apply IH].
    pose proof (append_command_keeps p c w1) as [_ Hk]. revert Hk.
    unfold Routine.append_command, Point.self_point. unfold_monad.
    destruct (heap w1 !! p) as [[pt| | |]|] eqn:Hp; simpl; try done.
    intros Hk. apply IH. destruct Hw1 as (Hreg & Hidx & Hun).
    split; [by apply Hk|]. split.
    + intros i a' l Hi. simpl in *. intros Hl'. apply (Hidx i a' l Hi).
      destruct (decide (p = a')) as [->|Hne].
      * rewrite list_lookup_insert_eq in Hl' by (by eapply lookup_lt_Some). done.
      * by rewrite list_lookup_insert_ne in Hl'.
    + intros a' j Ha. simpl in *. intros Hj. apply (Hun a' j Ha).
      destruct (decide (p = a')) as [->|Hne].
      * rewrite list_lookup_insert_eq in Hj by (by eapply lookup_lt_Some). done.
      * by rewrite list_lookup_insert_ne in Hj.
  - destruct He as [Hh Hl]. apply IH. by apply (compiled_same w w1).
  - destruct He as [Hh Hl]. by apply (compiled_same w w1).
Qed.

(** X6.  What [compile]'s loop keeps, and so establishes from an empty
    sequence: in a program whose Labels are registered, every Label of
    the sequence has its own position in the sequence as its index, so
    that a transfer to it continues at the Label itself; and no Jump of
    the sequence is bound before the linking pass. *)
Theorem compile_rows_indexes (rows : list (list string)) (curr_point : option addr)
    (line : Z) (w : world) :
  labels_registered w -> labels_indexed w -> jumps_unbound w ->
  let w' := snd (Routine.compile_rows rows curr_point line w) in
  labels_registered w' /\ labels_indexed w' /\ jumps_unbound w'.
Proof. intros Hreg Hidx Hun. by apply compile_rows_compiled. Qed.
End CompileIndexes.

(** ** Loading a routine *)

Section Linked.
Context `{E : Externals}.

Lemma links_frame_back (w w' : world) (a : addr) (o' : obj) :
  links_frame w w' -> heap w' !! a = Some o' ->
  exists o, heap w !! a = Some o /\ relinked w o o'.
Proof.
  intros (_ & _ & Hlen & Hh) Ho'.
  destruct (lookup_lt_is_Some_2 (heap w) a) as [o Ho].
  { rewrite <- Hlen. by eapply lookup_lt_Some. }
  destruct (Hh a o Ho) as (o'' & Ho'' & Hr).
  exists o. split; [done|]. congruence.
Qed.

Lemma relinked_label (w : world) (o : obj) (l' : label) :
  relinked w o (OLabel l') ->
  exists l, o = OLabel l /\ l_label l = l_label l' /\ l_index l = l_index l'.
Proof.
  destruct o as [|l| |]; simpl; try done.
  - intros (l'' & [= <-] & <- & _). by exists (l_set_links (l_links l) l').
  - by intros [|(? & _ & ?)].
Qed.

Lemma links_frame_registered (w w' : world) :
  links_frame w w' -> labels_registered w -> labels_registered w'.
Proof.
  intros Hfr (Hnd & Hlt & Hreg & Htab).
  pose proof Hfr as ([(Hs & Hl & _) _] & _ & Hlen & Hh).
  unfold labels_registered. rewrite Hs, Hl, Hlen.
  split; [done|]. split; [done|]. split.
  - intros a l' Ha Hl'.
    destruct (links_frame_back w w' a _ Hfr Hl') as (o & Ho & Hr).
    apply relinked_label in Hr as (l & -> & <- & _). by apply Hreg.
  - intros n a Hn. destruct (Htab n a Hn) as (Ha & l & Hlab & Hname).
    split; [done|]. destruct (Hh a _ Hlab) as (o' & Ho' & Hr).
    simpl in Hr. destruct Hr as (l' & -> & Hl' & _).
    exists l'. split; [done|]. by rewrite <- Hname, <- Hl'.
Qed.

Lemma links_frame_indexed (w w' : world) :
  links_frame w w' -> labels_indexed w -> labels_indexed w'.
Proof.
  intros Hfr Hidx i a l' Hi Hl'.
  pose proof Hfr as ([(Hs & _) _] & _). rewrite Hs in Hi.
  destruct (links_frame_back w w' a _ Hfr Hl') as (o & Ho & Hr).
  apply relinked_label in Hr as (l & -> & _ & <-). by eapply Hidx.
Qed.

(** The linking pass in a compiled program. *)
Lemma link_all_linked (w : world) :
  labels_registered w -> jumps_unbound w ->
  fst (Routine.link_all w) = Ok tt /\
  links_frame w (snd (Routine.link_all w)) /\
  jumps_linked (snd (Routine.link_all w)).
Proof.
  intros Hreg Hun. pose proof Hreg as (_ & Hlt & _ & Htab).
  destruct (link_all_bound w) as (Hok & Hfr & Hbind).
  { intros n a Hn. destruct (Htab n a Hn) as (_ & l & Hl & _). by exists l. }
  { intros a Ha. apply lookup_lt_is_Some_2. by apply Hlt. }
  split; [done|]. split; [done|].
  pose proof Hfr as ([(Hs & Hl & _) _] & _).
  intros a j' Ha Hj'. rewrite Hs in Ha. rewrite Hl.
  destruct (links_frame_back w _ a _ Hfr Hj') as (o & Ho & Hr).
  assert (Hj : exists j, o = OJump j) .
  { destruct o as [|l|j|]; simpl in Hr; try done; [|by exists j].
    by destruct Hr as (? & ? & _). }
  destruct Hj as [j ->]. specialize (Hbind a j Ha Ho).
  pose proof (Hun a j Ha Ho) as Hnone.
  destruct (labels w !! j_label j) as [la|] eqn:Hla.
  - destruct Hbind as [Hb Hback]. rewrite Hb in Hj'. injection Hj' as <-.
    simpl. by rewrite Hla.
  - rewrite Hbind in Hj'. injection Hj' as <-. by rewrite Hla.
Qed.

Lemma loaded_same (w w1 : world) :
  heap w1 = heap w -> sequence w1 = sequence w -> labels w1 = labels w ->
  labels_registered w /\ labels_indexed w /\ jumps_linked w ->
  labels_registered w1 /\ labels_indexed w1 /\ jumps_linked w1.
Proof.
  intros Hh Hs Hl. unfold labels_registered, labels_indexed, jumps_linked.
  by rewrite Hh, Hs, Hl.
Qed.
End Linked.

Section Loading.
Context `{E : Externals}.

Lemma load_file_rejects (f : string) (w : world) :
  snd (path_splitext f) <> ".csv" ->
  fst (Routine.load_file f w) = Ok false /\
  same_state w (snd (Routine.load_file f w)).
Proof.
  intros Hext. unfold Routine.load_file.
  destruct (String.eqb_spec (snd (path_splitext f)) ".csv") as [|_]; [done|].
  simpl. unfold_monad. split; [done|]. by repeat split.
Qed.

Lemma load_file_unreadable (f : string) (w : world) :
  snd (path_splitext f) = ".csv" -> files !! f = None ->
  let r := Routine.load_file f w in
  fst r = Raise OSError /\
  sequence (snd r) = [] /\ labels (snd r) = ∅ /\ index (snd r) = Some 0 /\
  heap (snd r) = heap w /\ path (snd r) = path w /\ enabled (snd r) = enabled w.
Proof.
  intros Hext Hfile. cbv zeta. unfold Routine.load_file. rewrite Hext.
  rewrite String.eqb_refl. simpl.
  unfold Routine.set, Routine.update, Routine.compile. unfold_monad.
  rewrite Hfile. by simpl.
Qed.

Lemma load_file_loads `{!ExternalsCaught E} (f text : string) (w : world) :
  snd (path_splitext f) = ".csv" -> files !! f = Some text ->
  let r := Routine.load_file f w in
  fst r = Ok true /\
  path (snd r) = f /\ index (snd r) = Some 0 /\ enabled (snd r) = enabled w /\
  labels_registered (snd r) /\ labels_indexed (snd r) /\ jumps_linked (snd r).
Proof.
  intros Hext Hfile. cbv zeta. unfold Routine.load_file. rewrite Hext.
  rewrite String.eqb_refl. simpl.
  unfold Routine.set, Routine.update, Routine.compile. unfold_monad.
  rewrite Hfile. simpl.
  match goal with
  | |- context [Routine.compile_rows ?rows None 1 ?w0] =>
      pose proof (compile_rows_total rows None 1 w0 I) as Hret;
      pose proof (compile_rows_compiled rows None 1 w0) as Hcomp;
      destruct (Routine.compile_rows rows None 1 w0) as [r1 w1]
  end.
  cbv zeta in Hret, Hcomp. simpl in Hret, Hcomp.
  destruct Hret as (-> & Hp & Hi & Hen & _).
  destruct Hcomp as (Hreg & Hidx & Hun).
  { split; [by apply labels_registered_empty|]. split.
    - by intros i a l Hi'.
    - intros a j Ha. by apply elem_of_nil in Ha. }
  destruct (link_all_linked w1 Hreg Hun) as (Hok & Hfr & Hlinked).
  destruct (Routine.link_all w1) as [r2 w2]. simpl in Hok, Hfr, Hlinked.
  subst r2. simpl.
  pose proof Hfr as ([(_ & _ & _ & Hen2) Hi2] & _).
  split; [done|]. split; [done|]. split; [by rewrite Hi2|].
  split; [by rewrite Hen2|].
  apply (loaded_same w2); try done.
  split; [by eapply links_frame_registered|].
  split; [by eapply links_frame_indexed|done].
Qed.

(** X7.  [load] of a readable [.csv] file, the one given or, that being
    empty, the path of the routine, returns [True] whatever the rows
    hold, when the collaborators raise nothing but what [_eval] catches:
    the routine then has the file as its path and 0 as its program
    counter; its sequence holds each component once, with every Label
    registered under its name; every Label has its position in the
    sequence as its index; and a Jump is bound, to the Label the table
    has under its name and with itself among that Label's links, exactly
    if the table has its name, wherever the Label is in the file. *)
Theorem load_loads `{!ExternalsCaught E} (f text : string) (w : world) :
  truthy (VStr (chosen_file f w)) = true ->
  snd (path_splitext (chosen_file f w)) = ".csv" ->
  files !! chosen_file f w = Some text ->
  let r := Routine.load (VStr f) w in
  fst r = Ok true /\
  path (snd r) = chosen_file f w /\ index (snd r) = Some 0 /\
  enabled (snd r) = enabled w /\
  labels_registered (snd r) /\ labels_indexed (snd r) /\ jumps_linked (snd r).
Proof.
  unfold chosen_file. intros Hg Hext Hfile. cbv zeta.
  unfold Routine.load. unfold_monad. simpl in *.
  destruct (String.eqb f EmptyString); simpl in *.
  - rewrite Hg. unfold_monad.
    match goal with
    | |- context [Routine.load_file _ ?w0] =>
        apply (load_file_loads (path w) text w0 Hext Hfile)
    end.
  - match goal with
    | |- context [Routine.load_file _ ?w0] =>
        apply (load_file_loads f text w0 Hext Hfile)
    end.
Qed.

(** X8.  [load] of a file that is not a [.csv] file, or of no file by
    a routine that has no path, returns [False] and leaves the routine
    as it is: sequence, label table, program counter and path are
    those of before. *)
Theorem load_rejects (f : string) (w : world) :
  truthy (VStr (chosen_file f w)) = false \/
  snd (path_splitext (chosen_file f w)) <> ".csv" ->
  fst (Routine.load (VStr f) w) = Ok false /\
  same_state w (snd (Routine.load (VStr f) w)).
Proof.
  unfold chosen_file. intros Hg.
  unfold Routine.load. unfold_monad. simpl in *.
  destruct (String.eqb f EmptyString) eqn:Hf; rewrite ?Hf in Hg; simpl in *.
  - destruct (negb (String.eqb (path w) EmptyString)) eqn:Hp;
      [|simpl; split; [done|]; by repeat split].
    destruct Hg as [Hg|Hext]; [congruence|]. unfold_monad.
    match goal with
    | |- context [Routine.load_file _ ?w0] =>
        apply (load_file_rejects (path w) w0 Hext)
    end.
  - destruct Hg as [Hg|Hext]; [by rewrite Hf in Hg|].
    match goal with
    | |- context [Routine.load_file _ ?w0] =>
        apply (load_file_rejects f w0 Hext)
    end.
Qed.

(** X9.  [load] of a [.csv] file that cannot be opened raises the
    error of [open], and only after the routine has been emptied: the
    sequence is empty, the label table is empty and the program counter
    is 0, while the path is still that of the routine loaded before. *)
Theorem load_unreadable (f : string) (w : world) :
  truthy (VStr (chosen_file f w)) = true ->
  snd (path_splitext (chosen_file f w)) = ".csv" ->
  files !! chosen_file f w = None ->
  let r := Routine.load (VStr f) w in
  fst r = Raise OSError /\
  sequence (snd r) = [] /\ labels (snd r) = ∅ /\ index (snd r) = Some 0 /\
  heap (snd r) = heap w /\ path (snd r) = path w /\ enabled (snd r) = enabled w.
Proof.
  unfold chosen_file. intros Hg Hext Hfile. cbv zeta.
  unfold Routine.load. unfold_monad. simpl in *.
  destruct (String.eqb f EmptyString); simpl in *.
  - rewrite Hg. unfold_monad.
    match goal with
    | |- context [Routine.load_file _ ?w0] =>
        apply (load_file_unreadable (path w) w0 Hext Hfile)
    end.
  - match goal with
    | |- context [Routine.load_file _ ?w0] =>
        apply (load_file_unreadable f w0 Hext Hfile)
    end.
Qed.
End Loading.

(** ** The properties on the sample environment *)

Lemma sample_externals_caught : ExternalsCaught Sample.externals.
Proof.
  assert (Hint : forall v, caught (Sample.py_int v) ->
                           caught (Sample.validate_nonzero_int v)).
  { intros v. unfold Sample.validate_nonzero_int.
    destruct (Sample.py_int v) as [n|]; [|done]. intros _. simpl.
    destruct (Z.leb 1 n); [done|by left]. }
  assert (Hbool : forall s, caught (Sample.validate_boolean (VStr s))).
  { intros s. simpl. destruct (String.eqb (lower s) "true"); [done|].
    destruct (String.eqb (lower s) "false"); [done|by left]. }
  split; simpl.
  - intros s. destruct (Sample.int_of_str s); [done|by left].
  - intros s. apply Hint. simpl. destruct (Sample.int_of_str s); [done|by left].
  - done.
  - exact Hbool.
  - intros key validator s. unfold Sample.SETTING_VALIDATORS.
    intros [_ <-]%lookup_singleton_Some.
    specialize (Hbool s). by destruct (Sample.validate_boolean (VStr s)).
  - intros key cls bound. unfold Sample.command_book.
    intros [[_ <-]|[_ Hk]]%lookup_insert_Some _; [done|].
    by apply lookup_singleton_Some in Hk as [_ <-].
Qed.

#[global] Existing Instance sample_externals_caught.

Lemma waypoint_phase_witness :
  let w := Sample.linked [["*"; "100"; "200"; "frequency=3"; "skip=True"]] in
  let w0 := set_enabled true w in
  let w2 := set_enabled true (executions 0%nat [true; false; true] w) in
  exists mv,
    out (snd (execute 0%nat w0)) = out w0 /\
    out (snd (execute 0%nat w2)) = out w2 ++ [Execute mv].
Proof.
  intros w w0 w2.
  assert (Hp : exists p mv, heap w !! 0%nat = Some (OPoint p) /\ p_counter p = 1 /\
                 p_frequency p = 3 /\ fire_events p = Some [Execute mv]).
  { do 2 eexists. split; [vm_compute; reflexivity|]. repeat split. }
  destruct Hp as (p & mv & Hp & Hc & Hf & Hev). exists mv.
  destruct (waypoint_phase 0%nat p [Execute mv] w [] Hp ltac:(lia) Hev)
    as (_ & _ & H0).
  destruct (waypoint_phase 0%nat p [Execute mv] w [true; false; true]
              Hp ltac:(lia) Hev) as (_ & _ & H2).
  destruct (H0 Hc) as [H0' _]. destruct (H2 Hc) as [_ H2'].
  split; [exact (H0' eq_refl)|].
  rewrite Hf in H2'. apply H2'. vm_compute. lia.
Defined.


Lemma link_all_binds_witness :
  let w := snd (Routine.compile_rows [[">"; "end"]; ["@"; "end"]] None 1
                  (Routine.__init__ true)) in
  let w' := snd (Routine.link_all w) in
  exists j l',
    heap w !! 0%nat = Some (OJump j) /\ j_link j = None /\
    heap w' !! 0%nat = Some (OJump (j_set_link (Some 1%nat) j)) /\
    heap w' !! 1%nat = Some (OLabel l') /\ 0%nat ∈ l_links l'.
Proof.
  intros w w'.
  assert (Hreg : labels_registered w).
  { pose proof (compile_rows_keeps [[">"; "end"]; ["@"; "end"]] None 1
                  (Routine.__init__ true)) as [_ Hk].
    apply Hk. apply labels_registered_empty; reflexivity. }
  destruct Hreg as (_ & Hlt & _ & Htab).
  assert (Hj : exists j, heap w !! 0%nat = Some (OJump j) /\ j_link j = None /\
                         labels w !! j_label j = Some 1%nat).
  { eexists. split; [vm_compute; reflexivity|]. split; vm_compute; reflexivity. }
  destruct Hj as (j & Hj & Hnone & Hla).
  assert (Hs : sequence w = [0%nat; 1%nat]) by (vm_compute; reflexivity).
  destruct (link_all_binds w) as (_ & _ & Hb).
  - intros n a Hn. destruct (Htab n a Hn) as (_ & l & Hl & _). by exists l.
  - intros a Ha. apply lookup_lt_is_Some_2. by apply Hlt.
  - specialize (Hb 0%nat j). rewrite Hla, Hs in Hb.
    destruct (Hb ltac:(apply list_elem_of_here) Hj) as (Hj' & l' & Hl' & Hin).
    by exists j, l'.
Defined.


Lemma compile_rows_indexes_witness :
  let w' := snd (Routine.compile_rows Sample.scenario None 1 (Routine.__init__ true)) in
  labels_registered w' /\ labels_indexed w' /\ jumps_unbound w'.
Proof.
  apply (compile_rows_indexes Sample.scenario None 1 (Routine.__init__ true)).
  - apply labels_registered_empty; reflexivity.
  - intros i a l Hi. simpl in Hi. by rewrite lookup_nil in Hi.
  - intros a j Ha. simpl in Ha. by apply elem_of_nil in Ha.
Defined.

Lemma load_loads_witness :
  let r := Routine.load (VStr "routine.csv") (Routine.__init__ false) in
  fst r = Ok true /\ path (snd r) = "routine.csv" /\ index (snd r) = Some 0 /\
  labels_registered (snd r) /\ labels_indexed (snd r) /\ jumps_linked (snd r).
Proof.
  intros r.
  destruct (load_loads "routine.csv" Sample.routine_csv (Routine.__init__ false))
    as (Hok & Hp & Hi & _ & Hreg & Hidx & Hl).
  - reflexivity.
  - vm_compute. reflexivity.
  - vm_compute. reflexivity.
  - exact (conj Hok (conj Hp (conj Hi (conj Hreg (conj Hidx Hl))))).
Defined.

Lemma load_rejects_witness :
  let w := Routine.__init__ true in
  fst (Routine.load (VStr "routine.txt") w) = Ok false /\
  same_state w (snd (Routine.load (VStr "routine.txt") w)).
Proof.
  intros w. apply (load_rejects "routine.txt" w).
  right. vm_compute. discriminate.
Defined.

Lemma load_unreadable_witness :
  let w := snd (Routine.load (VStr "routine.csv") (Routine.__init__ true)) in
  let r := Routine.load (VStr "missing.csv") w in
  fst r = Raise OSError /\ sequence (snd r) = [] /\ labels (snd r) = ∅ /\
  path (snd r) = "routine.csv".
Proof.
  intros w r.
  destruct (load_unreadable "missing.csv" w) as (Hr & Hs & Hl & _ & _ & Hp & _).
  - reflexivity.
  - vm_compute. reflexivity.
  - vm_compute. reflexivity.
  - split; [exact Hr|]. split; [exact Hs|]. split; [exact Hl|].
    etrans; [exact Hp|]. vm_compute. reflexivity.
Defined.

(** ** The scenario of four rows *)

Section Scenario.
Context `{E : Externals}.

Lemma lookup_app_plus {A} (l1 l2 : list A) (i : nat) :
  (l1 ++ l2) !! (i + length l1)%nat = l2 !! i.
Proof.
  induction l1 as [|x l1 IH]; simpl; [by rewrite Nat.add_0_r|].
  by rewrite Nat.add_succ_r.
Qed.

(** The loop of [compile] over the four rows, from any state in which
    the name [start] is free. *)
Lemma scenario_rows_from (f1 f2 f3 f4 : pyfloat) (line : Z) (w : world) :
  py_float (VStr "100") = Ok f1 -> py_float (VStr "200") = Ok f2 ->
  py_float (VStr "300") = Ok f3 -> py_float (VStr "400") = Ok f4 ->
  validate_nonzero_int (VInt 1) = Ok 1 ->
  validate_boolean (VStr "False") = Ok false ->
  labels w !! "start" = None ->
  let n := length (heap w) in
  exists w',
    Routine.compile_rows Sample.scenario None line w = (Ok tt, w') /\
    heap w' = heap w ++ [Sample.scenario_point "100" "200" f1 f2;
                         Sample.scenario_label (Routine.__len__ w + 1) ∅;
                         Sample.scenario_jump None;
                         Sample.scenario_point "300" "400" f3 f4] /\
    sequence w' = sequence w ++ [n; S n; S (S n); S (S (S n))] /\
    labels w' = <["start" := S n]> (labels w) /\
    path w' = path w /\ index w' = index w /\ enabled w' = enabled w.
Proof.
  intros H1 H2 H3 H4 Hf Hb Hfree n. eexists. split.
  - unfold Sample.scenario.
    erewrite compile_rows_top;
      [|eapply eval_point_row; [reflexivity|vm_compute; reflexivity|eassumption..]
       |simpl; by apply list_lookup_middle].
    erewrite compile_rows_top;
      [|eapply eval_label_row; [reflexivity|vm_compute; reflexivity|exact Hfree]
       |simpl; by apply list_lookup_middle].
    erewrite compile_rows_top;
      [|eapply eval_jump_row; [reflexivity|vm_compute; reflexivity|eassumption..]
       |simpl; by apply list_lookup_middle].
    erewrite compile_rows_top;
      [|eapply eval_point_row; [reflexivity|vm_compute; reflexivity|eassumption..]
       |simpl; by apply list_lookup_middle].
    reflexivity.
  - simpl. unfold Routine.__len__. simpl.
    rewrite !length_app. simpl. rewrite <- !app_assoc. simpl.
    subst n. rewrite !Nat.add_1_r.
    split; [|done]. unfold Sample.scenario_label.
    replace (Z.of_nat (length (sequence w)) + 1) with
      (Z.of_nat (S (length (sequence w)))) by lia. done.
Qed.
Lemma scenario_load_file (file text : string) (f1 f2 f3 f4 : pyfloat) (w : world) :
  snd (path_splitext file) = ".csv" ->
  files !! file = Some text -> csv_reader text = Sample.scenario ->
  py_float (VStr "100") = Ok f1 -> py_float (VStr "200") = Ok f2 ->
  py_float (VStr "300") = Ok f3 -> py_float (VStr "400") = Ok f4 ->
  validate_nonzero_int (VInt 1) = Ok 1 ->
  validate_boolean (VStr "False") = Ok false ->
  let n := length (heap w) in
  let r := Routine.load_file file w in
  fst r = Ok true /\
  sequence (snd r) = [n; S n; S (S n); S (S (S n))] /\
  labels (snd r) = {[ "start" := S n ]} /\
  (exists l, heap (snd r) !! S n = Some (OLabel l) /\ l_label l = "start" /\
             l_index l = Some 1 /\ S (S n) ∈ l_links l) /\
  heap (snd r) !! S (S n) = Some (Sample.scenario_jump (Some (S n))) /\
  index (snd r) = Some 0 /\ path (snd r) = file /\ enabled (snd r) = enabled w.
Proof.
  intros Hext Hfile Hcsv H1 H2 H3 H4 Hf Hb. cbv zeta.
  unfold Routine.load_file. rewrite Hext, String.eqb_refl. simpl.
  unfold Routine.set, Routine.update, Routine.compile. unfold_monad.
  rewrite Hfile. simpl.
  match goal with
  | |- context [Routine.compile_rows (csv_reader text) None 1 ?w0] =>
      destruct (scenario_rows_from f1 f2 f3 f4 1 w0 H1 H2 H3 H4 Hf Hb)
        as (w4 & Hrows & Hheap & Hseq & Hlab & Hp & Hi & Hen);
        [apply lookup_empty|];
      pose proof (compile_rows_compiled (csv_reader text) None 1 w0) as Hcomp
  end.
  rewrite <- Hcsv in Hrows. cbv zeta in Hcomp. rewrite Hrows in *.
  simpl in Hheap, Hseq, Hlab, Hp, Hi, Hen, Hcomp.
  destruct Hcomp as (Hreg & _).
  { split; [by apply labels_registered_empty|]. split.
    - by intros i a l Hi'.
    - intros a j Ha. by apply elem_of_nil in Ha. }
  destruct Hreg as (_ & Hlt & _ & Htab).
  destruct (link_all_bound w4) as (Hok & Hfr & Hbind).
  { intros k a Hk. destruct (Htab k a Hk) as (_ & l & Hl & _). by exists l. }
  { intros a Ha. apply lookup_lt_is_Some_2. by apply Hlt. }
  assert (Hl4 : heap w4 !! S (length (heap w)) =
                  Some (Sample.scenario_label 1 ∅)).
  { rewrite Hheap. by rewrite (lookup_app_plus (heap w) _ 1). }
  assert (Hj4 : heap w4 !! S (S (length (heap w))) =
                  Some (Sample.scenario_jump None)).
  { rewrite Hheap. by rewrite (lookup_app_plus (heap w) _ 2). }
  specialize (Hbind (S (S (length (heap w)))) _
              ltac:(rewrite Hseq; by apply (list_elem_of_lookup_2 _ 2%nat)) Hj4).
  simpl in Hbind. rewrite Hlab, lookup_insert_eq in Hbind.
  destruct Hbind as (Hj5 & l' & Hl5 & Hin).
  pose proof Hfr as ([(Hs5 & Hlab5 & _ & Hen5) Hi5] & _ & _ & Hh).
  unfold Sample.scenario_label in Hl4.
  destruct (Hh _ _ Hl4) as (o' & Ho' & Hr). rewrite Hl5 in Ho'.
  injection Ho' as <-. simpl in Hr. destruct Hr as (l'' & Heq & Hsame & _).
  injection Heq as <-.
  destruct (Routine.link_all w4) as [r5 w5]. simpl in *. subst r5. simpl.
  split; [done|]. split; [by rewrite Hs5, Hseq|].
  split; [by rewrite Hlab5, Hlab, insert_empty|].
  split.
  { exists l'. split; [done|]. destruct l'. unfold l_set_links in Hsame.
    simpl in *. by simplify_eq. }
  split; [done|]. split; [by rewrite Hi5, Hi|]. split; [done|].
  by rewrite Hen5, Hen.
Qed.

(** C9.  A file that reads as the rows [*, 100, 200], [@, start],
    [>, start], [*, 300, 400], where the four numbers are floats to
    [float], the default frequency validates to 1 and the default skip
    and adjust to false.  [compile] of the file, from any state of the
    routine, returns; it empties the label table, adds exactly four
    components to the sequence, in the order of the rows, and the
    second is the Label [start], registered under its name, whose index
    is its own position, the length of the sequence when it was
    evaluated.  [load] of the file, from any state of the routine,
    returns [True] with exactly these four components as the sequence;
    the Label has index 1, its own position; the linking pass has bound
    the Jump to it; the program counter is 0, and the enabled execution
    of the Jump, which fires, sets it to 1. *)
Theorem scenario_compiles (file text : string) (f1 f2 f3 f4 : pyfloat) (w : world) :
  files !! file = Some text -> csv_reader text = Sample.scenario ->
  py_float (VStr "100") = Ok f1 -> py_float (VStr "200") = Ok f2 ->
  py_float (VStr "300") = Ok f3 -> py_float (VStr "400") = Ok f4 ->
  validate_nonzero_int (VInt 1) = Ok 1 ->
  validate_boolean (VStr "False") = Ok false ->
  let n := length (heap w) in
  let m := length (sequence w) in
  let rc := Routine.compile file w in
  let wc := snd rc in
  (fst rc = Ok tt /\
   sequence wc = sequence w ++ [n; S n; S (S n); S (S (S n))] /\
   Routine.__len__ wc = Routine.__len__ w + 4 /\
   heap wc = heap w ++ [Sample.scenario_point "100" "200" f1 f2;
                        Sample.scenario_label (Routine.__len__ w + 1) ∅;
                        Sample.scenario_jump None;
                        Sample.scenario_point "300" "400" f3 f4] /\
   labels wc = {[ "start" := S n ]} /\
   sequence wc !! S m = Some (S n) /\
   heap wc !! S n = Some (Sample.scenario_label (Z.of_nat (S m)) ∅)) /\
  (truthy (VStr file) = true -> snd (path_splitext file) = ".csv" ->
   let rl := Routine.load (VStr file) w in
   let wl := snd rl in
   let we := set_enabled true wl in
   fst rl = Ok true /\
   sequence wl = [n; S n; S (S n); S (S (S n))] /\
   Routine.__len__ wl = 4 /\
   labels wl = {[ "start" := S n ]} /\
   (exists l, heap wl !! S n = Some (OLabel l) /\ l_label l = "start" /\
              l_index l = Some 1 /\ sequence wl !! 1%nat = Some (S n) /\
              S (S n) ∈ l_links l) /\
   heap wl !! S (S n) = Some (Sample.scenario_jump (Some (S n))) /\
   index wl = Some 0 /\
   fst (execute (S (S n)) we) = Ok (Some tt) /\
   index (snd (execute (S (S n)) we)) = Some 1).
Proof.
  intros Hfile Hcsv H1 H2 H3 H4 Hf Hb n m rc wc. split.
  - subst rc wc. unfold Routine.compile. unfold_monad. rewrite Hfile, Hcsv.
    destruct (scenario_rows_from f1 f2 f3 f4 1 (set_labels ∅ w) H1 H2 H3 H4 Hf Hb)
      as (w4 & Hrows & Hheap & Hseq & Hlab & _); [apply lookup_empty|].
    rewrite Hrows. simpl in *.
    split; [done|]. split; [done|].
    split; [unfold Routine.__len__; rewrite Hseq, length_app; simpl; lia|].
    split; [done|]. split; [by rewrite Hlab, insert_empty|].
    split; [rewrite Hseq; by rewrite (lookup_app_plus (sequence w) _ 1)|].
    rewrite Hheap, (lookup_app_plus (heap w) _ 1). simpl.
    unfold Routine.__len__. simpl. subst m. do 2 f_equal. lia.
  - intros Hg Hext rl wl we.
    assert (Hload : exists w0, rl = Routine.load_file file w0 /\
                      heap w0 = heap w).
    { subst rl. unfold Routine.load. unfold_monad. simpl in *. rewrite Hg.
      by eexists. }
    destruct Hload as (w0 & Hrl & Hh0).
    destruct (scenario_load_file file text f1 f2 f3 f4 w0 Hext Hfile Hcsv
                H1 H2 H3 H4 Hf Hb)
      as (Hok & Hseq & Hlab & (l & Hl & Hname & Hidx & Hin) & Hj & Hi & _).
    rewrite <- Hrl, Hh0 in *. fold n in Hseq, Hlab, Hl, Hin, Hj. fold wl in Hseq, Hlab, Hl, Hj, Hi.
    split; [done|]. split; [done|].
    split; [unfold Routine.__len__; by rewrite Hseq|].
    split; [done|].
    split; [exists l; by rewrite Hseq|]. split; [done|]. split; [done|].
    rewrite (execute_jump_bound (S (S n)) (S n) _ l we Hj eq_refl Hl eq_refl)
      by done.
    simpl. by rewrite Hidx.
Qed.
End Scenario.

Lemma scenario_compiles_witness :
  let w := snd (Routine.load (VStr "routine.csv") (Routine.__init__ true)) in
  let wc := snd (Routine.compile "routine.csv" w) in
  let wl := snd (Routine.load (VStr "routine.csv") w) in
  Routine.__len__ wc = 4 + 4 /\ labels wc = {[ "start" := 5%nat ]} /\
  Routine.__len__ wl = 4 /\
  index (snd (execute 6%nat (set_enabled true wl))) = Some 1.
Proof.
  intros w wc wl.
  destruct (scenario_compiles "routine.csv" Sample.routine_csv
              (Sample.float_of_Z 100) (Sample.float_of_Z 200)
              (Sample.float_of_Z 300) (Sample.float_of_Z 400) w)
    as ((_ & _ & Hlen & _ & Hlab & _) & Hload);
    try (vm_compute; reflexivity).
  destruct Hload as (_ & _ & Hlen' & _ & _ & _ & _ & _ & Hi);
    try (vm_compute; reflexivity).
  split; [exact Hlen|]. split; [exact Hlab|]. split; [exact Hlen'|exact Hi].
Defined.
